(** * main/server/models.py: posts, votes, moderation, notes, revisions, tags

    A shallow embedding of the model layer of the forum.  Rows are records,
    tables are finite maps or lists, and every function of the module that
    touches the database is a computation in a state-and-failure monad over
    the database.  A Python exception is a failure; the callers are wrapped
    in [transaction.commit_on_success], so a failed call leaves the stored
    state as it was.

    The signal receivers connected at the bottom of the module are part of
    the save and delete paths below: [verify_post] runs before every save of
    a post, [apply_instance] and [finalize_post] after it, and so on. *)

From stdpp Require Import gmap strings list fin_maps pretty sorting.

Open Scope Z_scope.

(** ** Constants of [main.server.const]

    The module does [from main.server.const import *]; the values are not in
    this file.  They are integer codes (the fields are [IntegerField]s), kept
    abstract here; only their being pairwise different is used. *)

Class Const := {
  POST_ANSWER : Z;
  POST_COMMENT : Z;
  POST_TOPLEVEL : list Z;
  POST_CONTENT_ONLY : list Z;
  POST_OPEN : Z;
  POST_CLOSED : Z;
  POST_DELETED : Z;
  VOTE_UP : Z;
  VOTE_DOWN : Z;
  VOTE_ACCEPT : Z;
  VOTE_BOOKMARK : Z;
  OPPOSING_VOTES : Z → option Z;
  NOTE_USER : Z;
  NOTE_MODERATOR : Z;
  USER_MODERATOR : Z;
  USER_ADMIN : Z;
  USER_SUSPENDED : Z;
  BADGE_BRONZE : Z;
  BADGE_SILVER : Z;
  BADGE_GOLD : Z;
  post_types_distinct : POST_ANSWER ≠ POST_COMMENT;
  post_status_distinct : NoDup [POST_OPEN; POST_CLOSED; POST_DELETED];
  vote_types_distinct : NoDup [VOTE_UP; VOTE_DOWN; VOTE_ACCEPT; VOTE_BOOKMARK];
  badge_types_distinct : NoDup [BADGE_BRONZE; BADGE_SILVER; BADGE_GOLD];
}.

(** ** Rows *)

(** [django.contrib.auth.models.User], as far as this module reads it: the
    primary key, the [can_moderate] attribute read by [user_moderate], and
    the result of [get_absolute_url]. *)
Record User := mkUser {
  user_id : nat;
  user_can_moderate : bool;
  user_url : string;
}.

Record UserProfile := mkProfile {
  prof_user : nat;
  prof_type : Z;
  prof_score : Z;
  bronze_badges : Z;
  silver_badges : Z;
  gold_badges : Z;
  new_messages : Z;
  prof_status : Z;
  about_me : string;
  about_me_html : string;
}.

Record Tag := mkTag {
  tag_id : nat;
  tag_name : string;
  tag_count : Z;
}.

(** [rank] is a [FloatField].  The values this module stores in it are whole
    numbers of seconds ([time.mktime] of a time tuple, moved by multiples of
    3600), on which the arithmetic of floats is that of integers, so the
    field is an integer here.  Dates are given by the number [mktime] reads
    from them. *)
Record Post := mkPost {
  post_id : nat;
  author : nat;
  content : string;
  html : string;
  title : string;
  slug : string;
  tag_val : string;
  views : Z;
  score : Z;
  full_score : Z;
  creation_date : option Z;
  lastedit_date : option Z;
  lastedit_user : option nat;
  status : Z;
  type : Z;
  root : option nat;
  parent : option nat;
  comment_count : Z;
  revision_count : Z;
  answer_count : Z;
  accepted : bool;
  url : string;
  rank : Z;
}.

Record PostRevision := mkRevision {
  rev_post : nat;
  rev_diff : string;
  rev_content : string;
  rev_author : nat;
  rev_date : Z;
}.

Record Note := mkNote {
  note_sender : nat;
  note_target : nat;
  note_content : string;
  note_html : string;
  note_date : Z;
  note_unread : bool;
  note_type : Z;
  note_url : string;
}.

Record Vote := mkVote {
  vote_id : nat;
  vote_author : nat;
  vote_post : nat;
  vote_type : Z;
}.

Record Badge := mkBadge {
  badge_id : nat;
  badge_type : Z;
  badge_count : Z;
}.

Record Award := mkAward {
  award_id : nat;
  award_badge : nat;
  award_user : nat;
  award_date : option Z;
}.

Global Instance User_eq_dec : EqDecision User.
Proof. solve_decision. Defined.
Global Instance Note_eq_dec : EqDecision Note.
Proof. solve_decision. Defined.
Global Instance Vote_eq_dec : EqDecision Vote.
Proof. solve_decision. Defined.

(** ** Field updates *)

Definition set_score (v : Z) (p : Post) : Post :=
  mkPost p.(post_id) p.(author) p.(content) p.(html) p.(title) p.(slug)
    p.(tag_val) p.(views) v p.(full_score) p.(creation_date)
    p.(lastedit_date) p.(lastedit_user) p.(status) p.(type) p.(root)
    p.(parent) p.(comment_count) p.(revision_count) p.(answer_count)
    p.(accepted) p.(url) p.(rank).

Definition set_full_score (v : Z) (p : Post) : Post :=
  mkPost p.(post_id) p.(author) p.(content) p.(html) p.(title) p.(slug)
    p.(tag_val) p.(views) p.(score) v p.(creation_date)
    p.(lastedit_date) p.(lastedit_user) p.(status) p.(type) p.(root)
    p.(parent) p.(comment_count) p.(revision_count) p.(answer_count)
    p.(accepted) p.(url) p.(rank).

Definition set_rank (v : Z) (p : Post) : Post :=
  mkPost p.(post_id) p.(author) p.(content) p.(html) p.(title) p.(slug)
    p.(tag_val) p.(views) p.(score) p.(full_score) p.(creation_date)
    p.(lastedit_date) p.(lastedit_user) p.(status) p.(type) p.(root)
    p.(parent) p.(comment_count) p.(revision_count) p.(answer_count)
    p.(accepted) p.(url) v.

Definition set_status (v : Z) (p : Post) : Post :=
  mkPost p.(post_id) p.(author) p.(content) p.(html) p.(title) p.(slug)
    p.(tag_val) p.(views) p.(score) p.(full_score) p.(creation_date)
    p.(lastedit_date) p.(lastedit_user) v p.(type) p.(root)
    p.(parent) p.(comment_count) p.(revision_count) p.(answer_count)
    p.(accepted) p.(url) p.(rank).

Definition set_accepted (v : bool) (p : Post) : Post :=
  mkPost p.(post_id) p.(author) p.(content) p.(html) p.(title) p.(slug)
    p.(tag_val) p.(views) p.(score) p.(full_score) p.(creation_date)
    p.(lastedit_date) p.(lastedit_user) p.(status) p.(type) p.(root)
    p.(parent) p.(comment_count) p.(revision_count) p.(answer_count)
    v p.(url) p.(rank).

Definition set_answer_count (v : Z) (p : Post) : Post :=
  mkPost p.(post_id) p.(author) p.(content) p.(html) p.(title) p.(slug)
    p.(tag_val) p.(views) p.(score) p.(full_score) p.(creation_date)
    p.(lastedit_date) p.(lastedit_user) p.(status) p.(type) p.(root)
    p.(parent) p.(comment_count) p.(revision_count) v
    p.(accepted) p.(url) p.(rank).

Definition set_comment_count (v : Z) (p : Post) : Post :=
  mkPost p.(post_id) p.(author) p.(content) p.(html) p.(title) p.(slug)
    p.(tag_val) p.(views) p.(score) p.(full_score) p.(creation_date)
    p.(lastedit_date) p.(lastedit_user) p.(status) p.(type) p.(root)
    p.(parent) v p.(revision_count) p.(answer_count)
    p.(accepted) p.(url) p.(rank).

Definition set_revision_count (v : Z) (p : Post) : Post :=
  mkPost p.(post_id) p.(author) p.(content) p.(html) p.(title) p.(slug)
    p.(tag_val) p.(views) p.(score) p.(full_score) p.(creation_date)
    p.(lastedit_date) p.(lastedit_user) p.(status) p.(type) p.(root)
    p.(parent) p.(comment_count) v p.(answer_count)
    p.(accepted) p.(url) p.(rank).

Definition set_post_id (v : nat) (p : Post) : Post :=
  mkPost v p.(author) p.(content) p.(html) p.(title) p.(slug)
    p.(tag_val) p.(views) p.(score) p.(full_score) p.(creation_date)
    p.(lastedit_date) p.(lastedit_user) p.(status) p.(type) p.(root)
    p.(parent) p.(comment_count) p.(revision_count) p.(answer_count)
    p.(accepted) p.(url) p.(rank).

(** The fields the direct UPDATE of [update_post_views] touches. *)
Definition set_viewed (vw rk : Z) (p : Post) : Post :=
  mkPost p.(post_id) p.(author) p.(content) p.(html) p.(title) p.(slug)
    p.(tag_val) vw p.(score) p.(full_score) p.(creation_date)
    p.(lastedit_date) p.(lastedit_user) p.(status) p.(type) p.(root)
    p.(parent) p.(comment_count) p.(revision_count) p.(answer_count)
    p.(accepted) p.(url) rk.

(** The fields [verify_post] assigns before a save. *)
Definition set_verified (eu : option nat) (cd ld : option Z) (rk : Z)
    (sl ht : string) (p : Post) : Post :=
  mkPost p.(post_id) p.(author) p.(content) ht p.(title) sl
    p.(tag_val) p.(views) p.(score) p.(full_score) cd
    ld eu p.(status) p.(type) p.(root)
    p.(parent) p.(comment_count) p.(revision_count) p.(answer_count)
    p.(accepted) p.(url) rk.

(** The fields [finalize_post] fills in on a created post. *)
Definition set_defaults (rt pa : option nat) (ti sl : string) (p : Post) : Post :=
  mkPost p.(post_id) p.(author) p.(content) p.(html) ti sl
    p.(tag_val) p.(views) p.(score) p.(full_score) p.(creation_date)
    p.(lastedit_date) p.(lastedit_user) p.(status) p.(type) rt
    pa p.(comment_count) p.(revision_count) p.(answer_count)
    p.(accepted) p.(url) p.(rank).

Definition set_prof_score (v : Z) (u : UserProfile) : UserProfile :=
  mkProfile u.(prof_user) u.(prof_type) v u.(bronze_badges) u.(silver_badges)
    u.(gold_badges) u.(new_messages) u.(prof_status) u.(about_me)
    u.(about_me_html).

Definition set_prof_status (v : Z) (u : UserProfile) : UserProfile :=
  mkProfile u.(prof_user) u.(prof_type) u.(prof_score) u.(bronze_badges)
    u.(silver_badges) u.(gold_badges) u.(new_messages) v u.(about_me)
    u.(about_me_html).

Definition set_new_messages (v : Z) (u : UserProfile) : UserProfile :=
  mkProfile u.(prof_user) u.(prof_type) u.(prof_score) u.(bronze_badges)
    u.(silver_badges) u.(gold_badges) v u.(prof_status) u.(about_me)
    u.(about_me_html).

Definition set_badges (b s g : Z) (u : UserProfile) : UserProfile :=
  mkProfile u.(prof_user) u.(prof_type) u.(prof_score) b s g
    u.(new_messages) u.(prof_status) u.(about_me) u.(about_me_html).

Definition set_about_me_html (v : string) (u : UserProfile) : UserProfile :=
  mkProfile u.(prof_user) u.(prof_type) u.(prof_score) u.(bronze_badges)
    u.(silver_badges) u.(gold_badges) u.(new_messages) u.(prof_status)
    u.(about_me) v.

Definition set_tag_count (v : Z) (t : Tag) : Tag :=
  mkTag t.(tag_id) t.(tag_name) v.

Definition set_badge_count (v : Z) (b : Badge) : Badge :=
  mkBadge b.(badge_id) b.(badge_type) v.

(** ** The database *)

(** The entities that have an [apply] method. *)
Inductive Entity :=
  | EPost (pk : nat)
  | EVote (pk : nat)
  | EAward (pk : nat).

Global Instance Entity_eq_dec : EqDecision Entity.
Proof. solve_decision. Defined.

(** Tables keyed by primary key are finite maps; profiles are keyed by their
    user (the relation is one-to-one).  Votes, awards, notes and revisions
    are kept in insertion order.  [tag_set] is the through table of
    [Post.tag_set]: pairs (post, tag).

    [applied] and [notified] are not stored data: they record, in order,
    every invocation of an [apply] method and of
    [post_create_notification], so that "runs once" can be stated. *)
Record DB := mkDB {
  posts : gmap nat Post;
  profiles : gmap nat UserProfile;
  votes : list Vote;
  notes : list Note;
  revisions : list PostRevision;
  tags : gmap nat Tag;
  tag_set : list (nat * nat);
  badges : gmap nat Badge;
  awards : list Award;
  applied : list (Entity * Z);
  notified : list nat;
}.

Definition with_posts (f : gmap nat Post → gmap nat Post) (d : DB) : DB :=
  mkDB (f d.(posts)) d.(profiles) d.(votes) d.(notes) d.(revisions) d.(tags)
    d.(tag_set) d.(badges) d.(awards) d.(applied) d.(notified).
Definition with_profiles (f : gmap nat UserProfile → gmap nat UserProfile)
    (d : DB) : DB :=
  mkDB d.(posts) (f d.(profiles)) d.(votes) d.(notes) d.(revisions) d.(tags)
    d.(tag_set) d.(badges) d.(awards) d.(applied) d.(notified).
Definition with_votes (f : list Vote → list Vote) (d : DB) : DB :=
  mkDB d.(posts) d.(profiles) (f d.(votes)) d.(notes) d.(revisions) d.(tags)
    d.(tag_set) d.(badges) d.(awards) d.(applied) d.(notified).
Definition with_notes (f : list Note → list Note) (d : DB) : DB :=
  mkDB d.(posts) d.(profiles) d.(votes) (f d.(notes)) d.(revisions) d.(tags)
    d.(tag_set) d.(badges) d.(awards) d.(applied) d.(notified).
Definition with_revisions (f : list PostRevision → list PostRevision)
    (d : DB) : DB :=
  mkDB d.(posts) d.(profiles) d.(votes) d.(notes) (f d.(revisions)) d.(tags)
    d.(tag_set) d.(badges) d.(awards) d.(applied) d.(notified).
Definition with_tags (f : gmap nat Tag → gmap nat Tag) (d : DB) : DB :=
  mkDB d.(posts) d.(profiles) d.(votes) d.(notes) d.(revisions) (f d.(tags))
    d.(tag_set) d.(badges) d.(awards) d.(applied) d.(notified).
Definition with_tag_set (f : list (nat * nat) → list (nat * nat)) (d : DB) : DB :=
  mkDB d.(posts) d.(profiles) d.(votes) d.(notes) d.(revisions) d.(tags)
    (f d.(tag_set)) d.(badges) d.(awards) d.(applied) d.(notified).
Definition with_badges (f : gmap nat Badge → gmap nat Badge) (d : DB) : DB :=
  mkDB d.(posts) d.(profiles) d.(votes) d.(notes) d.(revisions) d.(tags)
    d.(tag_set) (f d.(badges)) d.(awards) d.(applied) d.(notified).
Definition with_awards (f : list Award → list Award) (d : DB) : DB :=
  mkDB d.(posts) d.(profiles) d.(votes) d.(notes) d.(revisions) d.(tags)
    d.(tag_set) d.(badges) (f d.(awards)) d.(applied) d.(notified).
Definition with_applied (f : list (Entity * Z) → list (Entity * Z)) (d : DB) : DB :=
  mkDB d.(posts) d.(profiles) d.(votes) d.(notes) d.(revisions) d.(tags)
    d.(tag_set) d.(badges) d.(awards) (f d.(applied)) d.(notified).
Definition with_notified (f : list nat → list nat) (d : DB) : DB :=
  mkDB d.(posts) d.(profiles) d.(votes) d.(notes) d.(revisions) d.(tags)
    d.(tag_set) d.(badges) d.(awards) d.(applied) (f d.(notified)).

(** ** The monad: database state, and failure for a raised exception *)

Definition M (A : Type) : Type := DB → option (A * DB).

Definition ret {A} (a : A) : M A := λ d, Some (a, d).
Definition bind {A B} (m : M A) (k : A → M B) : M B :=
  λ d, match m d with
       | Some (a, d') => k a d'
       | None => None
       end.
Definition raise {A} : M A := λ _, None.
Definition get_db : M DB := λ d, Some (d, d).
Definition modify (f : DB → DB) : M unit := λ d, Some (tt, f d).
Definition lift_opt {A} (o : option A) : M A :=
  λ d, match o with Some a => Some (a, d) | None => None end.

Notation "'do' x <- m ; k" := (bind m (λ x, k))
  (at level 10, x name, m at level 100, k at level 200).
Notation "'do' ' pat <- m ; k" := (bind m (λ x, match x with pat => k end))
  (at level 10, pat pattern, m at level 100, k at level 200).
Notation "'run' m ; k" := (bind m (λ _, k))
  (at level 10, m at level 100, k at level 200).

Definition when (b : bool) (m : M unit) : M unit := if b then m else ret tt.

(** [for x in xs: body(x)] *)
Fixpoint for_each {A} (xs : list A) (body : A → M unit) : M unit :=
  match xs with
  | [] => ret tt
  | x :: xs' => run body x; for_each xs' body
  end.

(** The outcome of a call under [transaction.commit_on_success]: the new
    state when the call returns, the old one when it raises. *)
Definition committed {A} (m : M A) (d : DB) : DB :=
  match m d with
  | Some (_, d') => d'
  | None => d
  end.

(** The line feed of ["TITLE:%s\n%s\nTAGS:%s"]. *)
Definition newline : string := String (Ascii.ascii_of_nat 10) EmptyString.

(** ** Collaborators

    Functions of other modules and of the framework that this module calls
    and that do not write to the tables above.  [mktime d] stands for
    [time.mktime(d.timetuple())], [now] for [datetime.now()]: the reading
    of the clock during the call under study.  A call made later is a call
    with collaborators whose [now] is later. *)

Class Collab := {
  html_generate : string → string;
  py_strip : string → string;
  slugify : string → string;
  get_type_display : Z → string;
  get_status_display : Z → string;
  get_profile_status_display : Z → string;
  get_vote_type_display : Z → string;
  mktime : Z → Z;
  now : Z;
  CONTENT_INDEXING : bool;
  authorize_post_edit : User → Post → DB → bool;
  authorize_user_edit : User → User → DB → bool;
  user_moderator_action : User → User → string;
  post_moderator_action : User → Post → string;
  post_action : nat → Post → string;
  splitlines : string → list string;
  unified_diff : list string → list string → list string;
}.

Section Models.
Context `{Const} `{Collab}.

(** ** Reading rows *)

(** An object read from the [Post] table carries the key it was read by. *)
Definition post_row (pk : nat) (d : DB) : option Post :=
  set_post_id pk <$> d.(posts) !! pk.

(** [Post.objects.get(pk=pk)]; raises [DoesNotExist] when there is no row. *)
Definition get_post (pk : nat) : M Post :=
  λ d, lift_opt (post_row pk d) d.

(** Access to a nullable foreign key to [Post] ([post.root], [post.parent]):
    [None] when the column is null, the row when it is there, and
    [DoesNotExist] otherwise. *)
Definition related_post (fk : option nat) : M (option Post) :=
  match fk with
  | None => ret None
  | Some pk => do p <- get_post pk; ret (Some p)
  end.

(** [user.profile] / [user.get_profile()] *)
Definition get_profile (uid : nat) : M UserProfile :=
  λ d, lift_opt (d.(profiles) !! uid) d.

Definition get_badge (pk : nat) : M Badge := λ d, lift_opt (d.(badges) !! pk) d.

(** The rows of [Post] as objects, for [filter] queries. *)
Definition all_posts (d : DB) : list Post :=
  (λ kp, set_post_id kp.1 kp.2) <$> map_to_list d.(posts).

(** The primary key the database gives to a new row. *)
Definition new_post_pk (d : DB) : nat := fresh (dom d.(posts)).
Definition new_vote_pk (d : DB) : nat := S (foldr Nat.max 0%nat (vote_id <$> d.(votes))).
Definition new_award_pk (d : DB) : nat := S (foldr Nat.max 0%nat (award_id <$> d.(awards))).
Definition new_tag_pk (d : DB) : nat := fresh (dom d.(tags)).

(** ** UserProfile *)

Definition can_moderate (u : UserProfile) : bool :=
  bool_decide (u.(prof_type) = USER_MODERATOR) || bool_decide (u.(prof_type) = USER_ADMIN).

(** [update_profile], the pre-save receiver of [UserProfile]. *)
Definition update_profile (u : UserProfile) : UserProfile :=
  set_about_me_html (html_generate u.(about_me)) u.

(** [profile.save()] for the profile of user [uid]. *)
Definition profile_save (uid : nat) (u : UserProfile) : M unit :=
  modify (with_profiles <[uid := update_profile u]>).

(** ** Post: properties and the save path *)

Definition top_level (p : Post) : bool := bool_decide (p.(type) ∈ POST_TOPLEVEL).

Definition combine (p : Post) : string :=
  if bool_decide (p.(type) ∈ POST_CONTENT_ONLY) then p.(content)
  else "TITLE:" +:+ p.(title) +:+ newline +:+ p.(content) +:+ newline
       +:+ "TAGS:" +:+ p.(tag_val).

(** The assignments of [verify_post]. *)
Definition verified (p : Post) : Post :=
  let eu := match p.(lastedit_user) with
            | Some u => Some u
            | None => Some p.(author)
            end in
  let cd := default now p.(creation_date) in
  let ld := default now p.(lastedit_date) in
  let rk := if bool_decide (p.(rank) = 0) then mktime cd else p.(rank) in
  set_verified eu (Some cd) (Some ld) rk (slugify p.(title))
    (html_generate (py_strip p.(content))) p.

(** [verify_post], the pre-save receiver of [Post]: the assertion on root
    and parent, and the assignments. *)
Definition verify_post (p : Post) : M Post :=
  run (if top_level p then ret tt else
         do r <- related_post p.(root);
         do pa <- related_post p.(parent);
         if bool_decide (is_Some r ∧ is_Some pa) then ret tt else raise);
  ret (verified p).

(** [post.save()] on an instance whose row exists: [verify_post], then the
    row is overwritten.  The post-save receivers [apply_instance] and
    [finalize_post] are guarded by [created] and do nothing here
    (see [apply_instance_not_created], [finalize_post_not_created]).
    The instance, as changed by [verify_post], is returned. *)
Definition Post_update (p : Post) : M Post :=
  do p' <- verify_post p;
  run modify (with_posts <[p.(post_id) := p']>);
  ret p'.

(** [update_post_views]: for a user who is not anonymous and has not seen
    the post in this session, a direct UPDATE of the row, which sends no
    signal, and the post's key joins the session's set [viewed].  The result
    is the returned post ([None] for an anonymous user) and the set. *)
Definition update_post_views (post : Post) (anonymous : bool) (viewed : list nat)
    (amount : Z) : M (option Post * list nat) :=
  if anonymous then ret (None, viewed)
  else if bool_decide (post.(post_id) ∈ viewed) then ret (Some post, viewed)
  else
    run modify (with_posts
                  (alter (λ row, set_viewed (row.(views) + 1) (row.(rank) + amount) row)
                     post.(post_id)));
    ret (Some (set_viewed (post.(views) + 1) post.(rank) post),
         post.(post_id) :: viewed).

(** [post.get_absolute_url()] *)
Definition get_absolute_url (p : Post) : M string :=
  do r <- related_post p.(root);
  do r <- lift_opt r;
  let u := if top_level p
           then "/post/show/" +:+ pretty r.(post_id) +:+ "/" +:+ r.(slug) +:+ "/"
           else "/post/show/" +:+ pretty r.(post_id) +:+ "/" +:+ r.(slug) +:+ "/#"
                +:+ pretty p.(post_id) in
  ret (if bool_decide (p.(url) = "") then u else p.(url)).

(** Records a call of an [apply] method. *)
Definition log_apply (e : Entity) (dir : Z) : M unit :=
  modify (with_applied (λ l, l ++ [(e, dir)])).

(** [Post.apply] *)
Definition Post_apply (p : Post) (dir : Z) : M unit :=
  run log_apply (EPost p.(post_id)) dir;
  run when (bool_decide (p.(type) = POST_ANSWER))
      (do pa <- related_post p.(parent);
       do pa <- lift_opt pa;
       do _ <- Post_update (set_answer_count (pa.(answer_count) + dir) pa);
       ret tt);
  when (bool_decide (p.(type) = POST_COMMENT))
      (do pa <- related_post p.(parent);
       do pa <- lift_opt pa;
       do _ <- Post_update (set_comment_count (pa.(comment_count) + dir) pa);
       ret tt).

(** ** Notes *)

(** [verify_note], the pre-save receiver of [Note], on a note built from the
    given fields. *)
Definition verify_note (sender target : nat) (text : string) (ty : Z)
    (unread : bool) (date : option Z) (u : string) : Note :=
  mkNote sender target text (html_generate text) (default now date) unread ty u.

(** [finalize_note], the post-save receiver of [Note]. *)
Definition finalize_note (n : Note) (created : bool) : M unit :=
  when (created && n.(note_unread))
    (do pr <- get_profile n.(note_target);
     profile_save n.(note_target) (set_new_messages (pr.(new_messages) + 1) pr)).

(** [Note.objects.create(...)] *)
Definition Note_create (sender target : nat) (text : string) (ty : Z)
    (unread : bool) (date : option Z) (u : string) : M unit :=
  let n := verify_note sender target text ty unread date u in
  run modify (with_notes (λ l, l ++ [n]));
  finalize_note n true.

Definition send_note (sender target : nat) (text : string) (ty : Z)
    (unread : bool) (date : option Z) (both : bool) (u : string) : M unit :=
  let date := Some (default now date) in
  let u := String.substring 0%nat 200%nat u in
  run Note_create sender target text NOTE_USER unread date u;
  when both (Note_create sender sender text ty false date u).

(** ** Revisions *)

(** [PostRevision.objects.filter(post=post).order_by('-date')[:1]]: the
    revision of the post with the greatest date; among revisions of equal
    date, the one stored first. *)
Definition latest_revision (pk : nat) (d : DB) : option PostRevision :=
  foldl (λ best r,
           if bool_decide (r.(rev_post) = pk) then
             match best with
             | Some b => if bool_decide (b.(rev_date) < r.(rev_date)) then Some r else best
             | None => Some r
             end
           else best) None d.(revisions).

(** [create_revision].  [save] is [post.save()]; [date] is an [auto_now]
    field, so the stored date is the time of the save, whatever is passed. *)
Definition create_revision_with (save : Post → M Post) (post : Post) : M unit :=
  do d <- get_db;
  let last := latest_revision post.(post_id) d in
  let text := combine post in
  do editor <- lift_opt post.(lastedit_user);
  let prev := match last with Some r => r.(rev_content) | None => "" end in
  if bool_decide (text ≠ prev) then
    let diff := String.concat "" (unified_diff (splitlines prev) (splitlines text)) in
    run modify (with_revisions (λ l, l ++ [mkRevision post.(post_id) diff text editor now]));
    do _ <- save (set_revision_count (post.(revision_count) + 1) post);
    ret tt
  else ret tt.

(** ** Notification on creation *)

(** [authors] is a Python set of users, compared by primary key; its
    iteration order is not specified, the order here is one of them. *)
Definition post_create_notification (post : Post) : M unit :=
  run modify (with_notified (λ l, l ++ [post.(post_id)]));
  do r <- related_post post.(root);
  let rt := default post r in
  do d <- get_db;
  let children := filter (λ c : Post, c.(root) = Some rt.(post_id)) (all_posts d) in
  let authors := remove_dups (rt.(author) :: (author <$> children)) in
  let text := post_action post.(author) post in
  for_each authors (λ target,
    let unread := bool_decide (target ≠ post.(author)) in
    do u <- get_absolute_url post;
    send_note post.(author) target text NOTE_USER unread post.(creation_date) false u).

(** ** Receivers of [post_save] and [post_delete] *)

(** [apply_instance] and [unapply_instance]; [apply] is [instance.apply]. *)
Definition apply_instance (apply : Z → M unit) (created raw : bool) : M unit :=
  if created && negb raw then apply 1 else ret tt.

Definition unapply_instance {A} (apply : Z → M A) : M A := apply (-1).

(** [s[0]]; [IndexError] on the empty string. *)
Definition first_char (s : string) : option string :=
  match s with
  | EmptyString => None
  | String c _ => Some (String c EmptyString)
  end.

(** [finalize_post].  The call of [search.update] under
    [settings.CONTENT_INDEXING] writes to the search index only. *)
Definition finalize_post (inst : Post) (created raw : bool) : M unit :=
  if created then
    do r <- related_post inst.(root);
    do pa <- related_post inst.(parent);
    do inst <-
      (if bool_decide (is_Some r) && bool_decide (is_Some pa)
          && negb (bool_decide (inst.(title) = ""))
       then ret inst
       else
         do ti <- (if bool_decide (inst.(title) = "") then
                     do c <- lift_opt (first_char (get_type_display inst.(type)));
                     ret (c +:+ ": " +:+ match pa with
                                         | Some q => q.(title)
                                         | None => inst.(title)
                                         end)
                   else ret inst.(title));
         Post_update (set_defaults (Some (default inst.(post_id) inst.(root)))
                        (Some (default inst.(post_id) inst.(parent)))
                        ti (slugify ti) inst));
    when (negb (bool_decide (inst.(content) = "")) && negb raw)
      (run post_create_notification inst;
       run when (bool_decide (inst.(type) ≠ POST_COMMENT))
           (create_revision_with Post_update inst);
       when CONTENT_INDEXING (ret tt))
  else ret tt.

(** ** Saving posts *)

(** INSERT of a post under key [pk]: [verify_post] before, then the
    post-save receivers in the order they were connected: [apply_instance],
    [finalize_post]. *)
Definition Post_insert (pk : nat) (raw : bool) (p : Post) : M nat :=
  do p' <- verify_post (set_post_id pk p);
  run modify (with_posts <[pk := p']>);
  run apply_instance (Post_apply p') true raw;
  run finalize_post p' true raw;
  ret pk.

(** [Post.objects.create(...)], and the loading of a fixture when [raw]. *)
Definition Post_create (raw : bool) (p : Post) : M nat :=
  do d <- get_db; Post_insert (new_post_pk d) raw p.

(** [post.save()] on an instance handed in by a caller: an update when the
    row is there, an insertion otherwise. *)
Definition Post_save (p : Post) : M Post :=
  λ d, match d.(posts) !! p.(post_id) with
       | Some _ => Post_update p d
       | None => (do pk <- Post_insert p.(post_id) false p; get_post pk) d
       end.

Definition create_revision (post : Post) : M unit :=
  create_revision_with Post_save post.

(** ** Scoring *)

(** [post_score_change].  [rt] is the object [post.root] evaluates to; it is
    read once and kept on the post object, so [Vote.apply] and this function
    see the same one. *)
Definition post_score_change_cached (post : Post) (rt : option Post)
    (amount hours : Z) : M (Post * option Post) :=
  let gain := 3600 * hours in
  let post := set_rank (post.(rank) + amount * gain) post in
  let post := set_score (post.(score) + amount) post in
  let is_root := match rt with
                 | Some r => bool_decide (post.(post_id) = r.(post_id))
                 | None => false
                 end in
  let post := if is_root then set_full_score (post.(full_score) + amount) post
              else post in
  do post <- Post_update post;
  if is_root then ret (post, rt)
  else
    do r <- lift_opt rt;
    let r := set_full_score (r.(full_score) + amount) r in
    let r := if bool_decide (r.(rank) < post.(rank)) then set_rank post.(rank) r
             else r in
    do r <- Post_update r;
    ret (post, Some r).

Definition post_score_change (post : Post) (amount : Z) : M (Post * option Post) :=
  do rt <- related_post post.(root);
  post_score_change_cached post rt amount 1.

Definition user_score_change (uid : nat) (amount : Z) : M unit :=
  do pr <- get_profile uid;
  profile_save uid (set_prof_score (pr.(prof_score) + amount) pr).

(** ** Votes *)

(** [Vote.apply]; [post] is the object [self.post].  The post object as the
    method leaves it is returned. *)
Definition Vote_apply (v : Vote) (post : Post) (dir : Z) : M Post :=
  run log_apply (EVote v.(vote_id)) dir;
  do rt <- related_post post.(root);
  do '(post, rt) <-
    (if bool_decide (v.(vote_type) = VOTE_UP) then
       do pr <- post_score_change_cached post rt dir 1;
       run user_score_change post.(author) dir;
       ret pr
     else ret (post, rt));
  do '(post, rt) <-
    (if bool_decide (v.(vote_type) = VOTE_DOWN) then
       post_score_change_cached post rt (- dir) 1
     else ret (post, rt));
  if bool_decide (v.(vote_type) = VOTE_ACCEPT) then
    do r <- lift_opt rt;
    let flag := bool_decide (dir = 1) in
    do post <- Post_update (set_accepted flag post);
    do _ <- Post_update (set_accepted flag r);
    ret post
  else ret post.

(** [Vote.objects.create(post=post, author=user, type=ty)]: the row refers
    to a stored post; [apply_instance] then runs [vote.apply(+1)] on the
    post object the vote was built with. *)
Definition Vote_create (raw : bool) (post : Post) (user : nat) (ty : Z) : M Vote :=
  do _ <- get_post post.(post_id);
  do d <- get_db;
  let v := mkVote (new_vote_pk d) user post.(post_id) ty in
  run modify (with_votes (λ l, l ++ [v]));
  run apply_instance (λ dir, do _ <- Vote_apply v post dir; ret tt) true raw;
  ret v.

(** [vote.delete()] on a vote read from the table: the row goes, then
    [unapply_instance] runs [vote.apply(-1)], which reads [vote.post] from
    the table.  That post object is returned ([vote.post] afterwards). *)
Definition Vote_delete (v : Vote) : M Post :=
  run modify (with_votes (filter (λ w, w.(vote_id) ≠ v.(vote_id))));
  unapply_instance (λ dir, do post <- get_post v.(vote_post); Vote_apply v post dir).

Definition votes_of (pk user : nat) (ty : Z) (d : DB) : list Vote :=
  filter (λ v, v.(vote_post) = pk ∧ v.(vote_author) = user ∧ v.(vote_type) = ty)
    d.(votes).

(** [for vote in ...: vote.delete(); post = vote.post] *)
Fixpoint delete_opposing (vs : list Vote) (post : Post) : M Post :=
  match vs with
  | [] => ret post
  | v :: vs' => do post' <- Vote_delete v; delete_opposing vs' post'
  end.

(** [insert_vote].  The [vote.save()] that follows the creation is an update of
    the new row; [apply_instance] does nothing on it. *)
Definition insert_vote (post : Post) (user : nat) (ty : Z) : M (Vote * string) :=
  do d <- get_db;
  let vs := votes_of post.(post_id) user ty d in
  match last vs with
  | Some v =>
      run for_each vs (λ w, do _ <- Vote_delete w; ret tt);
      ret (v, get_vote_type_display v.(vote_type) +:+ " removed")
  | None =>
      do post <-
        (match OPPOSING_VOTES ty with
         | Some opp =>
             if bool_decide (opp ≠ 0) then
               delete_opposing (votes_of post.(post_id) user opp d) post
             else ret post
         | None => ret post
         end);
      do v <- Vote_create false post user ty;
      ret (v, get_vote_type_display v.(vote_type) +:+ " added")
  end.

(** ** Awards *)

(** [Award.apply] *)
Definition Award_apply (a : Award) (dir : Z) : M unit :=
  run log_apply (EAward a.(award_id)) dir;
  do b <- get_badge a.(award_badge);
  do pr <- get_profile a.(award_user);
  let ty := b.(badge_type) in
  let bz := if bool_decide (ty = BADGE_BRONZE) then pr.(bronze_badges) + dir
            else pr.(bronze_badges) in
  let sv := if bool_decide (ty = BADGE_SILVER) then pr.(silver_badges) + dir
            else pr.(silver_badges) in
  let gd := if bool_decide (ty = BADGE_GOLD) then pr.(gold_badges) + dir
            else pr.(gold_badges) in
  run profile_save a.(award_user) (set_badges bz sv gd pr);
  modify (with_badges <[a.(award_badge) := set_badge_count (b.(badge_count) + dir) b]>).

(** [create_award], the pre-save receiver of [Award]. *)
Definition create_award (date : option Z) : option Z := Some (default now date).

(** [Award.objects.create(...)]: [create_award] before the insertion,
    [apply_instance] after it. *)
Definition Award_create (raw : bool) (badge user : nat) (date : option Z) : M Award :=
  do d <- get_db;
  let a := mkAward (new_award_pk d) badge user (create_award date) in
  run modify (with_awards (λ l, l ++ [a]));
  run apply_instance (Award_apply a) true raw;
  ret a.

Definition Award_delete (a : Award) : M unit :=
  run modify (with_awards (filter (λ b, b.(award_id) ≠ a.(award_id))));
  unapply_instance (Award_apply a).

(** ** Deleting votes and posts *)

(** [Vote.objects.filter(...).delete()]: the rows go, then [post_delete] is
    sent for each of them. *)
Definition Votes_delete (vs : list Vote) : M unit :=
  run modify (with_votes (filter (λ w, w.(vote_id) ∉ vote_id <$> vs)));
  for_each vs (λ v,
    do _ <- unapply_instance (λ dir, do post <- get_post v.(vote_post);
                                     Vote_apply v post dir);
    ret tt).

Definition fk_in (fk : option nat) (pks : list nat) : Prop :=
  match fk with
  | Some k => k ∈ pks
  | None => False
  end.

Global Instance fk_in_dec fk pks : Decision (fk_in fk pks).
Proof. destruct fk; simpl; apply _. Defined.

(** The cascade of a deletion over the two foreign keys of [Post] to itself:
    one round adds the posts whose root or parent is already collected. *)
Definition cascade_step (d : DB) (pks : list nat) : list nat :=
  remove_dups (pks ++ (post_id <$>
    filter (λ q : Post, fk_in q.(root) pks ∨ fk_in q.(parent) pks) (all_posts d))).

Fixpoint cascade (rounds : nat) (d : DB) (pks : list nat) : list nat :=
  match rounds with
  | O => pks
  | S n => cascade n d (cascade_step d pks)
  end.

(** [post.delete()]: the post, the posts below it, and the votes, revisions
    and tag associations of all of them are collected and their rows
    removed; then [post_delete] is sent for every collected vote and post.
    The instance the method is called on is collected as it is, the others
    are read from the table. *)
Definition Post_delete (p : Post) : M unit :=
  do d <- get_db;
  let pks := cascade (size d.(posts)) d [p.(post_id)] in
  let others := omap (λ k, post_row k d) (filter (λ k, k ≠ p.(post_id)) pks) in
  let vs := filter (λ v, v.(vote_post) ∈ pks) d.(votes) in
  run modify (with_posts (λ m, foldr delete m pks));
  run modify (with_votes (filter (λ v, v.(vote_post) ∉ pks)));
  run modify (with_revisions (filter (λ r, r.(rev_post) ∉ pks)));
  run modify (with_tag_set (filter (λ r, r.1 ∉ pks)));
  run for_each vs (λ v,
    do _ <- unapply_instance (λ dir, do post <- get_post v.(vote_post);
                                     Vote_apply v post dir);
    ret tt);
  for_each (p :: others) (λ q, unapply_instance (Post_apply q)).

(** ** Moderation *)

(** What a moderation function returns: a pair [(flag, message)] or a
    string. *)
Inductive PyVal :=
  | PyPair (ok : bool) (msg : string)
  | PyStr (s : string).

Inductive Level := ERROR | INFO.

(** [messages.error(request, msg) if request else None], likewise
    [messages.info]: the messages handed to the request. *)
Definition flash (request : bool) (lv : Level) (msg : string) : list (Level * string) :=
  if request then [(lv, msg)] else [].

(** [user_moderate] ([logger.error] writes to the log only). *)
Definition user_moderate (user target : User) (st : Z) : M PyVal :=
  if negb user.(user_can_moderate) then
    ret (PyPair false ("User " +:+ pretty user.(user_id) +:+ " not a moderator"))
  else
    do d <- get_db;
    if negb (authorize_user_edit user target d) then
      ret (PyPair false ("User " +:+ pretty user.(user_id)
                         +:+ " not authorized to moderate "
                         +:+ pretty target.(user_id)))
    else
      do pr <- get_profile target.(user_id);
      run profile_save target.(user_id) (set_prof_status st pr);
      let text := user_moderator_action user target in
      run send_note user.(user_id) target.(user_id) text NOTE_MODERATOR true None
          true user.(user_url);
      ret (PyPair true ("User status set to " +:+ get_profile_status_display st)).

(** [no_orphans]:
    [Post.objects.filter(parent=post).exclude(id=post.id).count() == 0] *)
Definition no_orphans (post : Post) (d : DB) : Prop :=
  length (filter (λ q : Post, q.(parent) = Some post.(post_id)
                              ∧ q.(post_id) ≠ post.(post_id)) (all_posts d))
  = 0%nat.

Global Instance no_orphans_dec post d : Decision (no_orphans post d).
Proof. unfold no_orphans. apply _. Defined.

(** [status == POST_OPEN and not user.profile.can_moderate] *)
Definition may_not_open (user : User) (st : Z) : M bool :=
  if bool_decide (st = POST_OPEN) then
    do pr <- get_profile user.(user_id); ret (negb (can_moderate pr))
  else ret false.

(** [post_moderate]; [request] tells whether a request object was passed. *)
Definition post_moderate (request : bool) (post : Post) (user : User) (st : Z)
    : M (PyVal * list (Level * string)) :=
  do u <- get_absolute_url post;
  do refused <- may_not_open user st;
  if refused : bool then
    ret (PyStr u, flash request ERROR
                    ("User " +:+ pretty user.(user_id) +:+ " not a moderator"))
  else
    do d <- get_db;
    if negb (authorize_post_edit user post d) then
      ret (PyStr u, flash request ERROR
                      ("User " +:+ pretty user.(user_id)
                       +:+ " may not moderate post " +:+ pretty post.(post_id)))
    else
      if bool_decide (st = POST_DELETED) && bool_decide (no_orphans post d)
         && bool_decide (user.(user_id) = post.(author))
      then
        run Votes_delete (filter (λ v, v.(vote_post) = post.(post_id)) d.(votes));
        run Post_delete post;
        ret (PyStr "/", [])
      else
        do post <- Post_save (set_status st post);
        let text := post_moderator_action user post in
        do u2 <- get_absolute_url post;
        run send_note user.(user_id) post.(author) text NOTE_MODERATOR true None
            true u2;
        ret (PyStr u, flash request INFO
                        ("Post status set to " +:+ get_status_display post.(status))).

(** ** Tags *)

Definition Tag_update (t : Tag) : M unit :=
  modify (with_tags <[t.(tag_id) := t]>).

Definition tag_row (pk : nat) (d : DB) : option Tag :=
  (λ t, mkTag pk t.(tag_name) t.(tag_count)) <$> d.(tags) !! pk.

(** [Tag.objects.get(pk=pk)] *)
Definition get_tag (pk : nat) : M Tag := λ d, lift_opt (tag_row pk d) d.

(** [tag_created], the post-save receiver of [Tag].  It disconnects itself
    around the inner save, which therefore only writes the row. *)
Definition tag_created (inst : Tag) (created : bool) : M unit :=
  if created && negb (bool_decide (inst.(tag_count) = 0))
  then Tag_update (set_tag_count 0 inst)
  else ret tt.

(** The creation of a [Tag] row with the given name and count. *)
Definition Tag_create (name : string) (count : Z) : M nat :=
  do d <- get_db;
  let t := mkTag (new_tag_pk d) name count in
  run Tag_update t;
  run tag_created t true;
  ret t.(tag_id).

(** [instance.tag_set.all()] *)
Definition tags_of_post (pk : nat) (d : DB) : list Tag :=
  omap (λ r : nat * nat, if bool_decide (r.1 = pk) then tag_row r.2 d else None)
    d.(tag_set).

(** [tags_changed], the receiver of [m2m_changed] on [Post.tag_set]. *)
Definition tags_changed (instance : nat) (action : string)
    (pk_set : option (list nat)) : M unit :=
  run when (bool_decide (action = "post_add"))
      (do pks <- lift_opt pk_set;
       for_each pks (λ pk,
         do tag <- get_tag pk;
         Tag_update (set_tag_count (tag.(tag_count) + 1) tag)));
  run when (bool_decide (action = "post_delete"))
      (do pks <- lift_opt pk_set;
       for_each pks (λ pk,
         do tag <- get_tag pk;
         Tag_update (set_tag_count (tag.(tag_count) - 1) tag)));
  when (bool_decide (action = "pre_clear"))
      (do d <- get_db;
       for_each (tags_of_post instance d) (λ tag,
         Tag_update (set_tag_count (tag.(tag_count) - 1) tag))).

(** The related manager of [Post.tag_set], which sends [m2m_changed] with
    the actions [pre_add]/[post_add], [pre_remove]/[post_remove] and
    [pre_clear]/[post_clear].  [add] stores and reports only the tags that
    are not associated yet. *)
Definition tag_set_add (post : nat) (tag_pks : list nat) : M unit :=
  do d <- get_db;
  let new_ids := remove_dups (filter (λ t, (post, t) ∉ d.(tag_set)) tag_pks) in
  run tags_changed post "pre_add" (Some new_ids);
  run modify (with_tag_set (λ l, l ++ ((λ t, (post, t)) <$> new_ids)));
  tags_changed post "post_add" (Some new_ids).

Definition tag_set_remove (post : nat) (tag_pks : list nat) : M unit :=
  run tags_changed post "pre_remove" (Some tag_pks);
  run modify (with_tag_set (filter (λ r, ¬ (r.1 = post ∧ r.2 ∈ tag_pks))));
  tags_changed post "post_remove" (Some tag_pks).

Definition tag_set_clear (post : nat) : M unit :=
  run tags_changed post "pre_clear" None;
  run modify (with_tag_set (filter (λ r, r.1 ≠ post)));
  tags_changed post "post_clear" None.

(** The number of posts associated with a tag. *)
Definition posts_tagged (tag : nat) (d : DB) : Z :=
  Z.of_nat (length (filter (λ r : nat * nat, r.2 = tag) d.(tag_set))).

End Models.

(** * The rest of the module: labels, queries, tags from the tag string *)

(** ** More collaborators

    [html.safe_tag] and the [split()] of [unicode], called by
    [Post.get_tag_names]. *)

Class TagText := {
  safe_tag : string → string;
  py_split : string → list string;
}.

(** The attributes [decorate_posts] sets on a post. *)
Record Decor := mkDecor {
  writeable : bool;
  upvoted : bool;
  downvoted : bool;
  bookmarked : bool;
}.

Section MoreModels.
Context `{Const} `{Collab}.

(** ** UserProfile *)

Definition is_moderator (u : UserProfile) : bool :=
  bool_decide (u.(prof_type) = USER_MODERATOR).

Definition is_admin (u : UserProfile) : bool :=
  bool_decide (u.(prof_type) = USER_ADMIN).

Definition suspended (u : UserProfile) : bool :=
  bool_decide (u.(prof_status) = USER_SUSPENDED).

(** [UserProfile.get_status] *)
Definition profile_get_status (u : UserProfile) : string :=
  if suspended u then "suspended" else "".

(** [UserProfile.note_count]: the notes for the user, and the unread ones
    among them. *)
Definition note_count (uid : nat) (d : DB) : nat * nat :=
  (length (filter (λ n, n.(note_target) = uid) d.(notes)),
   length (filter (λ n, n.(note_target) = uid ∧ n.(note_unread) = true) d.(notes))).

(** [Note.status] *)
Definition note_status (n : Note) : string :=
  if n.(note_unread) then "unread" else "old".

(** ** Post: status and labels *)

Definition closed (p : Post) : bool := bool_decide (p.(status) = POST_CLOSED).
Definition is_open (p : Post) : bool := bool_decide (p.(status) = POST_OPEN).
Definition deleted (p : Post) : bool := bool_decide (p.(status) = POST_DELETED).

Definition get_title (p : Post) : string :=
  if deleted p then p.(title) +:+ " [deleted ]"
  else if closed p then p.(title) +:+ " [closed]"
  else p.(title).

Definition get_status (p : Post) : string :=
  if deleted p then "deleted"
  else if closed p then "closed"
  else "".

(** [elif self.answer_count:] is the test that the count is not 0. *)
Definition get_label (p : Post) : string :=
  if bool_decide (p.(answer_count) = 0) then "unanswered"
  else if p.(accepted) then "accepted"
  else if bool_decide (p.(answer_count) ≠ 0) then "answered"
  else "open".

(** [Post.comments]:
    [Post.objects.filter(parent=self, type=POST_COMMENT)] *)
Definition comments (p : Post) (d : DB) : list Post :=
  filter (λ q : Post, q.(parent) = Some p.(post_id) ∧ q.(type) = POST_COMMENT)
    (all_posts d).

(** ** Queries by tag *)

Definition is_sign (c : Ascii.ascii) : bool :=
  bool_decide (String c EmptyString = "+")
  || bool_decide (String c EmptyString = "-").

(** [re.split("(\+|-)", text)]: the pieces of the text between the signs,
    and, the pattern being a group, the signs themselves between them.
    [cur] is the piece read so far. *)
Fixpoint re_split (cur text : string) : list string :=
  match text with
  | EmptyString => [cur]
  | String c rest =>
      if is_sign c then cur :: String c EmptyString :: re_split "" rest
      else re_split (cur +:+ String c EmptyString) rest
  end.

(** The loop over the pieces.  [active] is one of the two lists [include]
    and [exclude]; [excluding] tells which. *)
Fixpoint collect_tags (pieces : list string) (excluding : bool)
    (include exclude : list string) : list string * list string :=
  match pieces with
  | [] => (include, exclude)
  | tag :: rest =>
      if bool_decide (tag = "-") then collect_tags rest true include exclude
      else if bool_decide (tag = "+") then collect_tags rest false include exclude
      else if bool_decide (tag ≠ "") then
        if excluding then collect_tags rest true include (exclude ++ [tag])
        else collect_tags rest false (include ++ [tag]) exclude
      else collect_tags rest excluding include exclude
  end.

(** The lists [include] and [exclude] of [query_by_tags]. *)
Definition parse_tags (text : string) : list string * list string :=
  collect_tags (re_split "" text) false [] [].

(** The manager [Post.open_posts]. *)
Definition open_posts (d : DB) : list Post :=
  filter (λ p : Post, p.(status) = POST_OPEN ∨ p.(status) = POST_CLOSED)
    (all_posts d).

(** [get_post_manager]; the user is [None] when there is none or it is the
    anonymous user, and the key of an authenticated user otherwise. *)
Definition get_post_manager (user : option nat) : M (list Post) :=
  match user with
  | Some uid =>
      do pr <- get_profile uid;
      do d <- get_db;
      ret (if can_moderate pr then all_posts d else open_posts d)
  | None => do d <- get_db; ret (open_posts d)
  end.

(** [tag_set__name__in=names]: a tag of the post has one of the names. *)
Definition tagged_in (names : list string) (d : DB) (p : Post) : Prop :=
  Exists (λ t : Tag, t.(tag_name) ∈ names) (tags_of_post p.(post_id) d).

Global Instance tagged_in_dec names d p : Decision (tagged_in names d p).
Proof. unfold tagged_in. apply _. Defined.

(** [order_by('-rank')]: the greater rank first. *)
Definition by_rank (p q : Post) : Prop := q.(rank) ≤ p.(rank).

Global Instance by_rank_dec p q : Decision (by_rank p q).
Proof. unfold by_rank. apply _. Defined.

(** [query_by_tags].  The rows of the result are those of the manager's
    that pass the filter and the exclusion, each once. *)
Definition query_by_tags (user : option nat) (text : string) : M (list Post) :=
  do posts <- get_post_manager user;
  do d <- get_db;
  let '(include, exclude) := parse_tags text in
  let chosen :=
    if bool_decide (include ≠ [])
    then filter (λ p, top_level p = true ∧ tagged_in include d p) posts
    else filter (λ p, top_level p = true) posts in
  ret (merge_sort by_rank (filter (λ p, ¬ tagged_in exclude d p) chosen)).

(** ** Decorating posts for a user *)

(** [decorate_posts]; the user is [None] when not authenticated.  A post
    of the result carries the attributes when they have been set. *)
Definition decorate_posts (posts : list Post) (user : option User)
    : M (list (Post * option Decor)) :=
  match user with
  | None => ret ((λ p, (p, None)) <$> posts)
  | Some u =>
      do d <- get_db;
      let pids := post_id <$> posts in
      let votes := filter (λ v, v.(vote_author) = u.(user_id)
                                ∧ v.(vote_post) ∈ pids) d.(votes) in
      let ids_of ty := vote_post <$> filter (λ v, v.(vote_type) = ty) votes in
      ret ((λ p, (p, Some (mkDecor (authorize_post_edit u p d)
                             (bool_decide (p.(post_id) ∈ ids_of VOTE_UP))
                             (bool_decide (p.(post_id) ∈ ids_of VOTE_DOWN))
                             (bool_decide (p.(post_id) ∈ ids_of VOTE_BOOKMARK)))))
             <$> posts)
  end.

(** ** Tags from the tag string *)

Context `{TagText}.

(** [Post.get_tag_names] *)
Definition get_tag_names (p : Post) : list string :=
  safe_tag <$> filter (λ n, n ≠ "") (py_split p.(tag_val)).

(** The keys of the tags with the given name. *)
Definition tags_named (name : string) (d : DB) : list nat :=
  fst <$> filter (λ kt : nat * Tag, kt.2.(tag_name) = name) (map_to_list d.(tags)).

(** [Tag.objects.get_or_create(name=name)[0]]: the tag of that name; a new
    one, with the default count, when there is none; and
    [MultipleObjectsReturned] when there are several. *)
Definition Tag_get_or_create (name : string) : M nat :=
  do d <- get_db;
  match tags_named name d with
  | [] => Tag_create name 0
  | [pk] => ret pk
  | _ => raise
  end.

(** [[f(x) for x in xs]] *)
Fixpoint map_M {A B} (f : A → M B) (xs : list A) : M (list B) :=
  match xs with
  | [] => ret []
  | x :: xs' => do y <- f x; do ys <- map_M f xs'; ret (y :: ys)
  end.

(** [Post.set_tags] *)
Definition set_tags (p : Post) : M unit :=
  if bool_decide (p.(type) ∈ POST_CONTENT_ONLY) then ret tt
  else
    run tag_set_clear p.(post_id);
    do tags <- map_M Tag_get_or_create (get_tag_names p);
    run tag_set_add p.(post_id) tags;
    do _ <- Post_save p;
    ret tt.

End MoreModels.

(** * Relations between the states before and after a call *)

(** [preserves R m]: whenever [m] returns, the states before and after are
    related by [R]. *)
Definition preserves {A} (R : relation DB) (m : M A) : Prop :=
  ∀ d a d', m d = Some (a, d') → R d d'.

(** The part [proj] of the state is the same. *)
Definition same {X} (proj : DB → X) : relation DB := λ d d', proj d' = proj d.

Global Instance same_preorder {X} (proj : DB → X) : PreOrder (same proj).
Proof. split; unfold same; [intros ?; done | intros ??? -> ->; done]. Qed.


(** * Conditions under which a save goes through *)

Section Conditions.
Context `{Const} `{Collab}.

(** The foreign key is set and its row is stored. *)
Definition fk_stored (fk : option nat) (d : DB) : Prop :=
  ∃ k, fk = Some k ∧ is_Some (d.(posts) !! k).

(** The assertion of [verify_post] holds: a post that is not top-level has
    its root and its parent. *)
Definition saveable (p : Post) (d : DB) : Prop :=
  top_level p = true ∨ (fk_stored p.(root) d ∧ fk_stored p.(parent) d).

(** The step of [latest_revision], for the induction below. *)
Definition later (pk : nat) (best : option PostRevision) (r : PostRevision) :=
  if bool_decide (r.(rev_post) = pk) then
    match best with
    | Some b => if bool_decide (b.(rev_date) < r.(rev_date)) then Some r else best
    | None => Some r
    end
  else best.

(** The content [create_revision] compares with. *)
Definition prior_content (pk : nat) (d : DB) : string :=
  match latest_revision pk d with
  | Some r => r.(rev_content)
  | None => ""
  end.

(** The post at the root of the thread of [post]: [post.root or post]. *)
Definition thread_root (post : Post) (d : DB) : option Post :=
  match post.(root) with
  | Some pk => post_row pk d
  | None => Some post
  end.

(** ** The rows [post_score_change] writes *)

(** Whether [post == root] holds for the object [rt] that [post.root]
    evaluates to. *)
Definition same_as_root (post : Post) (rt : option Post) : bool :=
  match rt with
  | Some r => bool_decide (post.(post_id) = r.(post_id))
  | None => false
  end.

(** The ranks on which the additions of [post_score_change] are exact.
    The column is a binary64 float, and [post.rank += amount * gain] is a
    float addition.  A float holds every whole number from -2^53 to 2^53,
    and the sum of two floats is the float nearest to their sum; so as long
    as the rank is a whole number and both it and the rank one vote higher
    lie in that range, adding 3600 and subtracting it again give the whole
    numbers that integer arithmetic gives.  Outside (a rank with a
    fraction, or a greater one) the float sum is rounded, and the integer
    field of [Post] does not describe the column. *)
Definition exact_rank (r : Z) : Prop := - 2 ^ 53 ≤ r ∧ r + 3600 ≤ 2 ^ 53.

(** The post is the root of its own thread. *)
Definition own_root (post : Post) : bool :=
  bool_decide (post.(root) = Some post.(post_id)).

(** The post as [post_score_change] saves it: rank, score and, for a root,
    full score are moved, then [verify_post] runs. *)
Definition scored (amount hours : Z) (is_root : bool) (post : Post) : Post :=
  let post := set_rank (post.(rank) + amount * (3600 * hours)) post in
  let post := set_score (post.(score) + amount) post in
  verified (if is_root then set_full_score (post.(full_score) + amount) post
            else post).

(** The root as [post_score_change] saves it, [post] being the post after
    its own save. *)
Definition root_scored (amount : Z) (post r : Post) : Post :=
  let r := set_full_score (r.(full_score) + amount) r in
  verified (if bool_decide (r.(rank) < post.(rank)) then set_rank post.(rank) r
            else r).

(** ** Tag counts and the association table *)

(** No association is stored twice, and every association is to a stored
    tag. *)
Definition tag_set_wf (d : DB) : Prop :=
  NoDup d.(tag_set) ∧ ∀ r, r ∈ d.(tag_set) → is_Some (d.(tags) !! r.2).

(** The count of every tag is the number of posts that carry it. *)
Definition counts_match (d : DB) : Prop :=
  ∀ t row, d.(tags) !! t = Some row → row.(tag_count) = posts_tagged t d.

(** ** The checks of [post_moderate] *)

(** The first check fails: the post is to be opened and the profile of the
    actor is neither a moderator's nor an administrator's. *)
Definition capability_fails (user : User) (st : Z) (d : DB) : Prop :=
  st = POST_OPEN
  ∧ ∃ pr, d.(profiles) !! user.(user_id) = Some pr ∧ can_moderate pr = false.

(** The first check passes. *)
Definition capability_passes (user : User) (st : Z) (d : DB) : Prop :=
  st ≠ POST_OPEN
  ∨ ∃ pr, d.(profiles) !! user.(user_id) = Some pr ∧ can_moderate pr = true.

(** Both checks pass. *)
Definition authorized (user : User) (post : Post) (st : Z) (d : DB) : Prop :=
  capability_passes user st d ∧ authorize_post_edit user post d = true.

(** The condition of the deletion without a trace. *)
Definition deletes_without_trace (user : User) (post : Post) (st : Z) (d : DB)
    : Prop :=
  st = POST_DELETED ∧ no_orphans post d ∧ user.(user_id) = post.(author).

(** No row is stored under the key. *)
Definition absent (pk : nat) : relation DB :=
  λ d d', d.(posts) !! pk = None → d'.(posts) !! pk = None.

End Conditions.

Global Instance absent_preorder pk : PreOrder (absent pk).
Proof. split; unfold absent; [intros ?; done | intros ??? H1 H2 ?; auto]. Qed.
(** * More relations between states *)

(** The names of the stored tags are the same. *)
Definition same_names : relation DB :=
  λ d d', ∀ t, tag_name <$> d'.(tags) !! t = tag_name <$> d.(tags) !! t.

Global Instance same_names_preorder : PreOrder same_names.
Proof.
  split; unfold same_names; [intros ?; done | intros ??? H1 H2 t].
  by rewrite H2, H1.
Qed.

(** The tags [d'] has and [d] has not: they are in [new], they have count
    0, and their names are among [names] and are names no tag of [d] has. *)
Definition grown (d d' : DB) (new : list nat) (names : list string) : Prop :=
  d.(tags) ⊆ d'.(tags)
  ∧ d'.(tag_set) = d.(tag_set) ∧ d'.(posts) = d.(posts)
  ∧ ∀ t row, d'.(tags) !! t = Some row → d.(tags) !! t = None →
      t ∈ new ∧ row.(tag_name) ∈ names ∧ row.(tag_count) = 0
      ∧ ∀ t0 row0, d.(tags) !! t0 = Some row0 → row0.(tag_name) ≠ row.(tag_name).

Section MoreStates.
Context `{Const} `{Collab}.

(** The tallies of a profile after an award of a badge of type [ty] has been
    applied with direction [dir]. *)
Definition tallied (ty dir : Z) (pr : UserProfile) : UserProfile :=
  set_badges
    (if bool_decide (ty = BADGE_BRONZE) then pr.(bronze_badges) + dir
     else pr.(bronze_badges))
    (if bool_decide (ty = BADGE_SILVER) then pr.(silver_badges) + dir
     else pr.(silver_badges))
    (if bool_decide (ty = BADGE_GOLD) then pr.(gold_badges) + dir
     else pr.(gold_badges)) pr.

End MoreStates.

(** The row under [pk] satisfies [P], and goes on doing so. *)
Definition keeps (pk : nat) (P : Post → Prop) : relation DB :=
  λ d d', (∃ row, d.(posts) !! pk = Some row ∧ P row) →
          (∃ row, d'.(posts) !! pk = Some row ∧ P row).

Global Instance keeps_preorder pk P : PreOrder (keeps pk P).
Proof. split; unfold keeps; [intros ?; done | intros ??? H1 H2 ?; auto]. Qed.

Section MoreConditions.
Context `{Const} `{Collab}.

(** The place of a post in its thread, and what it says. *)
Definition links (p : Post) : option nat * option nat * string * Z * nat * string :=
  (p.(root), p.(parent), p.(title), p.(type), p.(author), p.(content)).

(** A row as a save leaves it, with the given links. *)
Definition settled (l : option nat * option nat * string * Z * nat * string)
    (row : Post) : Prop :=
  links row = l ∧ verified row = row.

(** The counters of a parent after a reply of type [ty] has been applied
    with direction [dir]. *)
Definition counted (ty dir : Z) (pa : Post) : Post :=
  let pa := if bool_decide (ty = POST_ANSWER)
            then verified (set_answer_count (pa.(answer_count) + dir) pa) else pa in
  if bool_decide (ty = POST_COMMENT)
  then verified (set_comment_count (pa.(comment_count) + dir) pa) else pa.

(** The steps of [finalize_post] that follow the defaults. *)
Definition announced (inst : Post) (raw : bool) : M unit :=
  when (negb (bool_decide (inst.(content) = "")) && negb raw)
    (run post_create_notification inst;
     run when (bool_decide (inst.(type) ≠ POST_COMMENT))
         (create_revision_with Post_update inst);
     when CONTENT_INDEXING (ret tt)).

End MoreConditions.

Section VoteDefs.
Context `{Const} `{Collab}.

(** The votes [insert_vote] deletes before it stores a new vote: those of
    the opposing type, when there is one and its code passes the test
    [if opposing:]. *)
Definition opposing_votes (post : Post) (user : nat) (ty : Z) (d : DB) : list Vote :=
  match OPPOSING_VOTES ty with
  | Some opp => if bool_decide (opp ≠ 0) then votes_of post.(post_id) user opp d
                else []
  | None => []
  end.

End VoteDefs.

(** The number of unread notes for a user. *)
Definition unread_for (uid : nat) (d : DB) : Z := Z.of_nat (note_count uid d).2.

(** The counter of every profile is the number of unread notes for its
    user. *)
Definition inbox_in_sync (d : DB) : Prop :=
  ∀ u pr, d.(profiles) !! u = Some pr → pr.(new_messages) = unread_for u d.

(** A state in which the counters are right is followed by one in which
    they are. *)
Definition sync_kept : relation DB := λ d d', inbox_in_sync d → inbox_in_sync d'.

Global Instance sync_kept_preorder : PreOrder sync_kept.
Proof. split; unfold sync_kept; [intros ?; done | intros ??? H1 H2 ?; auto]. Qed.

(** [order_by('-rank')] is an order in which any two posts compare. *)
Global Instance by_rank_total : Total by_rank.
Proof. intros p q. unfold by_rank. lia. Qed.

Global Instance by_rank_trans : Transitive by_rank.
Proof. intros p q r. unfold by_rank. lia. Qed.

(** No character of the string is a sign. *)
Fixpoint no_sign (s : string) : bool :=
  match s with
  | EmptyString => true
  | String c rest => negb (is_sign c) && no_sign rest
  end.

(** A word joins the list the last sign selected, unless it is empty. *)
Definition filed (excluding : bool) (w : string)
    (lists : list string * list string) : list string * list string :=
  if bool_decide (w = "") then lists
  else if excluding then (lists.1, w :: lists.2)
  else (w :: lists.1, lists.2).

Section QueryDefs.
Context `{Const} `{Collab}.

(** Whether [get_post_manager] gives the user all posts. *)
Definition sees_all (user : option nat) (d : DB) : bool :=
  match user with
  | Some uid => match d.(profiles) !! uid with
                | Some pr => can_moderate pr
                | None => false
                end
  | None => false
  end.

End QueryDefs.


(** * A small forum, for the examples

    One choice of constants and collaborators, and the states of a forum in
    which user 1 asks a question, user 2 answers it and user 3 votes. *)

Definition demo_const : Const.
Proof.
  refine {|
    POST_ANSWER := 2; POST_COMMENT := 3;
    POST_TOPLEVEL := [1; 4]; POST_CONTENT_ONLY := [2; 3];
    POST_OPEN := 100; POST_CLOSED := 200; POST_DELETED := 300;
    VOTE_UP := 1; VOTE_DOWN := 2; VOTE_ACCEPT := 3; VOTE_BOOKMARK := 4;
    OPPOSING_VOTES := λ t, if bool_decide (t = 1) then Some 2
                           else if bool_decide (t = 2) then Some 1 else None;
    NOTE_USER := 1; NOTE_MODERATOR := 2;
    USER_MODERATOR := 1; USER_ADMIN := 2; USER_SUSPENDED := 1;
    BADGE_BRONZE := 1; BADGE_SILVER := 2; BADGE_GOLD := 3 |};
  compute_done.
Defined.

Definition demo_collab : Collab := {|
  html_generate := id; py_strip := id; slugify := id;
  get_type_display := λ t, if bool_decide (t = 1) then "Question"
                           else if bool_decide (t = 2) then "Answer"
                           else "Comment";
  get_status_display := λ _, "status";
  get_profile_status_display := λ _, "status";
  get_vote_type_display := λ _, "vote";
  mktime := id; now := 1000000; CONTENT_INDEXING := false;
  authorize_post_edit := λ u p _,
    bool_decide (u.(user_id) = p.(author)) || u.(user_can_moderate);
  authorize_user_edit := λ u _ _, u.(user_can_moderate);
  user_moderator_action := λ _ _, "user moderated";
  post_moderator_action := λ _ _, "post moderated";
  post_action := λ _ _, "post created";
  splitlines := λ s, [s];
  unified_diff := λ a b, a ++ b |}.

Section Demo.
#[local] Existing Instance demo_const.
#[local] Existing Instance demo_collab.

Definition demo_profile (u : nat) (ty : Z) : UserProfile :=
  mkProfile u ty 0 0 0 0 0 0 "" "".

(** Users 1, 2 and 3; user 9 is a moderator. *)
Definition demo_users : DB :=
  mkDB ∅ (<[1%nat := demo_profile 1 0]> (<[2%nat := demo_profile 2 0]>
            (<[3%nat := demo_profile 3 0]> (<[9%nat := demo_profile 9 1]> ∅))))
    [] [] [] ∅ [] (<[0%nat := mkBadge 0 1 0]> ∅) [] [] [].

Definition demo_post (a : nat) (ty : Z) (ti co : string) (rt pa : option nat)
    (rk : Z) : Post :=
  mkPost 0 a co "" ti "" "" 0 0 0 None None None 100 ty rt pa 0 0 0 false "" rk.

Definition demo_question : Post := demo_post 1 1 "Q" "how?" None None 0.
Definition demo_answer : Post := demo_post 2 2 "" "so" (Some 0%nat) (Some 0%nat) 0.

(** After the question (post 0), and after the answer to it (post 1). *)
Definition demo_asked : DB := committed (Post_create false demo_question) demo_users.
Definition demo_answered : DB := committed (Post_create false demo_answer) demo_asked.

(** The stored question and answer, as objects. *)
Definition demo_q : Post := default demo_question (post_row 0 demo_answered).
Definition demo_a : Post := default demo_answer (post_row 1 demo_answered).

(** User 3 votes the answer up; then again, which takes the vote back. *)
Definition demo_voted : DB := committed (insert_vote demo_a 3 VOTE_UP) demo_answered.


(** A question whose rank is one vote below zero. *)
Definition demo_low_question : Post := demo_post 1 1 "Q" "how?" None None (-3600).
Definition demo_low : DB := committed (Post_create false demo_low_question) demo_users.
Definition demo_low_q : Post := default demo_low_question (post_row 0 demo_low).

(** A thread from before the epoch: the question is created at time -100
    with rank -3600, an answer to it with rank -7200, and the question is
    then viewed once, which brings its stored rank to 0. *)
Definition demo_old_question : Post :=
  mkPost 0 1 "how?" "" "Q" "" "" 0 0 0 (Some (-100)) None None 100 1 None None
    0 0 0 false "" (-3600).
Definition demo_old_reply : Post :=
  mkPost 0 2 "so" "" "" "" "" 0 0 0 (Some (-50)) None None 100 2 (Some 0%nat)
    (Some 0%nat) 0 0 0 false "" (-7200).
Definition demo_old_asked : DB :=
  committed (Post_create false demo_old_question) demo_users.
Definition demo_old_answered : DB :=
  committed (Post_create false demo_old_reply) demo_old_asked.
Definition demo_old_thread : DB :=
  committed (do q <- get_post 0; update_post_views q false [] 3600)
    demo_old_answered.
Definition demo_old_answer : Post := default demo_answer (post_row 1 demo_old_thread).

(** A tag created with a count of 5, attached to the question, and removed
    from it again. *)
Definition demo_tag_created : DB := committed (Tag_create "rocq" 5) demo_answered.
Definition demo_tagged : DB := committed (tag_set_add 0 [0%nat]) demo_tag_created.
Definition demo_untagged : DB := committed (tag_set_remove 0 [0%nat]) demo_tagged.

(** The question with its title changed, not saved yet. *)
Definition demo_q_edited : Post :=
  set_defaults demo_q.(root) demo_q.(parent) "Q, again" "Q, again" demo_q.

(** The answer as stored once it has been voted up. *)
Definition demo_a_voted : Post := default demo_answer (post_row 1 demo_voted).

Definition demo_author : User := mkUser 2 false "/user/2/".
Definition demo_asker : User := mkUser 1 false "/user/1/".
Definition demo_visitor : User := mkUser 3 false "/user/3/".
Definition demo_moderator : User := mkUser 9 true "/user/9/".

(** The author of the answer deletes it. *)
Definition demo_deleted : DB :=
  committed (post_moderate false demo_a_voted demo_author POST_DELETED) demo_voted.

(** A moderator closes the question. *)
Definition demo_closed : DB :=
  committed (post_moderate true demo_q demo_moderator POST_CLOSED) demo_answered.

End Demo.

(** * The claims that do not hold as they are worded *)

Section Worded.
Context `{Const} `{Collab}.


(** A user with no vote on a stored post votes it up twice; afterwards the score
    and the rank of the post and the reputation of its author are what they
    were. *)
Definition toggle_restores (post : Post) (user : nat) (d : DB) : Prop :=
  ∀ r1 d1 r2 d2,
    post_row post.(post_id) d = Some post →
    (∀ v, v ∈ d.(votes) →
          ¬ (v.(vote_post) = post.(post_id) ∧ v.(vote_author) = user)) →
    insert_vote post user VOTE_UP d = Some (r1, d1) →
    insert_vote post user VOTE_UP d1 = Some (r2, d2) →
    ∃ row, d2.(posts) !! post.(post_id) = Some row
      ∧ row.(score) = post.(score)
      ∧ row.(rank) = post.(rank)
      ∧ prof_score <$> d2.(profiles) !! post.(author)
        = prof_score <$> d.(profiles) !! post.(author).

(** [post_score_change] on a post that is not the root of its thread never
    leaves the rank of the root lower than it was. *)
Definition root_rank_never_lowered (post : Post) (amount : Z) (d : DB) : Prop :=
  ∀ rid r0 res d' r1,
    post.(root) = Some rid →
    rid ≠ post.(post_id) →
    post_row rid d = Some r0 →
    post_score_change post amount d = Some (res, d') →
    post_row rid d' = Some r1 →
    r0.(rank) ≤ r1.(rank).

(** A call of [post_moderate] that fails the authorization check returns a
    pair of [False] and a message, and leaves the state as it was. *)
Definition refusal_is_pair (request : bool) (post : Post) (user : User) (st : Z)
    (d : DB) : Prop :=
  authorize_post_edit user post d = false →
  ∃ msg msgs,
    post_moderate request post user st d = Some ((PyPair false msg, msgs), d).

End Worded.
(** * More of the small forum *)

(** [unicode.split()] on the texts of the examples, which have no white
    space but spaces: the words between the spaces. *)
Fixpoint words_from (cur s : string) : list string :=
  match s with
  | EmptyString => if bool_decide (cur = "") then [] else [cur]
  | String c rest =>
      if bool_decide (String c EmptyString = " ")
      then (if bool_decide (cur = "") then [] else [cur]) ++ words_from "" rest
      else words_from (cur +:+ String c EmptyString) rest
  end.

Definition demo_tagtext : TagText := {|
  safe_tag := id;
  py_split := words_from "";
|}.

Section MoreDemo.
#[local] Existing Instance demo_const.
#[local] Existing Instance demo_collab.
#[local] Existing Instance demo_tagtext.

(** The question with a tag string, and the forum after [set_tags] on it,
    from the state in which it carries the tag [rocq]. *)
Definition demo_q_tags : Post :=
  mkPost 0 1 demo_q.(content) demo_q.(html) demo_q.(title) demo_q.(slug)
    "rocq proofs" demo_q.(views) demo_q.(score) demo_q.(full_score)
    demo_q.(creation_date) demo_q.(lastedit_date) demo_q.(lastedit_user)
    demo_q.(status) demo_q.(type) demo_q.(root) demo_q.(parent)
    demo_q.(comment_count) demo_q.(revision_count) demo_q.(answer_count)
    demo_q.(accepted) demo_q.(url) demo_q.(rank).
Definition demo_retagged : DB := committed (set_tags demo_q_tags) demo_tagged.

(** The badge of the small forum, awarded to user 1 and taken back. *)
Definition demo_awarded : DB := committed (Award_create false 0 1 None) demo_users.
Definition demo_award : Award := mkAward 1 0 1 (Some now).

(** A comment of user 3 on the answer. *)
Definition demo_comment : Post :=
  demo_post 3 3 "" "indeed" (Some 0%nat) (Some 1%nat) 0.
Definition demo_commented : DB := committed (Post_create false demo_comment) demo_answered.

(** An answer with no parent. *)
Definition demo_orphan : Post := demo_post 2 2 "" "so" (Some 0%nat) None 0.

Definition demo_bookmark : Vote := mkVote 7 3 1 VOTE_BOOKMARK.
Definition demo_accept : Vote := mkVote 7 1 1 VOTE_ACCEPT.

(** User 3, who has voted the answer up, votes it down. *)
Definition demo_revoted : DB := committed (insert_vote demo_a_voted 3 VOTE_DOWN) demo_voted.

(** What [insert_vote] returns when user 3 takes the up-vote back, and when
    user 3 votes down instead. *)
Definition demo_taken_back : Vote * string := (mkVote 1 3 1 VOTE_UP, "vote removed").
Definition demo_cast_down : Vote * string := (mkVote 1 3 1 VOTE_DOWN, "vote added").

(** The moderator sends user 2 a note, with a copy for the moderator. *)
Definition demo_noted : DB :=
  committed (send_note 9 2 "hello" NOTE_MODERATOR true None true "/user/9/")
    demo_answered.

(** The moderator suspends user 2. *)
Definition demo_suspended : DB :=
  committed (user_moderate demo_moderator demo_author 1) demo_answered.

(** The question after a revision of its changed title. *)
Definition demo_revised : DB := committed (create_revision demo_q_edited) demo_answered.

(** The forum with the question tagged [rocq], as user 3 sees it. *)
Definition demo_listing : list Post :=
  match query_by_tags (Some 3%nat) "rocq-coq" demo_tagged with
  | Some (res, _) => res
  | None => []
  end.

End MoreDemo.

(** The same collaborators a minute later: the clock reads 1000060.  The
    states above were written while it read 1000000, so their revisions
    carry that earlier date. *)
Definition demo_later : Collab := {|
  html_generate := @html_generate demo_collab;
  py_strip := @py_strip demo_collab;
  slugify := @slugify demo_collab;
  get_type_display := @get_type_display demo_collab;
  get_status_display := @get_status_display demo_collab;
  get_profile_status_display := @get_profile_status_display demo_collab;
  get_vote_type_display := @get_vote_type_display demo_collab;
  mktime := @mktime demo_collab;
  now := 1000060;
  CONTENT_INDEXING := @CONTENT_INDEXING demo_collab;
  authorize_post_edit := @authorize_post_edit demo_collab;
  authorize_user_edit := @authorize_user_edit demo_collab;
  user_moderator_action := @user_moderator_action demo_collab;
  post_moderator_action := @post_moderator_action demo_collab;
  post_action := @post_action demo_collab;
  splitlines := @splitlines demo_collab;
  unified_diff := @unified_diff demo_collab |}.

Section LaterDemo.
#[local] Existing Instance demo_const.
#[local] Existing Instance demo_later.

(** The question, asked at 1000000, after a revision of its changed title
    at 1000060. *)
Definition demo_revised_later : DB :=
  committed (create_revision demo_q_edited) demo_answered.

End LaterDemo.

(** * Reasoning about computations *)

Lemma bind_Some {A B} (m : M A) (k : A → M B) d b d' :
  bind m k d = Some (b, d') ↔ ∃ a d1, m d = Some (a, d1) ∧ k a d1 = Some (b, d').
Proof.
  unfold bind. split.
  - destruct (m d) as [[a d1]|]; [eauto | discriminate].
  - intros (a & d1 & -> & Hk). exact Hk.
Qed.

Lemma lift_opt_Some {A} (o : option A) d a d' :
  lift_opt o d = Some (a, d') ↔ o = Some a ∧ d' = d.
Proof.
  unfold lift_opt. destruct o; split.
  - by intros [= -> ->].
  - by intros [[= ->] ->].
  - discriminate.
  - by intros [? _].
Qed.

Lemma when_Some b (m : M unit) d u d' :
  when b m d = Some (u, d') ↔ (b = true ∧ m d = Some (u, d')) ∨ (b = false ∧ d' = d).
Proof.
  destruct b, u; unfold when, ret; split.
  - by left.
  - by intros [[_ ?]|[? _]].
  - intros [= ->]. by right.
  - intros [[? _]|[_ ->]]; done.
Qed.

(** Takes apart the hypotheses that say a computation returned. *)
Ltac inv_ret :=
  repeat match goal with
  | H : bind _ _ _ = Some _ |- _ =>
      let a := fresh "a" in let d := fresh "d" in let E := fresh "E" in
      apply bind_Some in H as (a & d & E & H)
  | H : lift_opt _ _ = Some _ |- _ => apply lift_opt_Some in H as [H ->]
  | H : ret _ _ = Some _ |- _ => unfold ret in H; simplify_eq
  | H : raise _ = Some _ |- _ => discriminate H
  | H : get_db _ = Some _ |- _ => unfold get_db in H; simplify_eq
  | H : modify _ _ = Some _ |- _ => unfold modify in H; simplify_eq
  | H : Some _ = Some _ |- _ => simplify_eq
  | H : None = Some _ |- _ => discriminate H
  | a : unit |- _ => destruct a
  | a : _ * _ |- _ => destruct a
  end.

Section preserves.
Context (R : relation DB) `{!PreOrder R}.

Lemma preserves_ret {A} (a : A) : preserves R (ret a).
Proof. intros d b d' Hr. inv_ret. reflexivity. Qed.

Lemma preserves_raise {A} : preserves R (@raise A).
Proof. intros d b d' Hr. inv_ret. Qed.

Lemma preserves_get_db : preserves R get_db.
Proof. intros d b d' Hr. inv_ret. reflexivity. Qed.

Lemma preserves_lift_opt {A} (o : option A) : preserves R (lift_opt o).
Proof. intros d b d' Hr. inv_ret. reflexivity. Qed.

Lemma preserves_bind {A B} (m : M A) (k : A → M B) :
  preserves R m → (∀ a, preserves R (k a)) → preserves R (bind m k).
Proof.
  intros Hm Hk d b d' Hr. inv_ret. etrans; [eapply Hm | eapply Hk]; eauto.
Qed.

Lemma preserves_when b (m : M unit) : preserves R m → preserves R (when b m).
Proof. destruct b; [done | intros _; apply preserves_ret]. Qed.

Lemma preserves_for_each {A} (xs : list A) (body : A → M unit) :
  (∀ x, x ∈ xs → preserves R (body x)) → preserves R (for_each xs body).
Proof.
  induction xs as [|x xs IH]; intros Hb; simpl.
  - apply preserves_ret.
  - apply preserves_bind; [apply Hb; left | intros _; apply IH].
    intros y Hy. apply Hb. by right.
Qed.

Lemma preserves_modify (f : DB → DB) : (∀ d, R d (f d)) → preserves R (modify f).
Proof. intros Hf d b d' Hr. inv_ret. apply Hf. Qed.

Lemma preserves_reader {A} (f : DB → option A) :
  preserves R (λ d, lift_opt (f d) d).
Proof. intros d b d' Hr. inv_ret. reflexivity. Qed.

End preserves.

(** Proves [preserves R m] by following the structure of [m]. *)
Ltac preserves_step :=
  match goal with
  | |- preserves _ (bind _ _) => apply preserves_bind; [try apply _ | | intros ?]
  | |- preserves _ (ret _) => apply preserves_ret; apply _
  | |- preserves _ raise => apply preserves_raise
  | |- preserves _ get_db => apply preserves_get_db; apply _
  | |- preserves _ (lift_opt _) => apply preserves_lift_opt; apply _
  | |- preserves _ (when _ _) => apply preserves_when; [try apply _ |]
  | |- preserves _ (for_each _ _) => apply preserves_for_each; [try apply _ | intros ? _]
  | |- preserves _ (modify _) => apply preserves_modify; intros ?; try done
  | |- preserves _ (if ?b then _ else _) => destruct b
  | |- preserves _ (match ?x with _ => _ end) => destruct x
  | |- preserves _ (let '(_, _) := ?x in _) => destruct x
  end.

Ltac solve_preserves := repeat (preserves_step; simpl); eauto with preserves.

Create HintDb preserves discriminated.

(** * What the basic operations do *)

Section Basic.
Context `{Const} `{Collab}.

Lemma get_post_Some pk d p d' :
  get_post pk d = Some (p, d') ↔ post_row pk d = Some p ∧ d' = d.
Proof. apply lift_opt_Some. Qed.

Lemma get_profile_Some uid d pr d' :
  get_profile uid d = Some (pr, d') ↔ d.(profiles) !! uid = Some pr ∧ d' = d.
Proof. apply lift_opt_Some. Qed.

Lemma post_row_id pk d p : post_row pk d = Some p → p.(post_id) = pk.
Proof.
  unfold post_row. destruct (posts d !! pk); simpl; [|done]. by intros [= <-].
Qed.

Lemma post_row_stored pk d p : post_row pk d = Some p → is_Some (d.(posts) !! pk).
Proof. unfold post_row. destruct (posts d !! pk); [eauto | done]. Qed.

Lemma related_post_Some fk d r d' :
  related_post fk d = Some (r, d') →
  d' = d ∧ match fk with
           | Some pk => ∃ p, r = Some p ∧ post_row pk d = Some p
           | None => r = None
           end.
Proof.
  unfold related_post. destruct fk; intros Hr; inv_ret; [|done].
  apply get_post_Some in E as [E ->]. eauto.
Qed.

Lemma verify_post_Some p d p' d' :
  verify_post p d = Some (p', d') → p' = verified p ∧ d' = d.
Proof.
  unfold verify_post. intros Hr. inv_ret.
  destruct (top_level p); inv_ret; [done|].
  repeat match goal with
  | E : related_post _ _ = Some _ |- _ => apply related_post_Some in E as [-> _]
  end.
  case_bool_decide; inv_ret. done.
Qed.

Lemma Post_update_Some p d p' d' :
  Post_update p d = Some (p', d') →
  p' = verified p ∧ d' = with_posts <[p.(post_id) := verified p]> d.
Proof.
  unfold Post_update. intros Hr. inv_ret.
  apply verify_post_Some in E as [-> ->]. done.
Qed.

Lemma related_post_stored fk d :
  fk_stored fk d → ∃ p, related_post fk d = Some (Some p, d).
Proof.
  intros (k & -> & [row Hrow]). exists (set_post_id k row).
  unfold related_post, bind, get_post, post_row, lift_opt, ret. by rewrite Hrow.
Qed.

Lemma verify_post_saveable p d :
  saveable p d → verify_post p d = Some (verified p, d).
Proof.
  unfold verify_post, bind. intros [Ht|[Hr Hp]].
  - by rewrite Ht.
  - destruct (top_level p); [done|].
    destruct (related_post_stored _ _ Hr) as [r ->].
    destruct (related_post_stored _ _ Hp) as [pa ->].
    rewrite bool_decide_true; [done | eauto].
Qed.

Lemma Post_update_saveable p d :
  saveable p d →
  Post_update p d = Some (verified p, with_posts <[p.(post_id) := verified p]> d).
Proof.
  intros Hs. unfold Post_update, bind. by rewrite verify_post_saveable.
Qed.

(** The receivers guarded by [created] do nothing on an update. *)
Lemma apply_instance_not_created apply raw : apply_instance apply false raw = ret tt.
Proof. done. Qed.

Lemma finalize_post_not_created inst raw : finalize_post inst false raw = ret tt.
Proof. done. Qed.

(** [post.save()] on a stored post is the update. *)
Lemma Post_save_stored p d :
  is_Some (d.(posts) !! p.(post_id)) → Post_save p d = Post_update p d.
Proof. intros [row Hrow]. unfold Post_save. by rewrite Hrow. Qed.

Lemma vote_up_not_down : VOTE_UP ≠ VOTE_DOWN.
Proof.
  pose proof vote_types_distinct as Hd.
  apply NoDup_cons in Hd as [Hd _]. intros E. apply Hd. rewrite E. by left.
Qed.

Lemma vote_up_not_accept : VOTE_UP ≠ VOTE_ACCEPT.
Proof.
  pose proof vote_types_distinct as Hd.
  apply NoDup_cons in Hd as [Hd _]. intros E. apply Hd. rewrite E.
  right. by left.
Qed.

Lemma vote_down_not_accept : VOTE_DOWN ≠ VOTE_ACCEPT.
Proof.
  pose proof vote_types_distinct as Hd.
  apply NoDup_cons in Hd as [_ Hd]. apply NoDup_cons in Hd as [Hd _].
  intros E. apply Hd. rewrite E. by left.
Qed.

End Basic.

(** * Which tables an operation leaves alone *)

(** Unfolds the operations that only read, or write one table. *)
Ltac unfold_basic :=
  unfold Post_update, verify_post, get_absolute_url, related_post, get_post,
    get_profile, get_badge, get_tag, profile_save, Note_create, finalize_note,
    verify_note, user_score_change,
    log_apply, Tag_update, unapply_instance, apply_instance.

Ltac frame :=
  repeat first
    [ preserves_step; simpl
    | match goal with
      | |- preserves _ (λ d, lift_opt _ d) => apply preserves_reader; apply _
      end
    | progress unfold_basic ];
  eauto with preserves.

Section Frames.
Context `{Const} `{Collab}.

(** Operations that only read leave every part of the state as it is. *)
Lemma verify_post_preserves R `{!PreOrder R} p : preserves R (verify_post p).
Proof. frame. Qed.

Lemma get_absolute_url_preserves R `{!PreOrder R} p :
  preserves R (get_absolute_url p).
Proof. frame. Qed.

(** [Post_update] writes the table of posts only. *)
Lemma Post_update_notes p : preserves (same notes) (Post_update p).
Proof. frame. Qed.
Lemma Post_update_votes p : preserves (same votes) (Post_update p).
Proof. frame. Qed.
Lemma Post_update_applied p : preserves (same applied) (Post_update p).
Proof. frame. Qed.
Lemma Post_update_notified p : preserves (same notified) (Post_update p).
Proof. frame. Qed.
Lemma Post_update_profiles p : preserves (same profiles) (Post_update p).
Proof. frame. Qed.

End Frames.

Global Hint Resolve Post_update_notes Post_update_votes Post_update_applied
  Post_update_notified Post_update_profiles : preserves.

Section Frames2.
Context `{Const} `{Collab}.

(** [send_note] writes notes and profiles. *)
Lemma send_note_posts s t x ty un dt b u :
  preserves (same posts) (send_note s t x ty un dt b u).
Proof. unfold send_note. frame. Qed.
Lemma send_note_votes s t x ty un dt b u :
  preserves (same votes) (send_note s t x ty un dt b u).
Proof. unfold send_note. frame. Qed.
Lemma send_note_applied s t x ty un dt b u :
  preserves (same applied) (send_note s t x ty un dt b u).
Proof. unfold send_note. frame. Qed.
Lemma send_note_notified s t x ty un dt b u :
  preserves (same notified) (send_note s t x ty un dt b u).
Proof. unfold send_note. frame. Qed.

(** [create_revision] with the save of a stored post writes revisions and
    posts. *)
Lemma create_revision_applied p :
  preserves (same applied) (create_revision_with Post_update p).
Proof. unfold create_revision_with. frame. Qed.
Lemma create_revision_notified p :
  preserves (same notified) (create_revision_with Post_update p).
Proof. unfold create_revision_with. frame. Qed.

(** [post_score_change] and [user_score_change] write posts and profiles. *)
Lemma post_score_change_notes p rt a h :
  preserves (same notes) (post_score_change_cached p rt a h).
Proof. unfold post_score_change_cached. frame. Qed.
Lemma post_score_change_votes p rt a h :
  preserves (same votes) (post_score_change_cached p rt a h).
Proof. unfold post_score_change_cached. frame. Qed.
Lemma post_score_change_applied p rt a h :
  preserves (same applied) (post_score_change_cached p rt a h).
Proof. unfold post_score_change_cached. frame. Qed.
Lemma post_score_change_profiles p rt a h :
  preserves (same profiles) (post_score_change_cached p rt a h).
Proof. unfold post_score_change_cached. frame. Qed.

Lemma user_score_change_notes u a : preserves (same notes) (user_score_change u a).
Proof. frame. Qed.
Lemma user_score_change_votes u a : preserves (same votes) (user_score_change u a).
Proof. frame. Qed.
Lemma user_score_change_applied u a : preserves (same applied) (user_score_change u a).
Proof. frame. Qed.
Lemma user_score_change_posts u a : preserves (same posts) (user_score_change u a).
Proof. frame. Qed.

End Frames2.

Global Hint Resolve send_note_posts send_note_votes send_note_applied
  send_note_notified create_revision_applied create_revision_notified
  post_score_change_notes post_score_change_votes post_score_change_applied
  post_score_change_profiles user_score_change_notes user_score_change_votes
  user_score_change_applied user_score_change_posts : preserves.

(** * Notes *)

Section Notes.
Context `{Const} `{Collab}.

(** The state after [Note_create]: the note is appended and, for an unread
    note, the unread counter of the target goes up by one. *)
Lemma Note_create_Some sender target text ty unread date u d :
  (unread = true → is_Some (d.(profiles) !! target)) →
  ∃ d', Note_create sender target text ty unread date u d = Some (tt, d')
    ∧ d'.(notes) = d.(notes) ++
        [mkNote sender target text (html_generate text) (default now date)
           unread ty u]
    ∧ d'.(posts) = d.(posts)
    ∧ (∀ k, is_Some (d.(profiles) !! k) → is_Some (d'.(profiles) !! k)).
Proof.
  intros Hp. unfold Note_create, finalize_note, verify_note, bind, modify, when.
  destruct unread; simpl.
  - destruct Hp as [pr Hpr]; [done|].
    unfold get_profile, lift_opt. simpl. rewrite Hpr. simpl.
    eexists. split; [reflexivity|]. simpl. split_and!; [done..|].
    intros k Hk. destruct (decide (target = k)) as [->|Hne].
    + rewrite lookup_insert_eq. eauto.
    + by rewrite lookup_insert_ne.
  - eexists. split; [reflexivity|]. simpl. done.
Qed.

(** C9.  [send_note] always returns when the target has a profile (needed
    only for an unread note), and the note it stores for the target has
    type [NOTE_USER] whatever [ty] is; the copy for the sender, stored only
    when [both] is set, is read and carries [ty]. *)
Theorem send_note_target_type sender target text ty unread date both u d :
  (unread = true → is_Some (d.(profiles) !! target)) →
  ∃ d', send_note sender target text ty unread date both u d = Some (tt, d')
    ∧ d'.(notes) = d.(notes) ++
        mkNote sender target text (html_generate text) (default now date)
          unread NOTE_USER (String.substring 0 200 u)
        :: (if both
            then [mkNote sender sender text (html_generate text)
                    (default now date) false ty (String.substring 0 200 u)]
            else []).
Proof.
  intros Hp. unfold send_note.
  destruct (Note_create_Some sender target text NOTE_USER unread
              (Some (default now date)) (String.substring 0 200 u) d Hp)
    as (d1 & E1 & Hn1 & _ & _).
  unfold bind. rewrite E1. destruct both; simpl.
  - destruct (Note_create_Some sender sender text ty false
                (Some (default now date)) (String.substring 0 200 u) d1)
      as (d2 & E2 & Hn2 & _ & _); [done|].
    exists d2. split; [done|]. rewrite Hn2, Hn1. by rewrite <- app_assoc.
  - exists d1. split; [done|]. by rewrite Hn1.
Qed.

End Notes.

(** * Revisions *)

Section Revisions.
Context `{Const} `{Collab}.

Lemma saveable_ext p q d e :
  q.(type) = p.(type) → q.(root) = p.(root) → q.(parent) = p.(parent) →
  e.(posts) = d.(posts) → saveable p d → saveable q e.
Proof.
  unfold saveable, fk_stored, top_level. intros -> -> -> ->. done.
Qed.

Local Lemma later_fold_none pk l best :
  foldl (later pk) best l = None ↔
  best = None ∧ ∀ r, r ∈ l → r.(rev_post) ≠ pk.
Proof.
  revert best. induction l as [|x l IH]; intros best; simpl.
  - split; [intros ->; split; [done|] | by intros [-> _]].
    intros r Hr. by apply not_elem_of_nil in Hr.
  - rewrite IH. unfold later. split.
    + intros [Hb Hl]. case_bool_decide as Hx.
      * destruct best; [case_bool_decide|]; done.
      * split; [done|]. intros r [->|Hr]%elem_of_cons; [done | by apply Hl].
    + intros [-> Hl]. rewrite bool_decide_false.
      * split; [done|]. intros r Hr. apply Hl. by right.
      * apply Hl. by left.
Qed.

Local Lemma later_fold_some pk l best r :
  foldl (later pk) best l = Some r →
  (best = Some r ∨ (r ∈ l ∧ r.(rev_post) = pk))
  ∧ (∀ b, best = Some b → b.(rev_date) ≤ r.(rev_date))
  ∧ (∀ r', r' ∈ l → r'.(rev_post) = pk → r'.(rev_date) ≤ r.(rev_date)).
Proof.
  revert best. induction l as [|x l IH]; intros best; simpl.
  - intros ->. split_and!; [by left | by intros b [= ->] |].
    intros r' Hr'. by apply not_elem_of_nil in Hr'.
  - intros Hf. destruct (IH _ Hf) as (Hin & Hbest & Hall). clear IH Hf.
    unfold later in Hin, Hbest. split_and!.
    + destruct Hin as [Hin|[Hin Hpk]]; [|right; split; [by right | done]].
      case_bool_decide; [|by left].
      destruct best as [b|].
      * case_bool_decide; [|by left]. simplify_eq. right. split; [by left | done].
      * simplify_eq. right. split; [by left | done].
    + intros b ->. case_bool_decide; [|by apply Hbest].
      case_bool_decide as Hlt.
      * specialize (Hbest _ eq_refl). lia.
      * by apply Hbest.
    + intros r' [->|Hr']%elem_of_cons Hpk; [|by apply Hall].
      rewrite bool_decide_true in Hbest by done.
      destruct best as [b|].
      * case_bool_decide as Hlt.
        -- by apply Hbest.
        -- specialize (Hbest _ eq_refl). lia.
      * by apply Hbest.
Qed.

(** [latest_revision] is a revision of the post that no other revision of
    the post is later than; there is none exactly when the post has no
    revision. *)
Lemma latest_revision_spec pk d :
  match latest_revision pk d with
  | Some r =>
      r ∈ d.(revisions) ∧ r.(rev_post) = pk
      ∧ ∀ r', r' ∈ d.(revisions) → r'.(rev_post) = pk →
              r'.(rev_date) ≤ r.(rev_date)
  | None => ∀ r, r ∈ d.(revisions) → r.(rev_post) ≠ pk
  end.
Proof.
  unfold latest_revision. fold (later pk).
  destruct (foldl (later pk) None (revisions d)) as [r|] eqn:E.
  - apply later_fold_some in E as ([?|[? ?]] & _ & Hall); [done|]. done.
  - by apply later_fold_none in E as [_ ?].
Qed.

(** C7.  For a stored post with an editor, [create_revision] compares the
    combined form with the content of the latest revision (the empty string
    when there is none).  When they are equal nothing is written.  When they
    differ and the post can be saved, exactly one revision is appended, with
    the unified diff of the two texts split into lines and the combined form
    itself, and the stored revision count is the post's plus one. *)
Theorem create_revision_spec (post : Post) (editor : nat) (d : DB) :
  is_Some (d.(posts) !! post.(post_id)) →
  post.(lastedit_user) = Some editor →
  (combine post = prior_content post.(post_id) d →
     create_revision post d = Some (tt, d))
  ∧ (combine post ≠ prior_content post.(post_id) d → saveable post d →
     ∃ d', create_revision post d = Some (tt, d')
       ∧ d'.(revisions) = d.(revisions) ++
           [mkRevision post.(post_id)
              (String.concat ""
                 (unified_diff (splitlines (prior_content post.(post_id) d))
                               (splitlines (combine post))))
              (combine post) editor now]
       ∧ revision_count <$> d'.(posts) !! post.(post_id)
         = Some (post.(revision_count) + 1)).
Proof.
  intros [row Hrow] Hed.
  unfold create_revision, create_revision_with, prior_content, bind, get_db.
  rewrite Hed. simpl. split.
  - intros Heq. rewrite bool_decide_false; [done | by intros ?].
  - intros Hne Hs. rewrite bool_decide_true by done.
    unfold modify, Post_save. simpl. rewrite Hrow.
    rewrite Post_update_saveable.
    + eexists. split; [reflexivity|]. simpl. split; [done|].
      by rewrite lookup_insert_eq.
    + eapply saveable_ext; [..|exact Hs]; done.
Qed.

End Revisions.

(** * Notification on creation *)

Section Notify.
Context `{Const} `{Collab}.

Lemma elem_of_all_posts c d :
  c ∈ all_posts d ↔ post_row c.(post_id) d = Some c.
Proof.
  unfold all_posts, post_row. rewrite list_elem_of_fmap. split.
  - intros ([k row] & -> & Hin). apply elem_of_map_to_list in Hin.
    simpl. by rewrite Hin.
  - intros Hrow. destruct (posts d !! post_id c) as [row|] eqn:E; [|done].
    exists (post_id c, row). split; [by simplify_eq/= | by apply elem_of_map_to_list].
Qed.

(** What [Note_create] leaves behind when it returns. *)
Lemma Note_create_inv sender target text ty unread date u d d' :
  Note_create sender target text ty unread date u d = Some (tt, d') →
  d'.(notes) = d.(notes) ++
    [mkNote sender target text (html_generate text) (default now date) unread ty u]
  ∧ d'.(posts) = d.(posts) ∧ d'.(notified) = d.(notified).
Proof.
  unfold Note_create, finalize_note, verify_note, profile_save. intros Hr. inv_ret.
  match goal with Hw : when _ _ _ = Some _ |- _ =>
    apply when_Some in Hw as [[_ Hw]|[_ ->]] end; [|done].
  inv_ret. match goal with E : get_profile _ _ = _ |- _ =>
    apply get_profile_Some in E as [_ ->] end. done.
Qed.

(** The notes of one run of the loop of [post_create_notification]: one per
    author, in order, sent by the post's author, unread unless they are for
    that author. *)
Lemma notify_loop post text authors d d' :
  for_each authors (λ target,
    do u <- get_absolute_url post;
    send_note post.(author) target text NOTE_USER
      (bool_decide (target ≠ post.(author))) post.(creation_date) false u) d
  = Some (tt, d') →
  ∃ new, d'.(notes) = d.(notes) ++ new
    ∧ note_target <$> new = authors
    ∧ Forall (λ n, n.(note_sender) = post.(author)
                   ∧ n.(note_type) = NOTE_USER
                   ∧ n.(note_unread) = bool_decide (n.(note_target) ≠ post.(author)))
        new
    ∧ d'.(notified) = d.(notified).
Proof.
  revert d. induction authors as [|t ts IH]; intros d Hr; simpl in Hr; inv_ret.
  - exists []. by rewrite app_nil_r.
  - match goal with E : get_absolute_url _ _ = _ |- _ =>
      apply (get_absolute_url_preserves eq) in E as <- end.
    unfold send_note in *. inv_ret. simpl when in *. inv_ret.
    match goal with E : Note_create _ _ _ _ _ _ _ _ = _ |- _ =>
      apply Note_create_inv in E as (Hn & _ & Hq) end.
    destruct (IH _ Hr) as (new & Hnew & Hts & Hall & Hq').
    eexists (_ :: new). split_and!.
    + rewrite Hnew, Hn, <- app_assoc. reflexivity.
    + rewrite fmap_cons, Hts. reflexivity.
    + constructor; [done | exact Hall].
    + by rewrite Hq', Hq.
Qed.

(** [post_create_notification]: the recipients are the author of the
    root and the authors of the posts whose root it is, each once. *)
Lemma post_create_notification_spec post d d' :
  post_create_notification post d = Some (tt, d') →
  ∃ rt new,
    thread_root post d = Some rt
    ∧ d'.(notes) = d.(notes) ++ new
    ∧ NoDup (note_target <$> new)
    ∧ (∀ u, u ∈ note_target <$> new ↔
            u = rt.(author)
            ∨ ∃ c, post_row c.(post_id) d = Some c
                   ∧ c.(root) = Some rt.(post_id) ∧ c.(author) = u)
    ∧ Forall (λ n, n.(note_sender) = post.(author)
                   ∧ n.(note_type) = NOTE_USER
                   ∧ n.(note_unread) = bool_decide (n.(note_target) ≠ post.(author)))
        new
    ∧ d'.(notified) = d.(notified) ++ [post.(post_id)].
Proof.
  unfold post_create_notification. intros Hr. inv_ret.
  match goal with E : related_post _ _ = _ |- _ =>
    apply related_post_Some in E as [-> Hrt] end.
  apply notify_loop in Hr as (new & Hnew & Hts & Hall & Hq).
  match type of Hts with _ = remove_dups (author ?r :: _) => exists r, new end.
  change (all_posts (with_notified _ d)) with (all_posts d) in Hts.
  change (post_row ?k (with_notified _ d)) with (post_row k d) in Hrt.
  split_and!; [| done | | | done | done].
  - unfold thread_root. destruct (root post).
    + by destruct Hrt as (p & -> & ->).
    + by subst.
  - rewrite Hts. apply NoDup_remove_dups.
  - intros u. rewrite Hts, elem_of_remove_dups, elem_of_cons, list_elem_of_fmap.
    apply or_iff_compat_l. split.
    + intros (c & -> & [Hc Hin]%list_elem_of_filter). exists c.
      by apply elem_of_all_posts in Hin.
    + intros (c & Hrow & Hc & <-). exists c. split; [done|].
      apply list_elem_of_filter. split; [done | by apply elem_of_all_posts].
Qed.

Lemma Post_apply_notified p dir : preserves (same notified) (Post_apply p dir).
Proof. unfold Post_apply. frame. Qed.

(** [finalize_post] notifies once for a created post with content that is
    not loaded raw, and not at all otherwise. *)
Lemma finalize_post_notified inst created raw d d' :
  finalize_post inst created raw d = Some (tt, d') →
  d'.(notified) = d.(notified) ++
    (if created && negb (bool_decide (inst.(content) = "")) && negb raw
     then [inst.(post_id)] else []).
Proof.
  unfold finalize_post. destruct created; simpl; intros Hr; inv_ret;
    [|by rewrite app_nil_r].
  repeat match goal with E : related_post _ _ = _ |- _ =>
    apply related_post_Some in E as [-> _] end.
  rename a1 into inst', d2 into e.
  assert (inst'.(content) = inst.(content) ∧ inst'.(post_id) = inst.(post_id)
          ∧ e.(notified) = d.(notified)) as (Hc & Hi & Hq).
  { destruct (_ && _ && negb _); inv_ret; [done|].
    match goal with E : Post_update _ _ = _ |- _ =>
      apply Post_update_Some in E as [-> ->] end.
    split_and!; try done.
    destruct (bool_decide (title inst = "")); inv_ret; done. }
  rewrite Hc in Hr. rewrite <- Hq, <- Hi. clear Hc Hi Hq E1.
  apply when_Some in Hr as [[-> Hr]|[-> ->]]; [|by rewrite app_nil_r].
  inv_ret.
  match goal with E : post_create_notification _ _ = _ |- _ =>
    apply post_create_notification_spec in E as (? & ? & _ & _ & _ & _ & _ & Hq) end.
  rewrite <- Hq.
  assert (preserves (same notified)
            (run when (bool_decide (inst'.(type) ≠ POST_COMMENT))
                   (create_revision_with Post_update inst');
             when CONTENT_INDEXING (ret tt))) as Hp by frame.
  eapply Hp. unfold bind.
  match goal with E : when _ (create_revision_with _ _) _ = Some _ |- _ =>
    rewrite E end.
  exact Hr.
Qed.

(** C8.  [post_create_notification] runs once when a post is created with
    content and not loaded raw, and on no other creation or save.  When it
    runs, one note goes to each of: the author of the root of the thread,
    and the authors of the posts whose root that is; no user gets two.  Each
    note is unread, except the one for the author of the created post. *)
Theorem post_create_notification_once :
  (∀ raw p d pk d',
     Post_create raw p d = Some (pk, d') →
     d'.(notified) = d.(notified) ++
       (if negb (bool_decide (p.(content) = "")) && negb raw then [pk] else []))
  ∧ (∀ p d p' d', Post_update p d = Some (p', d') → d'.(notified) = d.(notified))
  ∧ (∀ post d d',
       post_create_notification post d = Some (tt, d') →
       ∃ rt new,
         thread_root post d = Some rt
         ∧ d'.(notes) = d.(notes) ++ new
         ∧ NoDup (note_target <$> new)
         ∧ (∀ u, u ∈ note_target <$> new ↔
                 u = rt.(author)
                 ∨ ∃ c, post_row c.(post_id) d = Some c
                        ∧ c.(root) = Some rt.(post_id) ∧ c.(author) = u)
         ∧ Forall (λ n, n.(note_unread)
                        = bool_decide (n.(note_target) ≠ post.(author))) new).
Proof.
  split_and!.
  - intros raw p d pk d' Hr. unfold Post_create, Post_insert in Hr. inv_ret.
    match goal with E : verify_post _ _ = _ |- _ =>
      apply verify_post_Some in E as [-> ->] end.
    match goal with E : finalize_post _ _ _ _ = _ |- _ =>
      apply finalize_post_notified in E as -> end.
    match goal with E : apply_instance _ _ _ _ = Some _ |- _ =>
      unfold apply_instance in E; destruct raw; simpl in E; inv_ret;
        [|apply Post_apply_notified in E as ->]; done end.
  - intros p d p' d' Hr. by apply Post_update_notified in Hr.
  - intros post d d' Hr.
    apply post_create_notification_spec in Hr
      as (rt & new & ? & ? & ? & ? & Hall & _).
    exists rt, new. split_and!; try done.
    eapply Forall_impl; [exact Hall|]. by intros n (_ & _ & ?).
Qed.

End Notify.

(** * The [apply] methods run once *)

Section Apply.
Context `{Const} `{Collab}.

Lemma log_then_applied {A} e dir (m : M A) d a d' :
  preserves (same applied) m →
  (run log_apply e dir; m) d = Some (a, d') →
  d'.(applied) = d.(applied) ++ [(e, dir)].
Proof.
  intros Hp Hr. apply bind_Some in Hr as (u & d1 & E & Hr).
  unfold log_apply in E. inv_ret. by apply Hp in Hr as ->.
Qed.

Lemma Post_apply_applied p dir d d' :
  Post_apply p dir d = Some (tt, d') →
  d'.(applied) = d.(applied) ++ [(EPost p.(post_id), dir)].
Proof. apply log_then_applied. frame. Qed.

Lemma Vote_apply_applied v post dir d p d' :
  Vote_apply v post dir d = Some (p, d') →
  d'.(applied) = d.(applied) ++ [(EVote v.(vote_id), dir)].
Proof. apply log_then_applied. frame. Qed.

Lemma Award_apply_applied a dir d d' :
  Award_apply a dir d = Some (tt, d') →
  d'.(applied) = d.(applied) ++ [(EAward a.(award_id), dir)].
Proof. apply log_then_applied. frame. Qed.

Lemma finalize_post_applied inst created raw :
  preserves (same applied) (finalize_post inst created raw).
Proof. unfold finalize_post, post_create_notification. frame. Qed.

Lemma filter_none {A} (P : A → Prop) `{!∀ x, Decision (P x)} (l : list A) :
  (∀ x, x ∈ l → ¬ P x) → filter P l = [].
Proof.
  induction l as [|x l IH]; intros Hl; [done|].
  rewrite filter_cons_False by (apply Hl; left). apply IH.
  intros y Hy. apply Hl. by right.
Qed.

(** A loop whose body logs one call logs one call per element. *)
Lemma for_each_applied {A} (g : A → Entity * Z) (body : A → M unit) xs d d' :
  (∀ x e e', body x e = Some (tt, e') → e'.(applied) = e.(applied) ++ [g x]) →
  for_each xs body d = Some (tt, d') →
  d'.(applied) = d.(applied) ++ (g <$> xs).
Proof.
  intros Hb. revert d. induction xs as [|x xs IH]; intros d Hr; simpl in Hr; inv_ret.
  - by rewrite app_nil_r.
  - apply IH in Hr as ->.
    match goal with E : body _ _ = _ |- _ => apply Hb in E as -> end.
    by rewrite fmap_cons, <- app_assoc.
Qed.

(** C1.  A vote, an award or a post that is created has its [apply] run
    once, with +1, unless it is loaded raw, in which case [apply] does not
    run; one that is deleted has its [apply] run once, with -1.  The saves
    and deletions done on the way run no [apply] for it. *)
Theorem apply_runs_once :
  (∀ raw post user ty d v d',
     Vote_create raw post user ty d = Some (v, d') →
     d'.(applied) = d.(applied) ++ (if raw then [] else [(EVote v.(vote_id), 1)]))
  ∧ (∀ raw badge user date d a d',
       Award_create raw badge user date d = Some (a, d') →
       d'.(applied) = d.(applied) ++ (if raw then [] else [(EAward a.(award_id), 1)]))
  ∧ (∀ raw p d pk d',
       Post_create raw p d = Some (pk, d') →
       d'.(applied) = d.(applied) ++ (if raw then [] else [(EPost pk, 1)]))
  ∧ (∀ v d p d',
       Vote_delete v d = Some (p, d') →
       d'.(applied) = d.(applied) ++ [(EVote v.(vote_id), -1)])
  ∧ (∀ a d d',
       Award_delete a d = Some (tt, d') →
       d'.(applied) = d.(applied) ++ [(EAward a.(award_id), -1)])
  ∧ (∀ p d d',
       Post_delete p d = Some (tt, d') →
       ∃ calls, d'.(applied) = d.(applied) ++ calls
         ∧ length (filter (λ c, c = (EPost p.(post_id), -1)) calls) = 1%nat).
Proof.
  split_and!.
  - intros raw post user ty d v d' Hr. unfold Vote_create in Hr. inv_ret.
    match goal with E : get_post _ _ = _ |- _ =>
      apply get_post_Some in E as [_ ->] end.
    unfold apply_instance in *. destruct raw; simpl in *; inv_ret.
    + by rewrite app_nil_r.
    + match goal with E : Vote_apply _ _ _ _ = _ |- _ =>
        by apply Vote_apply_applied in E as -> end.
  - intros raw badge user date d a d' Hr. unfold Award_create in Hr. inv_ret.
    unfold apply_instance in *. destruct raw; simpl in *; inv_ret.
    + by rewrite app_nil_r.
    + match goal with E : Award_apply _ _ _ = _ |- _ =>
        by apply Award_apply_applied in E as -> end.
  - intros raw p d pk d' Hr. unfold Post_create, Post_insert in Hr. inv_ret.
    match goal with E : verify_post _ _ = _ |- _ =>
      apply verify_post_Some in E as [-> ->] end.
    match goal with E : finalize_post _ _ _ _ = _ |- _ =>
      apply finalize_post_applied in E as -> end.
    unfold apply_instance in *. destruct raw; simpl in *; inv_ret.
    + by rewrite app_nil_r.
    + match goal with E : Post_apply _ _ _ = _ |- _ =>
        by apply Post_apply_applied in E as -> end.
  - intros v d p d' Hr. unfold Vote_delete, unapply_instance in Hr. inv_ret.
    match goal with E : get_post _ _ = _ |- _ =>
      apply get_post_Some in E as [_ ->] end.
    by apply Vote_apply_applied in Hr as ->.
  - intros a d d' Hr. unfold Award_delete, unapply_instance in Hr. inv_ret.
    by apply Award_apply_applied in Hr as ->.
  - intros p d d' Hr. unfold Post_delete in Hr. inv_ret.
    eapply (for_each_applied (λ q, (EPost q.(post_id), -1))) in Hr;
      [|intros q e e'; apply Post_apply_applied].
    match goal with E : for_each _ _ _ = _ |- _ =>
      eapply (for_each_applied (λ v, (EVote v.(vote_id), -1))) in E end.
    2:{ intros v e e' Hv. unfold unapply_instance in Hv. inv_ret.
        match goal with E : get_post _ _ = _ |- _ =>
          apply get_post_Some in E as [_ ->] end.
        match goal with E : Vote_apply _ _ _ _ = _ |- _ =>
          by apply Vote_apply_applied in E end. }
    eexists. split.
    + rewrite Hr, E4, <- app_assoc. reflexivity.
    + rewrite filter_app, fmap_cons, filter_cons_True by done.
      rewrite !filter_none; [done | |].
      * intros c (q & -> & Hq)%list_elem_of_fmap [= Hid].
        apply list_elem_of_omap in Hq as (k & [Hk _]%list_elem_of_filter & Hrow).
        apply post_row_id in Hrow. congruence.
      * by intros c (v & -> & _)%list_elem_of_fmap.
Qed.

End Apply.

(** * Scoring *)

Section Scoring.
Context `{Const} `{Collab}.

(** What [post_score_change] returns and writes. *)
Lemma post_score_change_cached_Some post rt amount hours d post' rt' d' :
  post_score_change_cached post rt amount hours d = Some ((post', rt'), d') →
  post' = scored amount hours (same_as_root post rt) post
  ∧ if same_as_root post rt
    then rt' = rt ∧ d' = with_posts <[post.(post_id) := post']> d
    else ∃ r, rt = Some r
           ∧ rt' = Some (root_scored amount post' r)
           ∧ d' = with_posts <[r.(post_id) := root_scored amount post' r]>
                    (with_posts <[post.(post_id) := post']> d).
Proof.
  unfold post_score_change_cached. intros Hr.
  apply bind_Some in Hr as (p1 & d1 & E & Hr).
  apply Post_update_Some in E as [-> ->].
  change (match rt with
          | Some r => bool_decide (post_id (set_score _ (set_rank _ post)) = post_id r)
          | None => false
          end) with (same_as_root post rt) in *.
  destruct (same_as_root post rt) eqn:Hroot.
  - inv_ret. done.
  - inv_ret.
    match goal with E : Post_update _ _ = _ |- _ =>
      apply Post_update_Some in E as [-> ->] end.
    split; [done|]. eexists. split; [done|]. unfold root_scored.
    case_bool_decide; done.
Qed.

Lemma same_as_root_own post rt d d' :
  related_post post.(root) d = Some (rt, d') →
  same_as_root post rt = own_root post.
Proof.
  intros [_ Hrt]%related_post_Some. unfold same_as_root, own_root.
  destruct (root post) as [k|].
  - destruct Hrt as (r & -> & Hr%post_row_id). subst k.
    apply bool_decide_ext. split; [by intros -> | by intros [= ->]].
  - subst rt. by rewrite bool_decide_false.
Qed.

(** The row of the post after [post_score_change]. *)
Lemma post_score_change_cached_row post rt amount hours d post' rt' d' :
  post_score_change_cached post rt amount hours d = Some ((post', rt'), d') →
  d'.(posts) !! post.(post_id) = Some post'
  ∧ d'.(profiles) = d.(profiles) ∧ d'.(votes) = d.(votes).
Proof.
  intros Hr. apply post_score_change_cached_Some in Hr as [_ Hr].
  destruct (same_as_root post rt) eqn:Hroot.
  - destruct Hr as [_ ->]. simpl. by rewrite lookup_insert_eq.
  - destruct Hr as (r & -> & _ & ->). simpl. split; [|done].
    rewrite lookup_insert_ne, lookup_insert_eq; [done|].
    unfold same_as_root in Hroot. apply bool_decide_eq_false in Hroot. congruence.
Qed.


(** [Vote.apply] for an up-vote: likewise for the post, and the reputation
    of its author moves with it. *)
Lemma Vote_apply_up v post dir d post' d' :
  v.(vote_type) = VOTE_UP →
  Vote_apply v post dir d = Some (post', d') →
  post' = scored dir 1 (own_root post) post
  ∧ d'.(posts) !! post.(post_id) = Some post'
  ∧ d'.(votes) = d.(votes)
  ∧ ∃ pr, d.(profiles) !! post.(author) = Some pr
      ∧ d'.(profiles) = <[post.(author) :=
                          update_profile (set_prof_score (pr.(prof_score) + dir) pr)]>
                        d.(profiles).
Proof.
  intros Hty. unfold Vote_apply, log_apply. rewrite Hty.
  rewrite (bool_decide_true (VOTE_UP = VOTE_UP)) by done.
  rewrite (bool_decide_false (VOTE_UP = VOTE_DOWN)) by apply vote_up_not_down.
  rewrite (bool_decide_false (VOTE_UP = VOTE_ACCEPT)) by apply vote_up_not_accept.
  intros Hr. inv_ret.
  match goal with E : related_post _ _ = _ |- _ =>
    pose proof (same_as_root_own _ _ _ _ E) as Hroot;
    apply related_post_Some in E as [-> _] end.
  match goal with E : post_score_change_cached _ _ _ _ _ = _ |- _ =>
    pose proof (post_score_change_cached_row _ _ _ _ _ _ _ _ E) as (Hrow & Hpr & Hv);
    apply post_score_change_cached_Some in E as [-> _] end.
  unfold user_score_change, profile_save in *. inv_ret.
  match goal with E : get_profile _ _ = _ |- _ =>
    apply get_profile_Some in E as [E ->] end.
  rewrite Hroot in *. simpl in *. split_and!; try done.
  eexists. split; [by rewrite <- Hpr|]. by rewrite Hpr.
Qed.

Lemma scored_score amount hours b post :
  (scored amount hours b post).(score) = post.(score) + amount.
Proof. unfold scored, verified. by destruct b. Qed.

Lemma scored_rank amount hours b post :
  post.(rank) + amount * (3600 * hours) ≠ 0 →
  (scored amount hours b post).(rank) = post.(rank) + amount * (3600 * hours).
Proof.
  intros Hne. unfold scored, verified. destruct b; simpl; by rewrite bool_decide_false.
Qed.

Lemma scored_fields amount hours b post :
  (scored amount hours b post).(post_id) = post.(post_id)
  ∧ (scored amount hours b post).(author) = post.(author)
  ∧ (scored amount hours b post).(root) = post.(root).
Proof. unfold scored, verified. by destruct b. Qed.


End Scoring.

Section ScoringExamples.
#[local] Existing Instance demo_const.
#[local] Existing Instance demo_collab.



End ScoringExamples.

(** * Casting a vote and taking it back *)

Section Toggle.
Context `{Const} `{Collab}.

Lemma set_post_id_same k p : p.(post_id) = k → set_post_id k p = p.
Proof. destruct p. simpl. by intros ->. Qed.

Lemma post_row_lookup pk d p :
  d.(posts) !! pk = Some p → p.(post_id) = pk → post_row pk d = Some p.
Proof. intros Hp Hk. unfold post_row. rewrite Hp. simpl. by rewrite set_post_id_same. Qed.

Lemma delete_opposing_nil post : delete_opposing [] post = ret post.
Proof. done. Qed.

(** The first call of [insert_vote] by a user with no vote on the post:
    the vote is stored and applied. *)
Lemma insert_vote_new post user ty d r d' :
  (∀ v, v ∈ d.(votes) → ¬ (v.(vote_post) = post.(post_id) ∧ v.(vote_author) = user)) →
  insert_vote post user ty d = Some (r, d') →
  ∃ d0 post',
    d0.(posts) = d.(posts) ∧ d0.(profiles) = d.(profiles)
    ∧ d0.(votes) = d.(votes) ++ [r.1]
    ∧ r.1 = mkVote (new_vote_pk d) user post.(post_id) ty
    ∧ Vote_apply r.1 post 1 d0 = Some (post', d').
Proof.
  intros Hnone. unfold insert_vote. intros Hr.
  apply bind_Some in Hr as (d0 & d1 & E & Hr).
  unfold get_db in E. injection E as <- <-.
  assert (∀ t, votes_of post.(post_id) user t d = []) as Hvs.
  { intros t. apply filter_none. intros v Hv (? & ? & _). by eapply Hnone. }
  rewrite Hvs in Hr. simpl in Hr.
  apply bind_Some in Hr as (p1 & d1 & E & Hr).
  assert (p1 = post ∧ d1 = d) as [-> ->].
  { destruct (OPPOSING_VOTES ty); [case_bool_decide|];
      try rewrite Hvs in E; simpl in E; inv_ret; done. }
  clear E. unfold Vote_create, apply_instance in Hr. simpl in Hr. inv_ret.
  match goal with E : get_post _ _ = _ |- _ =>
    apply get_post_Some in E as [_ ->] end.
  eexists _, _. split_and!; [| | | |eassumption]; done.
Qed.

(** A further call by a user whose only vote of that type on the post is
    [v]: the vote is deleted. *)
Lemma insert_vote_again post user ty v d r d' :
  votes_of post.(post_id) user ty d = [v] →
  insert_vote post user ty d = Some (r, d') →
  ∃ p, Vote_delete v d = Some (p, d').
Proof.
  intros Hvs. unfold insert_vote. intros Hr.
  apply bind_Some in Hr as (d0 & d1 & E & Hr).
  unfold get_db in E. injection E as <- <-.
  rewrite Hvs in Hr. simpl in Hr. inv_ret. eauto.
Qed.

Lemma Vote_delete_Some v d p d' :
  Vote_delete v d = Some (p, d') →
  ∃ post, post_row v.(vote_post) d = Some post
    ∧ Vote_apply v post (-1)
        (with_votes (filter (λ w, w.(vote_id) ≠ v.(vote_id))) d) = Some (p, d').
Proof.
  unfold Vote_delete, unapply_instance. intros Hr. inv_ret.
  match goal with E : get_post _ _ = _ |- _ =>
    apply get_post_Some in E as [E ->] end.
  eauto.
Qed.

Lemma prof_score_update pr : (update_profile pr).(prof_score) = pr.(prof_score).
Proof. done. Qed.

(** C2, as it holds.  A user with no vote on a stored post votes it up and
    then votes it up again.  When the rank of the post is a whole number in
    the range where the float additions on it are exact ([exact_rank]), and
    is not 0 before the first call nor after it (0 being the value at which
    a save sets the rank anew), the second call leaves the score and the
    rank of the post and the reputation of its author as they were before
    the first. *)
Theorem vote_toggle_restores post again user d r1 d1 r2 d2 :
  post_row post.(post_id) d = Some post →
  (∀ v, v ∈ d.(votes) →
        ¬ (v.(vote_post) = post.(post_id) ∧ v.(vote_author) = user)) →
  exact_rank post.(rank) →
  post.(rank) ≠ 0 →
  post.(rank) + 3600 ≠ 0 →
  insert_vote post user VOTE_UP d = Some (r1, d1) →
  again.(post_id) = post.(post_id) →
  insert_vote again user VOTE_UP d1 = Some (r2, d2) →
  ∃ row, d2.(posts) !! post.(post_id) = Some row
    ∧ row.(score) = post.(score)
    ∧ row.(rank) = post.(rank)
    ∧ prof_score <$> d2.(profiles) !! post.(author)
      = prof_score <$> d.(profiles) !! post.(author).
Proof.
  intros Hrow Hnone _ Hrk0 Hrk1 Hfirst Hid Hsecond.
  apply insert_vote_new in Hfirst
    as (d0 & post1 & Hposts0 & Hprof0 & Hvotes0 & Hv & Hap1); [|done].
  destruct r1 as [v msg]. simpl in *.
  apply Vote_apply_up in Hap1 as (-> & Hrow1 & Hvotes1 & pr & Hpr & Hprof1);
    [|by rewrite Hv].
  set (post1 := scored 1 1 (own_root post) post) in *.
  destruct (scored_fields 1 1 (own_root post) post) as (Hid1 & Hau1 & Hrt1).
  fold post1 in Hid1, Hau1, Hrt1.
  (* the second call finds exactly the vote of the first *)
  assert (votes_of again.(post_id) user VOTE_UP d1 = [v]) as Hvs.
  { unfold votes_of. rewrite Hvotes1, Hvotes0, filter_app, Hid.
    rewrite filter_none; [|intros w Hw (? & ? & _); by eapply Hnone].
    rewrite filter_cons_True; [done|]. by rewrite Hv. }
  eapply insert_vote_again in Hsecond as [p2 Hdel]; [|exact Hvs].
  apply Vote_delete_Some in Hdel as (post1' & Hrow1' & Hap2).
  assert (post1' = post1) as ->.
  { assert (v.(vote_post) = post.(post_id)) as Hvp by by rewrite Hv.
    rewrite Hvp in Hrow1'.
    rewrite (post_row_lookup _ _ post1) in Hrow1'; [congruence | done | done]. }
  apply Vote_apply_up in Hap2 as (-> & Hrow2 & _ & pr1 & Hpr1 & Hprof2);
    [|by rewrite Hv].
  rewrite Hid1 in Hrow2. rewrite Hau1 in Hpr1, Hprof2.
  change (profiles (with_votes _ d1)) with (profiles d1) in Hpr1, Hprof2.
  assert (post1.(rank) = post.(rank) + 3600) as Hrank1.
  { unfold post1. rewrite scored_rank; lia. }
  eexists. split; [exact Hrow2|]. split_and!.
  - rewrite scored_score. unfold post1. rewrite scored_score. lia.
  - rewrite scored_rank; lia.
  - rewrite Hprof2, lookup_insert_eq. simpl.
    rewrite Hprof1, lookup_insert_eq in Hpr1. injection Hpr1 as <-.
    rewrite Hprof0 in Hpr. rewrite Hpr. simpl. f_equal. lia.
Qed.

End Toggle.

Section ToggleExamples.
#[local] Existing Instance demo_const.
#[local] Existing Instance demo_collab.

(** C2 as worded fails on a post of rank -3600 with no votes: the up-vote
    brings the rank to 0, the save sets it to the creation time, 1000000,
    and taking the vote back leaves it at 996400. *)
Lemma vote_toggle_from_low_rank : ¬ toggle_restores demo_low_q 3 demo_low.
Proof.
  intros Hc.
  destruct (insert_vote demo_low_q 3 VOTE_UP demo_low) as [[r1 d1]|] eqn:E1;
    [|vm_compute in E1; discriminate].
  destruct (insert_vote demo_low_q 3 VOTE_UP d1) as [[r2 d2]|] eqn:E2;
    [|vm_compute in E1; injection E1 as <- <-; vm_compute in E2; discriminate].
  destruct (Hc r1 d1 r2 d2) as (row & Hrow & _ & Hrank & _);
    [vm_compute; reflexivity
    | intros v Hv; vm_compute in Hv; by apply not_elem_of_nil in Hv
    | exact E1 | exact E2 |].
  vm_compute in E1. injection E1 as <- <-.
  vm_compute in E2. injection E2 as <- <-.
  vm_compute in Hrow. injection Hrow as <-.
  vm_compute in Hrank. discriminate.
Qed.

Lemma vote_toggle_restores_witness :
  ∃ row, (committed (insert_vote demo_a 3 VOTE_UP) demo_voted).(posts) !! 1%nat
         = Some row
    ∧ row.(score) = demo_a.(score)
    ∧ row.(rank) = demo_a.(rank)
    ∧ prof_score <$> (committed (insert_vote demo_a 3 VOTE_UP) demo_voted).(profiles)
                     !! demo_a.(author)
      = prof_score <$> demo_answered.(profiles) !! demo_a.(author).
Proof.
  eapply (vote_toggle_restores demo_a demo_a 3 demo_answered _ demo_voted).
  - vm_compute. reflexivity.
  - intros v Hv. vm_compute in Hv. by apply not_elem_of_nil in Hv.
  - split; vm_compute; discriminate.
  - vm_compute. discriminate.
  - vm_compute. discriminate.
  - vm_compute. reflexivity.
  - reflexivity.
  - vm_compute. reflexivity.
Defined.

End ToggleExamples.

(** * The rank of the root of a thread *)

Section RootRank.
Context `{Const} `{Collab}.

Lemma root_scored_rank amount post r :
  0 < r.(rank) →
  (root_scored amount post r).(rank) = Z.max r.(rank) post.(rank).
Proof.
  intros Hpos. unfold root_scored.
  case_bool_decide as Hlt; simpl in Hlt; unfold verified; simpl;
    rewrite bool_decide_false by lia; lia.
Qed.

Lemma root_scored_id amount post r :
  (root_scored amount post r).(post_id) = r.(post_id).
Proof. unfold root_scored. by case_bool_decide. Qed.

(** [post_score_change] on a post that is not the root of its thread, whose
    root is stored with a positive rank: the root is stored again with the
    greater of its rank and the new rank of the post. *)
Lemma post_score_change_root post amount d rid r0 post' rt' d' :
  post.(root) = Some rid →
  rid ≠ post.(post_id) →
  post_row rid d = Some r0 →
  0 < r0.(rank) →
  post_score_change post amount d = Some ((post', rt'), d') →
  post' = scored amount 1 false post
  ∧ ∃ r1, post_row rid d' = Some r1 ∧ r1.(rank) = Z.max r0.(rank) post'.(rank).
Proof.
  intros Hroot Hne Hr0 Hpos. unfold post_score_change. intros Hr.
  apply bind_Some in Hr as (rt & d1 & E & Hr).
  apply related_post_Some in E as [-> E]. rewrite Hroot in E.
  destruct E as (r & -> & Hr0'). assert (r = r0) as -> by congruence.
  pose proof (post_row_id _ _ _ Hr0) as Hid.
  apply post_score_change_cached_Some in Hr as [-> Hr].
  assert (same_as_root post (Some r0) = false) as Hsame.
  { unfold same_as_root. apply bool_decide_eq_false. congruence. }
  rewrite Hsame in *. split; [done|].
  destruct Hr as (r & [= <-] & _ & ->).
  eexists. split.
  - apply post_row_lookup; [|by rewrite root_scored_id].
    simpl. rewrite Hid. apply lookup_insert_eq.
  - by apply root_scored_rank.
Qed.

(** C10, as it holds.  For a post that is not the root of its thread and
    whose root is stored with a positive rank, [post_score_change] leaves
    the root with the greater of its old rank and the new rank of the post:
    the rank of the root is never lowered, whatever the sign of [amount],
    and it is replaced by the rank of the post only when that is greater.
    So when an up-vote has raised the rank of the root, undoing the vote
    does not bring it back: it stays above its value before the vote. *)
Theorem root_rank_only_rises post rid r0 d :
  post.(root) = Some rid →
  rid ≠ post.(post_id) →
  post_row rid d = Some r0 →
  0 < r0.(rank) →
  (∀ amount post' rt' d',
     post_score_change post amount d = Some ((post', rt'), d') →
     ∃ r1, post_row rid d' = Some r1
       ∧ r0.(rank) ≤ r1.(rank)
       ∧ (r1.(rank) = r0.(rank) ∧ post'.(rank) ≤ r0.(rank)
          ∨ r1.(rank) = post'.(rank) ∧ r0.(rank) < post'.(rank)))
  ∧ (∀ post1 rt1 d1 post2 rt2 d2,
       post_score_change post 1 d = Some ((post1, rt1), d1) →
       r0.(rank) < post1.(rank) →
       post_score_change post1 (-1) d1 = Some ((post2, rt2), d2) →
       ∃ r2, post_row rid d2 = Some r2 ∧ r0.(rank) < r2.(rank)).
Proof.
  intros Hroot Hne Hr0 Hpos. split.
  - intros amount post' rt' d' Hr.
    eapply post_score_change_root in Hr as (_ & r1 & Hr1 & Hrk); [|done..].
    exists r1. split; [done|]. lia.
  - intros post1 rt1 d1 post2 rt2 d2 Hup Hraised Hundo.
    eapply post_score_change_root in Hup as (-> & r1 & Hr1 & Hrk1); [|done..].
    destruct (scored_fields 1 1 false post) as (Hid1 & _ & Hrt1).
    eapply post_score_change_root in Hundo as (_ & r2 & Hr2 & Hrk2);
      [| by rewrite Hrt1 | by rewrite Hid1 | exact Hr1 | lia].
    exists r2. split; [done|]. lia.
Qed.

End RootRank.

Section RootRankExamples.
#[local] Existing Instance demo_const.
#[local] Existing Instance demo_collab.

(** C10 as worded fails on the thread from before the epoch, whose root is
    stored with rank 0 and a creation time of -100: a vote on the answer
    saves the root, and the save sets the rank of the root to -100. *)
Lemma root_rank_lowered :
  ¬ root_rank_never_lowered demo_old_answer 1 demo_old_thread.
Proof.
  intros Hc.
  destruct (post_row 0 demo_old_thread) as [r0|] eqn:E0;
    [|vm_compute in E0; discriminate].
  destruct (post_score_change demo_old_answer 1 demo_old_thread)
    as [[res d']|] eqn:E; [|vm_compute in E; discriminate].
  destruct (post_row 0 d') as [r1|] eqn:E1;
    [|vm_compute in E; injection E as <- <-; vm_compute in E1; discriminate].
  assert (root demo_old_answer = Some 0%nat) as Hrt by (vm_compute; reflexivity).
  assert (0%nat ≠ post_id demo_old_answer) as Hne by (vm_compute; discriminate).
  pose proof (Hc _ _ _ _ _ Hrt Hne E0 E E1) as Hle.
  vm_compute in E0. injection E0 as <-.
  vm_compute in E. injection E as <- <-.
  vm_compute in E1. injection E1 as <-.
  vm_compute in Hle. by apply Hle.
Qed.

End RootRankExamples.

(** * Moderation *)

Section Moderation.
Context `{Const} `{Collab}.

Lemma may_not_open_fails user st d :
  capability_fails user st d → may_not_open user st d = Some (true, d).
Proof.
  intros [-> (pr & Hpr & Hcm)]. unfold may_not_open, bind, get_profile, lift_opt.
  rewrite bool_decide_true by done. rewrite Hpr. simpl. by rewrite Hcm.
Qed.

Lemma may_not_open_passes user st d :
  capability_passes user st d → may_not_open user st d = Some (false, d).
Proof.
  unfold may_not_open, bind, get_profile, lift_opt.
  intros [Hne|(pr & Hpr & Hcm)].
  - by rewrite bool_decide_false.
  - case_bool_decide; [|done]. rewrite Hpr. simpl. by rewrite Hcm.
Qed.

(** C5, as it holds.  A call of [user_moderate] that fails the capability
    or the authorization check returns the pair of [False] and a message
    that is not empty, and the state is as before.  A call of [post_moderate]
    that fails a check, on a post whose URL can be formed, returns that URL,
    a string and not a pair; the message, not empty, is handed to the
    request as an error when there is a request; the state is as before.
    Whether or not the URL can be formed, nothing is changed. *)
Theorem moderation_refused :
  (∀ user target st d,
     user.(user_can_moderate) = false ∨ authorize_user_edit user target d = false →
     ∃ msg, user_moderate user target st d = Some (PyPair false msg, d)
       ∧ msg ≠ "")
  ∧ (∀ request post user st d u,
       get_absolute_url post d = Some (u, d) →
       capability_fails user st d
       ∨ (capability_passes user st d ∧ authorize_post_edit user post d = false) →
       ∃ msg, post_moderate request post user st d
              = Some ((PyStr u, flash request ERROR msg), d)
         ∧ msg ≠ "")
  ∧ (∀ request post user st d,
       capability_fails user st d
       ∨ (capability_passes user st d ∧ authorize_post_edit user post d = false) →
       committed (post_moderate request post user st) d = d).
Proof.
  assert (∀ request post user st d u,
       get_absolute_url post d = Some (u, d) →
       capability_fails user st d
       ∨ (capability_passes user st d ∧ authorize_post_edit user post d = false) →
       ∃ msg, post_moderate request post user st d
              = Some ((PyStr u, flash request ERROR msg), d)
         ∧ msg ≠ "") as Hpost.
  { intros request post user st d u Hu Hfail.
    unfold post_moderate, bind. rewrite Hu.
    destruct Hfail as [Hcap|[Hcap Hauth]].
    - rewrite may_not_open_fails by done.
      eexists. split; [reflexivity | done].
    - rewrite may_not_open_passes by done.
      unfold get_db. rewrite Hauth. simpl.
      eexists. split; [reflexivity | done]. }
  split_and!; [| exact Hpost |].
  - intros user target st d [Hcm|Hauth]; unfold user_moderate.
    + rewrite Hcm. simpl. eexists. split; [reflexivity | done].
    + destruct (user_can_moderate user); simpl.
      * unfold bind, get_db. rewrite Hauth. simpl.
        eexists. split; [reflexivity | done].
      * eexists. split; [reflexivity | done].
  - intros request post user st d Hfail. unfold committed.
    destruct (get_absolute_url post d) as [[u d1]|] eqn:Hu.
    + pose proof Hu as Hd. apply (get_absolute_url_preserves eq) in Hd.
      subst d1. destruct (Hpost request _ _ _ _ _ Hu Hfail) as (msg & -> & _).
      done.
    + unfold post_moderate, bind. by rewrite Hu.
Qed.

(** ** Deleting without a trace, and the other moderations *)

Lemma Vote_apply_notes v post dir : preserves (same notes) (Vote_apply v post dir).
Proof. unfold Vote_apply. frame. Qed.
Lemma Vote_apply_votes v post dir : preserves (same votes) (Vote_apply v post dir).
Proof. unfold Vote_apply. frame. Qed.
Lemma Post_apply_notes p dir : preserves (same notes) (Post_apply p dir).
Proof. unfold Post_apply. frame. Qed.
Lemma Post_apply_votes p dir : preserves (same votes) (Post_apply p dir).
Proof. unfold Post_apply. frame. Qed.

(** The loop that sends [post_delete] to deleted votes. *)
Lemma unapply_votes_frame {X} (proj : DB → X) vs :
  (∀ v post dir, preserves (same proj) (Vote_apply v post dir)) →
  preserves (same proj)
    (for_each vs (λ v,
       do _ <- unapply_instance (λ dir, do post <- get_post v.(vote_post);
                                        Vote_apply v post dir);
       ret tt)).
Proof. intros Hv. frame. Qed.

(** [Votes_delete] removes the rows of the votes it is given and writes no
    note. *)
Lemma Votes_delete_Some vs d d' :
  Votes_delete vs d = Some (tt, d') →
  d'.(votes) = filter (λ w, w.(vote_id) ∉ vote_id <$> vs) d.(votes)
  ∧ d'.(notes) = d.(notes).
Proof.
  unfold Votes_delete. intros Hr. apply bind_Some in Hr as (u & d1 & E & Hr).
  unfold modify in E. injection E as _ <-. split.
  - by apply (unapply_votes_frame votes _ Vote_apply_votes) in Hr as ->.
  - by apply (unapply_votes_frame notes _ Vote_apply_notes) in Hr as ->.
Qed.

Lemma cascade_step_incl d pks k : k ∈ pks → k ∈ cascade_step d pks.
Proof.
  intros Hk. unfold cascade_step. apply elem_of_remove_dups, elem_of_app. by left.
Qed.

Lemma cascade_incl n d pks k : k ∈ pks → k ∈ cascade n d pks.
Proof.
  revert pks. induction n as [|n IH]; intros pks Hk; simpl; [done|].
  by apply IH, cascade_step_incl.
Qed.

Lemma lookup_foldr_delete {A} (m : gmap nat A) pks k :
  k ∈ pks → foldr delete m pks !! k = None.
Proof.
  induction pks as [|x pks IH]; intros Hk; [by apply not_elem_of_nil in Hk|].
  simpl. destruct (decide (x = k)) as [->|Hne].
  - apply lookup_delete_eq.
  - rewrite lookup_delete_ne by done. apply IH.
    apply elem_of_cons in Hk as [->|]; done.
Qed.

(** [Post.apply] writes only the row of a parent it has just read. *)
Lemma Post_apply_absent pk p dir : preserves (absent pk) (Post_apply p dir).
Proof.
  assert (∀ fk (f : Post → Post),
            (∀ q, (f q).(post_id) = q.(post_id)) →
            preserves (absent pk)
              (do pa <- related_post fk;
               do pa <- lift_opt pa;
               do _ <- Post_update (f pa);
               ret tt)) as Hsave.
  { intros fk f Hf d u d' Hr. inv_ret.
    match goal with E : related_post _ _ = _ |- _ =>
      apply related_post_Some in E as [-> E] end.
    match goal with E : Post_update _ _ = _ |- _ =>
      apply Post_update_Some in E as [-> ->] end.
    destruct fk as [k|]; [|done]. destruct E as (q & [= <-] & Hq).
    intros Habs. simpl. rewrite Hf, (post_row_id _ _ _ Hq).
    apply post_row_stored in Hq as [row Hrow].
    rewrite lookup_insert_ne; [done | congruence]. }
  unfold Post_apply, log_apply.
  apply preserves_bind; [apply _ | | intros _].
  { apply preserves_modify. intros d Ha. exact Ha. }
  apply preserves_bind; [apply _ | | intros _];
    (apply preserves_when; [apply _|]); by apply Hsave.
Qed.

(** [Post_delete] when it returns: the rows of the post and of the votes on
    it are gone, and no note has been written. *)
Lemma Post_delete_Some p d d' :
  Post_delete p d = Some (tt, d') →
  d'.(posts) !! p.(post_id) = None
  ∧ (∀ v, v ∈ d'.(votes) → v ∈ d.(votes) ∧ v.(vote_post) ≠ p.(post_id))
  ∧ d'.(notes) = d.(notes).
Proof.
  unfold Post_delete. intros Hr.
  apply bind_Some in Hr as (d0 & d1 & E & Hr).
  unfold get_db in E. injection E as <- <-.
  set (pks := cascade (size d.(posts)) d [p.(post_id)]) in *.
  assert (p.(post_id) ∈ pks) as Hin by (apply cascade_incl; by left).
  repeat (apply bind_Some in Hr as (u & d1 & E & Hr);
          unfold modify in E; injection E as _ <-; clear u).
  apply bind_Some in Hr as (u & d1 & E & Hr).
  assert (preserves (same votes)
            (for_each (p :: omap (λ k, post_row k d)
                                 (filter (λ k, k ≠ p.(post_id)) pks))
               (λ q, unapply_instance (Post_apply q)))) as Hpv
    by (apply preserves_for_each; [apply _|]; intros; apply Post_apply_votes).
  assert (preserves (same notes)
            (for_each (p :: omap (λ k, post_row k d)
                                 (filter (λ k, k ≠ p.(post_id)) pks))
               (λ q, unapply_instance (Post_apply q)))) as Hpn
    by (apply preserves_for_each; [apply _|]; intros; apply Post_apply_notes).
  assert (preserves (absent p.(post_id))
            (for_each (p :: omap (λ k, post_row k d)
                                 (filter (λ k, k ≠ p.(post_id)) pks))
               (λ q, unapply_instance (Post_apply q)))) as Hpa
    by (apply preserves_for_each; [apply _|]; intros; apply Post_apply_absent).
  pose proof (unapply_votes_frame votes _ Vote_apply_votes _ _ _ E) as Hv1.
  pose proof (unapply_votes_frame notes _ Vote_apply_notes _ _ _ E) as Hn1.
  split_and!.
  - apply (Hpa _ _ _ Hr).
    destruct (filter (λ v, v.(vote_post) ∈ pks) d.(votes)) as [|v vs] eqn:Hvs.
    + simpl in E. unfold ret in E. simplify_eq. simpl.
      by apply lookup_foldr_delete.
    + assert (v.(vote_post) ∈ pks) as Hv.
      { assert (v ∈ filter (λ v, v.(vote_post) ∈ pks) d.(votes)) as Hv
          by (rewrite Hvs; left).
        by apply list_elem_of_filter in Hv as [Hv _]. }
      simpl in E. unfold unapply_instance in E. inv_ret.
      match goal with E : get_post _ _ = _ |- _ =>
        apply get_post_Some in E as [E _];
        apply post_row_stored in E as [row Hrow] end.
      simpl in Hrow. by rewrite lookup_foldr_delete in Hrow.
  - intros v Hv. apply Hpv in Hr. rewrite Hr, Hv1 in Hv. simpl in Hv.
    apply list_elem_of_filter in Hv as [Hnin Hv]. split; [done|].
    intros Heq. apply Hnin. by rewrite Heq.
  - apply Hpn in Hr. by rewrite Hr, Hn1.
Qed.

(** What [send_note] leaves behind when it returns. *)
Lemma send_note_inv sender target text ty unread date both u d d' :
  send_note sender target text ty unread date both u d = Some (tt, d') →
  d'.(posts) = d.(posts)
  ∧ d'.(notes) = d.(notes) ++
      mkNote sender target text (html_generate text) (default now date)
        unread NOTE_USER (String.substring 0 200 u)
      :: (if both
          then [mkNote sender sender text (html_generate text)
                  (default now date) false ty (String.substring 0 200 u)]
          else []).
Proof.
  unfold send_note. intros Hr. apply bind_Some in Hr as (x & d1 & E1 & Hr).
  destruct x. apply Note_create_inv in E1 as (Hn1 & Hp1 & _).
  destruct both; simpl in Hr.
  - apply Note_create_inv in Hr as (Hn2 & Hp2 & _).
    split; [congruence|]. rewrite Hn2, Hn1, <- app_assoc. done.
  - unfold ret in Hr. simplify_eq. done.
Qed.

(** The first steps of [post_moderate] when both checks pass. *)
Lemma post_moderate_authorized request post user st d res d' :
  authorized user post st d →
  post_moderate request post user st d = Some (res, d') →
  ∃ u, get_absolute_url post d = Some (u, d)
    ∧ (if bool_decide (st = POST_DELETED)
          && bool_decide (no_orphans post d)
          && bool_decide (user.(user_id) = post.(author))
       then
         run Votes_delete (filter (λ v, v.(vote_post) = post.(post_id)) d.(votes));
         run Post_delete post;
         ret (PyStr "/", [])
       else
         do post <- Post_save (set_status st post);
         let text := post_moderator_action user post in
         do u2 <- get_absolute_url post;
         run send_note user.(user_id) post.(author) text NOTE_MODERATOR true None
             true u2;
         ret (PyStr u, flash request INFO
                         ("Post status set to " +:+ get_status_display post.(status))))
        d = Some (res, d').
Proof.
  intros [Hcap Hauth]. unfold post_moderate. intros Hr.
  apply bind_Some in Hr as (u & d1 & Eu & Hr).
  pose proof (get_absolute_url_preserves eq _ _ _ _ Eu) as <-.
  apply bind_Some in Hr as (b & d1 & Eb & Hr).
  rewrite may_not_open_passes in Eb by done. injection Eb as <- <-.
  apply bind_Some in Hr as (d0 & d1 & Ed & Hr).
  unfold get_db in Ed. injection Ed as <- <-.
  rewrite Hauth in Hr. simpl in Hr.
  exists u. split; [done|]. exact Hr.
Qed.

(** C6.  An authorized call of [post_moderate] with status deleted, on a
    post that no other post has as its parent, by the author of the post:
    when it returns, no vote on the post is left, the row of the post is
    gone, no note has been written, and the result is the site root.  Any
    other authorized call on a stored post: when it returns, the row of the
    post carries the new status, and two notes have been written with the
    text of the moderator action, one for the author of the post and a read
    copy of type [NOTE_MODERATOR] for the actor. *)
Theorem post_moderate_effect :
  (∀ request post user st d res d',
     authorized user post st d →
     deletes_without_trace user post st d →
     post_moderate request post user st d = Some (res, d') →
     res = (PyStr "/", [])
     ∧ (∀ v, v ∈ d'.(votes) → v.(vote_post) ≠ post.(post_id))
     ∧ d'.(posts) !! post.(post_id) = None
     ∧ d'.(notes) = d.(notes))
  ∧ (∀ request post user st d res d',
       is_Some (d.(posts) !! post.(post_id)) →
       authorized user post st d →
       ¬ deletes_without_trace user post st d →
       post_moderate request post user st d = Some (res, d') →
       ∃ row u,
         d'.(posts) !! post.(post_id) = Some row
         ∧ row.(status) = st
         ∧ d'.(notes) = d.(notes) ++
             [mkNote user.(user_id) post.(author) (post_moderator_action user row)
                (html_generate (post_moderator_action user row)) now true
                NOTE_USER u;
              mkNote user.(user_id) user.(user_id) (post_moderator_action user row)
                (html_generate (post_moderator_action user row)) now false
                NOTE_MODERATOR u]).
Proof.
  split.
  - intros request post user st d res d' Hauth (Hst & Horph & Hau) Hr.
    apply post_moderate_authorized in Hr as (u & _ & Hr); [|done].
    rewrite !bool_decide_true in Hr by done. simpl in Hr.
    apply bind_Some in Hr as (x & d1 & Ev & Hr). destruct x.
    apply bind_Some in Hr as (x & d2 & Ep & Hr). destruct x.
    unfold ret in Hr. injection Hr as <- <-.
    apply Votes_delete_Some in Ev as (Hv1 & Hn1).
    apply Post_delete_Some in Ep as (Hgone & Hv2 & Hn2).
    split_and!; [done | | done | congruence].
    intros v Hv. by apply Hv2 in Hv as [_ ?].
  - intros request post user st d res d' Hstored Hauth Hnot Hr.
    apply post_moderate_authorized in Hr as (u & _ & Hr); [|done].
    assert (bool_decide (st = POST_DELETED) && bool_decide (no_orphans post d)
            && bool_decide (user.(user_id) = post.(author)) = false) as Hc.
    { apply not_true_is_false. intros Ht. apply Hnot.
      apply andb_prop in Ht as [Ht H3]. apply andb_prop in Ht as [H1 H2].
      split_and!; by eapply bool_decide_eq_true_1. }
    rewrite Hc in Hr. clear Hc.
    apply bind_Some in Hr as (post1 & d1 & Es & Hr).
    rewrite Post_save_stored in Es by done.
    apply Post_update_Some in Es as [-> ->].
    apply bind_Some in Hr as (u2 & d1 & Eu & Hr).
    pose proof (get_absolute_url_preserves eq _ _ _ _ Eu) as <-.
    apply bind_Some in Hr as (x & d2 & En & Hr). destruct x.
    unfold ret in Hr. injection Hr as _ <-.
    apply send_note_inv in En as (Hp & Hn).
    eexists _, _. split_and!.
    + rewrite Hp. simpl. apply lookup_insert_eq.
    + done.
    + exact Hn.
Qed.

End Moderation.

(** * Tag counts *)

Section Tags.

(** A tag that has just been created has count 0, whatever count it was
    created with. *)
Lemma Tag_create_count name count d :
  ∃ pk d', Tag_create name count d = Some (pk, d')
    ∧ tag_count <$> d'.(tags) !! pk = Some 0.
Proof.
  unfold Tag_create, tag_created, Tag_update, bind, get_db, modify, ret. simpl.
  case_bool_decide as Hc; simpl.
  - eexists _, _. split; [reflexivity|]. simpl. rewrite lookup_insert_eq.
    simpl. by rewrite Hc.
  - eexists _, _. split; [reflexivity|]. simpl. by rewrite lookup_insert_eq.
Qed.

(** The receiver does nothing for the actions of a removal. *)
Lemma tags_changed_remove post pks d :
  tags_changed post "pre_remove" pks d = Some (tt, d)
  ∧ tags_changed post "post_remove" pks d = Some (tt, d).
Proof. done. Qed.

(** Nor for the action that comes before an addition. *)
Lemma tags_changed_pre_add post pks d :
  tags_changed post "pre_add" pks d = Some (tt, d).
Proof. done. Qed.

(** For the action [post_add] with one tag, the count of the tag goes up
    by 1. *)
Lemma tags_changed_post_add post t row d :
  d.(tags) !! t = Some row →
  tags_changed post "post_add" (Some [t]) d
  = Some (tt, with_tags <[t := mkTag t row.(tag_name) (row.(tag_count) + 1)]> d).
Proof.
  intros Hrow. unfold tags_changed.
  rewrite (bool_decide_true ("post_add" = "post_add")) by done.
  rewrite (bool_decide_false ("post_add" = "post_delete")) by done.
  rewrite (bool_decide_false ("post_add" = "pre_clear")) by done.
  cbv [for_each bind ret when lift_opt get_tag tag_row Tag_update modify].
  rewrite Hrow. reflexivity.
Qed.

(** Adding one tag that the post does not have yet raises its count by 1. *)
Lemma tag_set_add_count post t row d :
  d.(tags) !! t = Some row →
  (post, t) ∉ d.(tag_set) →
  ∃ d', tag_set_add post [t] d = Some (tt, d')
    ∧ tag_count <$> d'.(tags) !! t = Some (row.(tag_count) + 1)
    ∧ d'.(tag_set) = d.(tag_set) ++ [(post, t)].
Proof.
  intros Hrow Hnew. unfold tag_set_add, bind at 1, get_db.
  rewrite filter_cons_True by done. rewrite filter_nil.
  change (remove_dups [t]) with [t].
  unfold bind. rewrite tags_changed_pre_add. unfold modify.
  rewrite (tags_changed_post_add _ _ row) by done.
  eexists. split; [reflexivity|]. simpl. by rewrite lookup_insert_eq.
Qed.

(** ** Adding and clearing keep the counts right *)

Lemma if_elem_of_cons_same {A} (t : nat) l (a b : A) :
  (if decide (t ∈ t :: l) then a else b) = a.
Proof. destruct (decide (t ∈ t :: l)) as [|Hn]; [done|]. exfalso. apply Hn. left. Qed.

Lemma if_elem_of_cons_other {A} (t x : nat) l (a b : A) :
  x ≠ t →
  (if decide (t ∈ x :: l) then a else b) = (if decide (t ∈ l) then a else b).
Proof.
  intros Hne. destruct (decide (t ∈ x :: l)) as [Hi|Hn], (decide (t ∈ l)) as [Hj|Hm];
    try done.
  - apply elem_of_cons in Hi as [->|?]; done.
  - exfalso. apply Hn. by right.
Qed.

Lemma if_elem_of_nil {A} (t : nat) (a b : A) :
  (if decide (t ∈ @nil nat) then a else b) = b.
Proof. destruct (decide (t ∈ [])) as [Hi|]; [|done]. by apply not_elem_of_nil in Hi. Qed.

Lemma length_filter_eq (l : list nat) t :
  NoDup l →
  length (filter (λ x, x = t) l) = if decide (t ∈ l) then 1%nat else 0%nat.
Proof.
  induction 1 as [|x l Hx Hl IH]; [done|].
  destruct (decide (x = t)) as [->|Hne].
  - rewrite filter_cons_True by done. simpl. rewrite IH.
    rewrite if_elem_of_cons_same. by destruct (decide (t ∈ l)).
  - rewrite filter_cons_False by done. rewrite IH.
    by rewrite if_elem_of_cons_other.
Qed.

Lemma filter_tag_pairs post (ids : list nat) t :
  length (filter (λ r : nat * nat, r.2 = t) ((λ x, (post, x)) <$> ids))
  = length (filter (λ x, x = t) ids).
Proof.
  induction ids as [|x ids IH]; [done|]. rewrite fmap_cons.
  destruct (decide (x = t)) as [->|Hne].
  - rewrite !filter_cons_True by done. simpl. by rewrite IH.
  - by rewrite !filter_cons_False by done.
Qed.

(** The loop of [tags_changed] for [post_add]. *)
Lemma incr_loop (ids : list nat) d :
  NoDup ids →
  (∀ t, t ∈ ids → is_Some (d.(tags) !! t)) →
  ∃ d',
    for_each ids (λ pk, do tag <- get_tag pk;
                        Tag_update (set_tag_count (tag.(tag_count) + 1) tag)) d
    = Some (tt, d')
    ∧ d'.(tag_set) = d.(tag_set)
    ∧ (∀ t, is_Some (d'.(tags) !! t) ↔ is_Some (d.(tags) !! t))
    ∧ ∀ t, tag_count <$> d'.(tags) !! t
           = (λ c, if decide (t ∈ ids) then c + 1 else c)
               <$> (tag_count <$> d.(tags) !! t).
Proof.
  intros Hnd. revert d. induction Hnd as [|x ids Hx Hnd IH]; intros d Hin.
  - exists d. split_and!; [done..|]. intros t.
    destruct (tags d !! t); [|done]. cbn [fmap option_fmap option_map].
    by rewrite if_elem_of_nil.
  - destruct (Hin x) as [row Hrow]; [by left|].
    set (d1 := with_tags <[x := mkTag x row.(tag_name) (row.(tag_count) + 1)]> d).
    destruct (IH d1) as (d' & Hloop & Hts & Hsome & Hcount).
    { intros t Ht. simpl. destruct (decide (x = t)) as [->|Hne].
      - rewrite lookup_insert_eq. eauto.
      - rewrite lookup_insert_ne by done. apply Hin. by right. }
    exists d'. split_and!.
    + simpl. unfold bind at 1. unfold bind at 1. unfold get_tag, lift_opt, tag_row.
      rewrite Hrow. simpl. exact Hloop.
    + by rewrite Hts.
    + intros t. rewrite Hsome. simpl. destruct (decide (x = t)) as [->|Hne].
      * rewrite lookup_insert_eq, Hrow. split; eauto.
      * by rewrite lookup_insert_ne.
    + intros t. rewrite Hcount. simpl. destruct (decide (x = t)) as [->|Hne].
      * rewrite lookup_insert_eq, Hrow. cbn [fmap option_fmap option_map tag_count].
        rewrite if_elem_of_cons_same. by destruct (decide (t ∈ ids)).
      * rewrite lookup_insert_ne by done.
        destruct (tags d !! t); [|done]. cbn [fmap option_fmap option_map].
        by rewrite if_elem_of_cons_other.
Qed.

Lemma tags_changed_post_add_loop post ids d :
  tags_changed post "post_add" (Some ids) d
  = for_each ids (λ pk, do tag <- get_tag pk;
                        Tag_update (set_tag_count (tag.(tag_count) + 1) tag)) d.
Proof.
  unfold tags_changed.
  rewrite (bool_decide_true ("post_add" = "post_add")) by done.
  rewrite (bool_decide_false ("post_add" = "post_delete")) by done.
  rewrite (bool_decide_false ("post_add" = "pre_clear")) by done.
  cbv [when lift_opt]. unfold bind at 1 2 3. unfold ret.
  by destruct (for_each ids _ d) as [[[] d']|].
Qed.

(** Adding tags to a post keeps every count equal to the number of posts
    that carry the tag. *)
Lemma tag_set_add_counts post pks d :
  tag_set_wf d → counts_match d →
  (∀ t, t ∈ pks → is_Some (d.(tags) !! t)) →
  ∃ d', tag_set_add post pks d = Some (tt, d')
    ∧ tag_set_wf d' ∧ counts_match d'.
Proof.
  intros [Hnd Hfk] Hcm Hpks. unfold tag_set_add, bind at 1, get_db.
  set (ids := remove_dups (filter (λ t, (post, t) ∉ d.(tag_set)) pks)).
  assert (NoDup ids) as Hids by apply NoDup_remove_dups.
  assert (∀ t, t ∈ ids → ((post, t) ∉ tag_set d) ∧ t ∈ pks) as Hnew.
  { intros t Ht. unfold ids in Ht. rewrite elem_of_remove_dups in Ht.
    by apply list_elem_of_filter in Ht. }
  unfold bind. rewrite tags_changed_pre_add. unfold modify.
  rewrite tags_changed_post_add_loop.
  destruct (incr_loop ids
              (with_tag_set (λ l, l ++ ((λ t, (post, t)) <$> ids)) d) Hids)
    as (d' & -> & Hts & Hsome & Hcount).
  { intros t Ht. apply Hpks. by apply Hnew. }
  exists d'. split; [done|]. simpl in Hts, Hsome, Hcount. split.
  - split.
    + rewrite Hts. apply NoDup_app. split_and!; [done | |].
      * intros r Hr Hr'. apply list_elem_of_fmap in Hr' as (t & -> & Ht).
        by apply Hnew in Ht as [? _].
      * apply NoDup_fmap_2; [|done]. by intros ?? [=].
    + intros r. rewrite Hts, Hsome. intros [Hr|Hr]%elem_of_app; [by apply Hfk|].
      apply list_elem_of_fmap in Hr as (t & -> & Ht). apply Hpks. by apply Hnew.
  - intros t row' Hrow'.
    pose proof (Hcount t) as Hc. rewrite Hrow' in Hc. simpl in Hc.
    destruct (tags d !! t) as [row|] eqn:Hrow; [|done]. simpl in Hc.
    injection Hc as ->. unfold posts_tagged. rewrite Hts, filter_app, length_app.
    rewrite filter_tag_pairs, length_filter_eq by done.
    rewrite (Hcm _ _ Hrow). unfold posts_tagged.
    destruct (decide (t ∈ ids)); lia.
Qed.

(** The loop of [tags_changed] for [pre_clear], over tag objects with
    different keys. *)
Lemma decr_loop (objs : list Tag) d :
  NoDup (tag_id <$> objs) →
  ∃ d',
    for_each objs (λ tag, Tag_update (set_tag_count (tag.(tag_count) - 1) tag)) d
    = Some (tt, d')
    ∧ d'.(tag_set) = d.(tag_set)
    ∧ (∀ o, o ∈ objs →
            d'.(tags) !! o.(tag_id) = Some (set_tag_count (o.(tag_count) - 1) o))
    ∧ (∀ t, t ∉ tag_id <$> objs → d'.(tags) !! t = d.(tags) !! t).
Proof.
  revert d. induction objs as [|x objs IH]; intros d Hnd.
  - exists d. split_and!; [done | done | | done].
    intros o Ho. by apply not_elem_of_nil in Ho.
  - rewrite fmap_cons in Hnd. apply NoDup_cons in Hnd as [Hx Hnd].
    destruct (IH (with_tags <[x.(tag_id) := set_tag_count (x.(tag_count) - 1) x]> d)
                Hnd) as (d' & Hloop & Hts & Hin & Hout).
    exists d'. split_and!.
    + simpl. unfold bind, Tag_update, modify. exact Hloop.
    + by rewrite Hts.
    + intros o [->|Ho]%elem_of_cons; [|by apply Hin].
      rewrite Hout by done. cbn [tags with_tags]. apply lookup_insert_eq.
    + intros t Ht. rewrite fmap_cons in Ht.
      rewrite Hout by (intros ?; apply Ht; by right). cbn [tags with_tags].
      rewrite lookup_insert_ne; [done|]. intros E. apply Ht. rewrite <- E. left.
Qed.

Lemma tags_changed_pre_clear post pk_set d :
  tags_changed post "pre_clear" pk_set d
  = for_each (tags_of_post post d)
      (λ tag, Tag_update (set_tag_count (tag.(tag_count) - 1) tag)) d.
Proof. done. Qed.

Lemma tags_changed_post_clear post pk_set d :
  tags_changed post "post_clear" pk_set d = Some (tt, d).
Proof. done. Qed.

Lemma elem_of_tags_of_post post d o :
  o ∈ tags_of_post post d ↔
  (post, o.(tag_id)) ∈ d.(tag_set) ∧ tag_row o.(tag_id) d = Some o.
Proof.
  unfold tags_of_post. rewrite list_elem_of_omap. split.
  - intros ([p t] & Hr & Ho). simpl in Ho. case_bool_decide; [|done]. subst p.
    assert (o.(tag_id) = t) as <-.
    { unfold tag_row in Ho. destruct (tags d !! t); [|done]. by simplify_eq/=. }
    done.
  - intros [Hr Ho]. exists (post, o.(tag_id)). split; [done|].
    simpl. by rewrite bool_decide_true.
Qed.

Lemma tags_of_post_NoDup post d :
  NoDup d.(tag_set) → NoDup (tag_id <$> tags_of_post post d).
Proof.
  unfold tags_of_post. generalize (tag_set d) as l.
  induction l as [|[p t] l IH]; intros Hnd; [constructor|].
  apply NoDup_cons in Hnd as [Hr Hnd]. simpl.
  case_bool_decide as Hp; [|by apply IH]. simpl in Hp. subst p.
  destruct (tag_row t d) as [o|] eqn:Ho; [|by apply IH].
  rewrite fmap_cons. apply NoDup_cons. split; [|by apply IH].
  intros (o' & Hid & Ho')%list_elem_of_fmap.
  apply list_elem_of_omap in Ho' as ([p' t'] & Hr' & Hf). simpl in Hf.
  case_bool_decide as Hp'; [|done]. simpl in Hp'. subst p'.
  assert (o.(tag_id) = t ∧ o'.(tag_id) = t') as [Ht Ht'].
  { unfold tag_row in Ho, Hf.
    destruct (tags d !! t), (tags d !! t'); by simplify_eq/=. }
  apply Hr. congruence.
Qed.

(** Without the rows of one post, a tag has one post fewer if that post
    carried it. *)
Lemma length_filter_without post t (l : list (nat * nat)) :
  NoDup l →
  length (filter (λ r : nat * nat, r.2 = t) l)
  = (length (filter (λ r : nat * nat, r.2 = t) (filter (λ r, r.1 ≠ post) l))
     + if decide ((post, t) ∈ l) then 1 else 0)%nat.
Proof.
  induction 1 as [|[p x] l Hr Hnd IH]; [done|].
  destruct (decide (p = post)) as [->|Hp], (decide (x = t)) as [->|Hx].
  - rewrite (filter_cons_True (λ r, r.2 = t)) by done.
    rewrite (filter_cons_False (λ r, r.1 ≠ post)) by (simpl; congruence).
    simpl. rewrite IH.
    destruct (decide ((post, t) ∈ l)) as [|_]; [done|].
    destruct (decide ((post, t) ∈ (post, t) :: l)) as [|Hn]; [lia|].
    exfalso. apply Hn. left.
  - rewrite (filter_cons_False (λ r, r.2 = t)) by done.
    rewrite (filter_cons_False (λ r, r.1 ≠ post)) by (simpl; congruence).
    rewrite IH. f_equal.
    destruct (decide ((post, t) ∈ l)) as [Hi|Hi],
             (decide ((post, t) ∈ (post, x) :: l)) as [Hj|Hj]; try done.
    + exfalso. apply Hj. by right.
    + apply elem_of_cons in Hj as [[=]|?]; done.
  - rewrite (filter_cons_True (λ r, r.2 = t)) by done.
    rewrite (filter_cons_True (λ r, r.1 ≠ post)) by done.
    rewrite (filter_cons_True (λ r, r.2 = t)) by done.
    simpl. rewrite IH. f_equal.
    destruct (decide ((post, t) ∈ l)) as [Hi|Hi],
             (decide ((post, t) ∈ (p, t) :: l)) as [Hj|Hj]; try done.
    + exfalso. apply Hj. by right.
    + apply elem_of_cons in Hj as [[=]|?]; done.
  - rewrite (filter_cons_False (λ r, r.2 = t)) by done.
    rewrite (filter_cons_True (λ r, r.1 ≠ post)) by done.
    rewrite (filter_cons_False (λ r, r.2 = t)) by done.
    rewrite IH. f_equal.
    destruct (decide ((post, t) ∈ l)) as [Hi|Hi],
             (decide ((post, t) ∈ (p, x) :: l)) as [Hj|Hj]; try done.
    + exfalso. apply Hj. by right.
    + apply elem_of_cons in Hj as [[=]|?]; done.
Qed.

(** Clearing the tags of a post keeps every count equal to the number of
    posts that carry the tag. *)
Lemma tag_set_clear_counts post d :
  tag_set_wf d → counts_match d →
  ∃ d', tag_set_clear post d = Some (tt, d')
    ∧ tag_set_wf d' ∧ counts_match d'.
Proof.
  intros [Hnd Hfk] Hcm. unfold tag_set_clear, bind.
  rewrite tags_changed_pre_clear.
  destruct (decr_loop (tags_of_post post d) d (tags_of_post_NoDup post d Hnd))
    as (d1 & -> & Hts & Hin & Hout).
  unfold modify. rewrite tags_changed_post_clear.
  eexists. split; [reflexivity|].
  assert (∀ t, is_Some (d1.(tags) !! t) ↔ is_Some (d.(tags) !! t)) as Hsome.
  { intros t. destruct (decide (t ∈ tag_id <$> tags_of_post post d)) as [Hi|Hi].
    - apply list_elem_of_fmap in Hi as (o & -> & Ho). rewrite (Hin _ Ho).
      apply elem_of_tags_of_post in Ho as [_ Ho]. unfold tag_row in Ho.
      destruct (tags d !! tag_id o); [|done]. split; eauto.
    - by rewrite Hout. }
  unfold tag_set_wf, counts_match, posts_tagged. cbn [tag_set with_tag_set tags].
  rewrite Hts. split; [split|].
  - by apply NoDup_filter.
  - intros r [_ Hr]%list_elem_of_filter. apply Hsome. by apply Hfk.
  - intros t row1 Hrow1.
    pose proof (length_filter_without post t _ Hnd) as Hlen.
    destruct (decide ((post, t) ∈ d.(tag_set))) as [Hi|Hi].
    + destruct (Hfk _ Hi) as [row Hrow]. simpl in Hrow.
      assert (mkTag t row.(tag_name) row.(tag_count) ∈ tags_of_post post d) as Ho.
      { apply elem_of_tags_of_post. simpl. split; [done|].
        unfold tag_row. by rewrite Hrow. }
      apply Hin in Ho. simpl in Ho. rewrite Hrow1 in Ho. injection Ho as ->.
      simpl. rewrite (Hcm _ _ Hrow). unfold posts_tagged. lia.
    + rewrite Hout in Hrow1.
      * rewrite (Hcm _ _ Hrow1). unfold posts_tagged. lia.
      * intros (o & -> & Ho)%list_elem_of_fmap.
        by apply elem_of_tags_of_post in Ho as [? _].
Qed.

(** Removing a tag from a post that carries it leaves the count of the tag
    one above the number of posts that carry it. *)
Lemma tag_set_remove_counts post t d :
  tag_set_wf d → counts_match d → (post, t) ∈ d.(tag_set) →
  ∃ d' row, tag_set_remove post [t] d = Some (tt, d')
    ∧ d'.(tags) !! t = Some row
    ∧ row.(tag_count) = posts_tagged t d' + 1.
Proof.
  intros [Hnd Hfk] Hcm Hin. destruct (Hfk _ Hin) as [row Hrow]. simpl in Hrow.
  eexists _, row. split; [reflexivity|]. split; [exact Hrow|].
  rewrite (Hcm _ _ Hrow). unfold posts_tagged. cbn [tag_set with_tag_set].
  rewrite (length_filter_without post t _ Hnd), decide_True by done.
  assert (filter (λ r : nat * nat, r.2 = t)
            (filter (λ r, ¬ (r.1 = post ∧ r.2 ∈ [t])) d.(tag_set))
          = filter (λ r : nat * nat, r.2 = t)
              (filter (λ r, r.1 ≠ post) d.(tag_set))) as ->; [|lia].
  clear. induction (tag_set d) as [|[p x] l IH]; [done|].
  destruct (decide (x = t)) as [->|Hx], (decide (p = post)) as [->|Hp].
  - rewrite (filter_cons_False (λ r, ¬ (r.1 = post ∧ r.2 ∈ [t])))
      by (simpl; intros Hn; apply Hn; split; [done | left]).
    by rewrite (filter_cons_False (λ r, r.1 ≠ post)) by (simpl; congruence).
  - rewrite (filter_cons_True (λ r, ¬ (r.1 = post ∧ r.2 ∈ [t])))
      by (simpl; intros [? _]; done).
    rewrite (filter_cons_True (λ r, r.1 ≠ post)) by done.
    rewrite !(filter_cons_True (λ r, r.2 = t)) by done. by rewrite IH.
  - rewrite (filter_cons_True (λ r, ¬ (r.1 = post ∧ r.2 ∈ [t])))
      by (simpl; intros [_ [->|Hn]%elem_of_cons]; [done | by apply not_elem_of_nil in Hn]).
    rewrite (filter_cons_False (λ r, r.1 ≠ post)) by (simpl; congruence).
    by rewrite (filter_cons_False (λ r, r.2 = t)) by done.
  - rewrite (filter_cons_True (λ r, ¬ (r.1 = post ∧ r.2 ∈ [t])))
      by (simpl; intros [? _]; done).
    rewrite (filter_cons_True (λ r, r.1 ≠ post)) by done.
    by rewrite !(filter_cons_False (λ r, r.2 = t)) by done.
Qed.

(** C4, where the code departs from it.  Removing tags from a post takes the
    rows of the association away and leaves every count as it was, because
    the receiver tests for the action [post_delete] while a removal is
    announced as [pre_remove] and [post_remove].  In the small forum: the
    tag is created with a count of 5 and starts at 0, is at 1 once attached
    to the question, and is still at 1 after it is removed from it, when no
    post carries it. *)
Theorem tag_count_after_remove :
  (∀ post pks d,
     tag_set_remove post pks d
     = Some (tt, with_tag_set (filter (λ r, ¬ (r.1 = post ∧ r.2 ∈ pks))) d))
  ∧ tag_count <$> demo_tag_created.(tags) !! 0%nat = Some 0
  ∧ (tag_count <$> demo_tagged.(tags) !! 0%nat = Some 1
     ∧ posts_tagged 0 demo_tagged = 1)
  ∧ (tag_count <$> demo_untagged.(tags) !! 0%nat = Some 1
     ∧ posts_tagged 0 demo_untagged = 0).
Proof.
  split; [done|]. vm_compute. done.
Qed.

End Tags.

(** * The theorems on the small forum *)

Section Examples.
#[local] Existing Instance demo_const.
#[local] Existing Instance demo_collab.

(** Creating the answer runs its [apply] once; taking back the vote on it
    runs the [apply] of the vote once more, with -1. *)
Lemma apply_runs_once_witness :
  demo_answered.(applied) = demo_asked.(applied) ++ [(EPost 1, 1)]
  ∧ (committed (insert_vote demo_a 3 VOTE_UP) demo_voted).(applied)
    = demo_voted.(applied) ++ [(EVote 1, -1)].
Proof.
  destruct apply_runs_once as (_ & _ & Hpost & Hdel & _). split.
  - apply (Hpost false demo_answer demo_asked 1%nat demo_answered).
    vm_compute. reflexivity.
  - apply (Hdel (mkVote 1 3 1 VOTE_UP) demo_voted
             (scored (-1) 1 false demo_a_voted)).
    vm_compute. reflexivity.
Defined.

(** A visitor who is neither the author nor a moderator tries to close the
    question: the call returns the URL of the question, not a pair. *)
Lemma refusal_returns_url :
  ¬ refusal_is_pair false demo_q demo_visitor POST_CLOSED demo_answered.
Proof.
  intros Hc. destruct Hc as (msg & msgs & Hr); [vm_compute; reflexivity|].
  vm_compute in Hr. discriminate.
Qed.

Lemma moderation_refused_witness :
  (∃ msg, user_moderate demo_visitor demo_author USER_SUSPENDED demo_answered
          = Some (PyPair false msg, demo_answered) ∧ msg ≠ "")
  ∧ (∃ msg, post_moderate true demo_q demo_visitor POST_CLOSED demo_answered
            = Some ((PyStr "/post/show/0/Q/", flash true ERROR msg), demo_answered)
       ∧ msg ≠ "").
Proof.
  destruct moderation_refused as (Huser & Hpost & _). split.
  - apply Huser. left. reflexivity.
  - apply Hpost.
    + vm_compute. reflexivity.
    + right. split; [left; vm_compute; discriminate | vm_compute; reflexivity].
Defined.

(** The author of the answer deletes it after it has been voted up: the
    vote and the answer are gone and no note is added.  A moderator closes
    the question: it is stored as closed and two notes are added. *)
Lemma post_moderate_effect_witness :
  ((∀ v, v ∈ demo_deleted.(votes) → v.(vote_post) ≠ 1%nat)
   ∧ demo_deleted.(posts) !! 1%nat = None
   ∧ demo_deleted.(notes) = demo_voted.(notes))
  ∧ (∃ row, demo_closed.(posts) !! 0%nat = Some row
       ∧ row.(status) = POST_CLOSED
       ∧ length demo_closed.(notes) = S (S (length demo_answered.(notes)))).
Proof.
  destruct post_moderate_effect as (Hdel & Hset). split.
  - destruct (Hdel false demo_a_voted demo_author POST_DELETED demo_voted
                (PyStr "/", []) demo_deleted) as (_ & Hv & Hp & Hn).
    + split; [left; vm_compute; discriminate | vm_compute; reflexivity].
    + split_and!; vm_compute; reflexivity.
    + vm_compute. reflexivity.
    + split_and!; [exact Hv | exact Hp | exact Hn].
  - destruct (Hset true demo_q demo_moderator POST_CLOSED demo_answered
                (PyStr "/post/show/0/Q/", [(INFO, "Post status set to status")])
                demo_closed) as (row & u & Hrow & Hst & Hn).
    + vm_compute. eexists. reflexivity.
    + split; [left; vm_compute; discriminate | vm_compute; reflexivity].
    + intros (Hst & _). vm_compute in Hst. discriminate.
    + vm_compute. reflexivity.
    + exists row. split_and!; [exact Hrow | exact Hst |].
      rewrite Hn, length_app. simpl. lia.
Defined.

(** Saving the question as it is stored adds no revision; saving it with a
    new title adds one and counts it. *)
Lemma create_revision_spec_witness :
  create_revision demo_q demo_answered = Some (tt, demo_answered)
  ∧ ∃ d', create_revision demo_q_edited demo_answered = Some (tt, d')
      ∧ length d'.(revisions) = S (length demo_answered.(revisions))
      ∧ revision_count <$> d'.(posts) !! 0%nat = Some 2.
Proof.
  split.
  - apply (create_revision_spec demo_q 1%nat demo_answered).
    + vm_compute. eexists. reflexivity.
    + vm_compute. reflexivity.
    + vm_compute. reflexivity.
  - destruct (create_revision_spec demo_q_edited 1%nat demo_answered)
      as (_ & Hnew).
    + vm_compute. eexists. reflexivity.
    + vm_compute. reflexivity.
    + destruct Hnew as (d' & Hr & Hrev & Hcount).
      * vm_compute. discriminate.
      * left. vm_compute. reflexivity.
      * exists d'. split_and!; [exact Hr | | exact Hcount].
        rewrite Hrev, length_app. simpl. lia.
Defined.

(** Creating the answer notifies once, for the answer. *)
Lemma post_create_notification_once_witness :
  demo_answered.(notified) = demo_asked.(notified) ++ [1%nat].
Proof.
  destruct post_create_notification_once as (Hcreate & _ & _).
  apply (Hcreate false demo_answer demo_asked 1%nat demo_answered).
  vm_compute. reflexivity.
Defined.

(** A moderator's note to user 2, asked for with type [NOTE_MODERATOR]. *)
Lemma send_note_target_type_witness :
  ∃ d', send_note 9 2 "closed" NOTE_MODERATOR true None true "/post/show/0/Q/"
          demo_answered = Some (tt, d')
    ∧ d'.(notes) = demo_answered.(notes) ++
        [mkNote 9 2 "closed" "closed" 1000000 true NOTE_USER "/post/show/0/Q/";
         mkNote 9 9 "closed" "closed" 1000000 false NOTE_MODERATOR "/post/show/0/Q/"].
Proof.
  assert (true = true → is_Some (demo_answered.(profiles) !! 2%nat)) as Hp
    by (intros _; vm_compute; eexists; reflexivity).
  exact (send_note_target_type 9 2 "closed" NOTE_MODERATOR true None true
           "/post/show/0/Q/" demo_answered Hp).
Defined.

(** The vote on the answer raised the rank of the question; taking the vote
    back leaves it above what it was. *)
Lemma root_rank_only_rises_witness :
  ∃ r1, post_row 0 demo_voted = Some r1 ∧ demo_q.(rank) ≤ r1.(rank).
Proof.
  destruct (root_rank_only_rises demo_a 0%nat demo_q demo_answered)
    as (Hrise & _).
  - vm_compute. reflexivity.
  - vm_compute. discriminate.
  - vm_compute. reflexivity.
  - vm_compute. reflexivity.
  - destruct (Hrise 1 (scored 1 1 false demo_a)
                (Some (root_scored 1 (scored 1 1 false demo_a) demo_q))
                (committed (post_score_change demo_a 1) demo_answered))
      as (r1 & Hr1 & Hle & _).
    + vm_compute. reflexivity.
    + exists r1. split; [|exact Hle].
      rewrite <- Hr1. vm_compute. reflexivity.
Defined.

End Examples.
(** * Tags: creation, the tag string, and the counts *)

Lemma filter_all {A} (P : A → Prop) `{!∀ x, Decision (P x)} (l : list A) :
  (∀ x, x ∈ l → P x) → filter P l = l.
Proof.
  induction l as [|x l IH]; intros Hall; [done|].
  rewrite filter_cons_True by (apply Hall; left).
  f_equal. apply IH. intros y Hy. apply Hall. by right.
Qed.

Section TagExtras.
Context `{Const} `{Collab} `{TagText}.

Lemma Tag_create_Some name count d :
  d.(tags) !! new_tag_pk d = None
  ∧ Tag_create name count d
    = Some (new_tag_pk d, with_tags <[new_tag_pk d := mkTag (new_tag_pk d) name 0]> d).
Proof.
  split; [apply not_elem_of_dom; apply (is_fresh (dom d.(tags)))|].
  unfold Tag_create, tag_created, Tag_update, bind, get_db, modify, ret. simpl.
  case_bool_decide as Hc; simpl.
  - unfold set_tag_count. simpl. rewrite Hc. done.
  - unfold with_tags. simpl. by rewrite insert_insert_eq.
Qed.

(** X1.  Creating a tag always succeeds, under a key that was free, and the
    stored row has the given name and count 0 whatever count was passed:
    [tag_created] zeroes it.  The other tags and the associations are as
    they were. *)
Theorem new_tag_count_zero name count d :
  ∃ pk d', Tag_create name count d = Some (pk, d')
    ∧ d.(tags) !! pk = None
    ∧ d'.(tags) = <[pk := mkTag pk name 0]> d.(tags)
    ∧ d'.(tag_set) = d.(tag_set).
Proof.
  destruct (Tag_create_Some name count d) as [Hfresh Hc].
  eexists _, _. split; [exact Hc|]. done.
Qed.

Lemma get_tag_update_names pk (f : Z → Z) :
  preserves same_names
    (do tag <- get_tag pk; Tag_update (set_tag_count (f tag.(tag_count)) tag)).
Proof.
  intros d u d' Hr. apply bind_Some in Hr as (tag & d1 & E & Hr).
  unfold get_tag in E. apply lift_opt_Some in E as [E ->].
  unfold Tag_update, modify in Hr. injection Hr as _ <-.
  unfold tag_row in E. destruct (tags d !! pk) as [row|] eqn:Hrow; [|done].
  injection E as <-. intros t. simpl. destruct (decide (pk = t)) as [->|Hne].
  - rewrite lookup_insert_eq, Hrow. done.
  - by rewrite lookup_insert_ne.
Qed.

Lemma tags_changed_preserves (R : relation DB) `{!PreOrder R} post action pks :
  (∀ pk (f : Z → Z),
     preserves R (do tag <- get_tag pk;
                  Tag_update (set_tag_count (f tag.(tag_count)) tag))) →
  action ≠ "pre_clear" →
  preserves R (tags_changed post action pks).
Proof.
  intros Hbody Hne. unfold tags_changed.
  rewrite (bool_decide_false (action = "pre_clear")) by done.
  apply preserves_bind; [apply _ | | intros _].
  { apply preserves_when; [apply _|].
    apply preserves_bind; [apply _ | apply preserves_lift_opt; apply _ | intros ids].
    apply preserves_for_each; [apply _ | intros pk _].
    apply (Hbody _ (λ c, c + 1)). }
  apply preserves_bind; [apply _ | | intros _].
  { apply preserves_when; [apply _|].
    apply preserves_bind; [apply _ | apply preserves_lift_opt; apply _ | intros ids].
    apply preserves_for_each; [apply _ | intros pk _].
    apply (Hbody _ (λ c, c - 1)). }
  apply preserves_ret. apply _.
Qed.

Lemma get_tag_update_frame {X} (proj : DB → X) pk (f : Z → Z) :
  (∀ g d, proj (with_tags g d) = proj d) →
  preserves (same proj)
    (do tag <- get_tag pk; Tag_update (set_tag_count (f tag.(tag_count)) tag)).
Proof.
  intros Hproj d u d' Hr. apply bind_Some in Hr as (tag & d1 & E & Hr).
  unfold get_tag in E. apply lift_opt_Some in E as [E ->].
  unfold Tag_update, modify in Hr. injection Hr as _ <-. apply Hproj.
Qed.

Lemma tag_set_add_Some post pks d d' :
  tag_set_add post pks d = Some (tt, d') →
  d'.(tag_set) = d.(tag_set) ++
    ((λ t, (post, t)) <$> remove_dups (filter (λ t, (post, t) ∉ d.(tag_set)) pks))
  ∧ same_names d d' ∧ d'.(posts) = d.(posts).
Proof.
  unfold tag_set_add. intros Hr.
  apply bind_Some in Hr as (d0 & d1 & E & Hr).
  unfold get_db in E. injection E as <- <-.
  apply bind_Some in Hr as (u & d1 & E & Hr).
  rewrite tags_changed_pre_add in E. injection E as _ <-.
  apply bind_Some in Hr as (u1 & d1 & E & Hr). unfold modify in E. injection E as _ <-.
  split_and!.
  - apply (tags_changed_preserves (same tag_set)) in Hr as ->; [done | | done].
    intros pk f. by apply get_tag_update_frame.
  - apply (tags_changed_preserves same_names) in Hr; [done | | done].
    apply get_tag_update_names.
  - apply (tags_changed_preserves (same posts)) in Hr as ->; [done | | done].
    intros pk f. by apply get_tag_update_frame.
Qed.

(** The loop of [tags_changed] for [pre_clear] leaves the names alone. *)
Lemma decr_loop_names (objs : list Tag) d0 d d' :
  (∀ o, o ∈ objs → tag_name <$> d0.(tags) !! o.(tag_id) = Some o.(tag_name)) →
  same_names d0 d →
  for_each objs (λ tag, Tag_update (set_tag_count (tag.(tag_count) - 1) tag)) d
  = Some (tt, d') →
  same_names d0 d' ∧ d'.(tag_set) = d.(tag_set) ∧ d'.(posts) = d.(posts).
Proof.
  revert d. induction objs as [|o objs IH]; intros d Hobjs Hn Hr; simpl in Hr.
  - unfold ret in Hr. by injection Hr as <-.
  - apply bind_Some in Hr as (u & d1 & E & Hr).
    unfold Tag_update, modify in E. injection E as _ <-.
    apply IH in Hr as (Hn' & -> & ->); [done | |].
    + intros o' Ho'. apply Hobjs. by right.
    + intros t. simpl. destruct (decide (o.(tag_id) = t)) as [<-|Hne].
      * rewrite lookup_insert_eq. simpl. symmetry. apply Hobjs. left.
      * rewrite lookup_insert_ne by done. apply Hn.
Qed.

Lemma tag_set_clear_Some post d d' :
  tag_set_clear post d = Some (tt, d') →
  d'.(tag_set) = filter (λ r, r.1 ≠ post) d.(tag_set)
  ∧ same_names d d' ∧ d'.(posts) = d.(posts).
Proof.
  unfold tag_set_clear. intros Hr.
  apply bind_Some in Hr as ([] & d1 & E & Hr).
  rewrite tags_changed_pre_clear in E.
  apply (decr_loop_names _ d) in E as (Hn & Hts & Hp); [| |done].
  - apply bind_Some in Hr as (u1 & d2 & E & Hr). unfold modify in E.
    injection E as _ <-. rewrite tags_changed_post_clear in Hr.
    injection Hr as <-. simpl. by rewrite Hts.
  - intros o [_ Ho]%elem_of_tags_of_post. unfold tag_row in Ho.
    destruct (tags d !! tag_id o) as [row|]; [|done]. by injection Ho as <-.
Qed.

(** X2.  In a state where no association is stored twice, every
    association is to a stored tag and every count is the number of posts
    that carry the tag, adding stored tags to a post succeeds and leaves
    such a state: [tags_changed] raises the count of exactly the tags that
    are newly associated.  Afterwards the post carries the tags it had and
    the tags added. *)
Theorem tag_set_add_keeps_counts post pks d :
  tag_set_wf d → counts_match d →
  (∀ t, t ∈ pks → is_Some (d.(tags) !! t)) →
  ∃ d', tag_set_add post pks d = Some (tt, d')
    ∧ tag_set_wf d' ∧ counts_match d'
    ∧ ∀ q t, (q, t) ∈ d'.(tag_set) ↔ (q, t) ∈ d.(tag_set) ∨ (q = post ∧ t ∈ pks).
Proof.
  intros Hwf Hcm Hpks.
  destruct (tag_set_add_counts post pks d Hwf Hcm Hpks) as (d' & Hr & Hwf' & Hcm').
  exists d'. split_and!; [done..|].
  apply tag_set_add_Some in Hr as (-> & _ & _). intros q t.
  rewrite elem_of_app, list_elem_of_fmap. split.
  - intros [?|(x & [= -> ->] & Hx)]; [by left|]. right.
    rewrite elem_of_remove_dups in Hx. by apply list_elem_of_filter in Hx as [_ ?].
  - intros [?|[-> Ht]]; [by left|].
    destruct (decide ((post, t) ∈ d.(tag_set))) as [|Hn]; [by left|].
    right. exists t. split; [done|].
    rewrite elem_of_remove_dups. by apply list_elem_of_filter.
Qed.

(** X3.  In such a state, clearing the tags of a post succeeds and leaves
    such a state: [tags_changed], on [pre_clear], lowers the count of each
    tag the post carries by one, and the associations of the post go. *)
Theorem tag_set_clear_keeps_counts post d :
  tag_set_wf d → counts_match d →
  ∃ d', tag_set_clear post d = Some (tt, d')
    ∧ tag_set_wf d' ∧ counts_match d'
    ∧ d'.(tag_set) = filter (λ r, r.1 ≠ post) d.(tag_set).
Proof.
  intros Hwf Hcm.
  destruct (tag_set_clear_counts post d Hwf Hcm) as (d' & Hr & Hwf' & Hcm').
  exists d'. split_and!; [done..|].
  by apply tag_set_clear_Some in Hr as (-> & _ & _).
Qed.

(** ** [get_or_create] *)

Lemma tags_named_spec name d pk :
  pk ∈ tags_named name d ↔
  ∃ row, d.(tags) !! pk = Some row ∧ row.(tag_name) = name.
Proof.
  unfold tags_named. rewrite list_elem_of_fmap. split.
  - intros ([k row] & -> & Hin). apply list_elem_of_filter in Hin as [Hn Hin].
    apply elem_of_map_to_list in Hin. eauto.
  - intros (row & Hrow & Hn). exists (pk, row). split; [done|].
    apply list_elem_of_filter. split; [done|]. by apply elem_of_map_to_list.
Qed.

Lemma Tag_get_or_create_Some name d pk d' :
  Tag_get_or_create name d = Some (pk, d') →
  grown d d' [pk] [name]
  ∧ (∃ row, d'.(tags) !! pk = Some row ∧ row.(tag_name) = name)
  ∧ (∀ t row, d'.(tags) !! t = Some row → row.(tag_name) = name → t = pk).
Proof.
  unfold Tag_get_or_create. intros Hr.
  apply bind_Some in Hr as (d0 & d1 & E & Hr).
  unfold get_db in E. injection E as <- <-.
  destruct (tags_named name d) as [|k [|k' ks]] eqn:Hnamed; [| |done].
  - destruct (Tag_create_Some name 0 d) as [Hfresh Hc].
    rewrite Hc in Hr. injection Hr as <- <-.
    set (pk := new_tag_pk d) in *.
    assert (tags (with_tags <[pk := mkTag pk name 0]> d)
            = <[pk := mkTag pk name 0]> d.(tags)) as Htags by done.
    assert (∀ t0 row0, d.(tags) !! t0 = Some row0 → row0.(tag_name) ≠ name) as Hnone.
    { intros t0 row0 Hrow0 Hn.
      assert (t0 ∈ tags_named name d) as Hin by (apply tags_named_spec; eauto).
      rewrite Hnamed in Hin. by apply not_elem_of_nil in Hin. }
    split_and!.
    + split_and!; [| done | done |].
      * rewrite Htags. by apply insert_subseteq.
      * intros t row Hrow Hnew. rewrite Htags in Hrow.
        destruct (decide (pk = t)) as [->|Hne].
        -- rewrite lookup_insert_eq in Hrow. injection Hrow as <-. simpl.
           split_and!; [left | left | done | done].
        -- rewrite lookup_insert_ne in Hrow by done. congruence.
    + rewrite Htags, lookup_insert_eq. eauto.
    + intros t row Hrow Hn. rewrite Htags in Hrow.
      destruct (decide (pk = t)) as [->|Hne]; [done|].
      rewrite lookup_insert_ne in Hrow by done. by apply Hnone in Hrow.
  - unfold ret in Hr. injection Hr as <- <-.
    assert (k ∈ tags_named name d) as Hk by (rewrite Hnamed; left).
    apply tags_named_spec in Hk. split_and!; [|done|].
    + split_and!; [done..|]. intros t row Hrow Hnew. congruence.
    + intros t row Hrow Hn.
      assert (t ∈ tags_named name d) as Hin by (apply tags_named_spec; eauto).
      rewrite Hnamed in Hin. by apply list_elem_of_singleton in Hin.
Qed.

Lemma get_or_create_all names d pks d' :
  map_M Tag_get_or_create names d = Some (pks, d') →
  grown d d' pks names
  ∧ Forall2 (λ n t, ∃ row, d'.(tags) !! t = Some row ∧ row.(tag_name) = n) names pks
  ∧ (∀ t row, d'.(tags) !! t = Some row → row.(tag_name) ∈ names → t ∈ pks).
Proof.
  revert d pks. induction names as [|n rest IH]; intros d pks Hr; simpl in Hr.
  - unfold ret in Hr. injection Hr as <- <-. split_and!.
    + split_and!; [done..|]. intros t row Hrow Hnone. congruence.
    + constructor.
    + intros t row _ Hn. by apply not_elem_of_nil in Hn.
  - apply bind_Some in Hr as (pk & d1 & E & Hr).
    apply bind_Some in Hr as (pks' & d2 & Erest & Hr).
    unfold ret in Hr. injection Hr as <- <-.
    apply Tag_get_or_create_Some in E
      as ((Hsub1 & Hts1 & Hp1 & Hnew1) & (row1 & Hrow1 & Hname1) & Huniq1).
    apply IH in Erest as ((Hsub2 & Hts2 & Hp2 & Hnew2) & Hall & Hback).
    split_and!.
    + split_and!; [by etrans | congruence | congruence |].
      intros t row Hrow Hnone. destruct (d1.(tags) !! t) as [r1|] eqn:Hr1.
      * rewrite (lookup_weaken _ _ _ _ Hr1 Hsub2) in Hrow. injection Hrow as <-.
        destruct (Hnew1 _ _ Hr1 Hnone) as (Hin & Hn & Hc & Hold).
        apply list_elem_of_singleton in Hin as ->.
        apply list_elem_of_singleton in Hn.
        split_and!; [left | rewrite Hn; left | done | done].
      * destruct (Hnew2 _ _ Hrow Hr1) as (Hin & Hn & Hc & Hold).
        split_and!; [by right | by right | done |].
        intros t0 row0 Hrow0. apply (Hold t0). by eapply lookup_weaken.
    + constructor; [|done]. exists row1. split; [|done]. by eapply lookup_weaken.
    + intros t row Hrow [Hn|Hn]%elem_of_cons; [|right; by eapply Hback].
      destruct (d1.(tags) !! t) as [r1|] eqn:Hr1.
      * rewrite (lookup_weaken _ _ _ _ Hr1 Hsub2) in Hrow. injection Hrow as <-.
        rewrite (Huniq1 _ _ Hr1 Hn). left.
      * destruct (Hnew2 _ _ Hrow Hr1) as (_ & _ & _ & Hold).
        exfalso. eapply Hold; [exact Hrow1|]. congruence.
Qed.

(** Tags that are new and not associated keep the counts right. *)
Lemma grown_counts d d' new names :
  grown d d' new names → tag_set_wf d → counts_match d →
  tag_set_wf d' ∧ counts_match d'.
Proof.
  intros (Hsub & Hts & _ & Hnew) [Hnd Hfk] Hcm. split; [split|].
  - by rewrite Hts.
  - intros r. rewrite Hts. intros [row Hrow]%Hfk.
    exists row. by eapply lookup_weaken.
  - intros t row Hrow. unfold posts_tagged. rewrite Hts.
    destruct (d.(tags) !! t) as [r0|] eqn:Hr0.
    + rewrite (lookup_weaken _ _ _ _ Hr0 Hsub) in Hrow. injection Hrow as <-.
      by apply Hcm.
    + destruct (Hnew _ _ Hrow Hr0) as (_ & _ & -> & _).
      rewrite filter_none; [done|]. intros r Hr Ht. subst t.
      apply Hfk in Hr as [? ?]. congruence.
Qed.

Lemma Post_update_tags p : preserves (same tags) (Post_update p).
Proof. frame. Qed.
Lemma Post_update_tag_set p : preserves (same tag_set) (Post_update p).
Proof. frame. Qed.

Lemma Post_save_tags p : preserves (same tags) (Post_save p).
Proof.
  intros d a d' Hr. unfold Post_save in Hr. destruct (posts d !! post_id p).
  - by apply Post_update_tags in Hr.
  - revert d a d' Hr.
    change (preserves (same tags) (do pk <- Post_insert p.(post_id) false p; get_post pk)).
    unfold Post_insert, finalize_post, post_create_notification,
      create_revision_with, Post_apply, send_note.
    frame.
Qed.

Lemma Post_save_tag_set p : preserves (same tag_set) (Post_save p).
Proof.
  intros d a d' Hr. unfold Post_save in Hr. destruct (posts d !! post_id p).
  - by apply Post_update_tag_set in Hr.
  - revert d a d' Hr.
    change (preserves (same tag_set)
              (do pk <- Post_insert p.(post_id) false p; get_post pk)).
    unfold Post_insert, finalize_post, post_create_notification,
      create_revision_with, Post_apply, send_note.
    frame.
Qed.

(** X4.  [Post.set_tags] on a post whose type is not content-only, in such
    a state: when it returns, the state is again such a state, the tags of
    the post are exactly the stored tags whose name is one of
    [get_tag_names], and the tags of the other posts are as they were. *)
Theorem set_tags_counts p d d' :
  tag_set_wf d → counts_match d →
  p.(type) ∉ POST_CONTENT_ONLY →
  set_tags p d = Some (tt, d') →
  tag_set_wf d' ∧ counts_match d'
  ∧ (∀ t, (p.(post_id), t) ∈ d'.(tag_set) ↔
          ∃ row, d'.(tags) !! t = Some row ∧ row.(tag_name) ∈ get_tag_names p)
  ∧ (∀ q t, q ≠ p.(post_id) → (q, t) ∈ d'.(tag_set) ↔ (q, t) ∈ d.(tag_set)).
Proof.
  intros Hwf Hcm Hty. unfold set_tags. rewrite bool_decide_false by done.
  intros Hr.
  apply bind_Some in Hr as ([] & d1 & Eclear & Hr).
  apply bind_Some in Hr as (pks & d2 & Eall & Hr).
  apply bind_Some in Hr as ([] & d3 & Eadd & Hr).
  apply bind_Some in Hr as (p' & d4 & Esave & Hr).
  unfold ret in Hr. injection Hr as <-.
  (* clearing *)
  destruct (tag_set_clear_counts p.(post_id) d Hwf Hcm) as (d1' & Eclear' & Hwf1 & Hcm1).
  rewrite Eclear in Eclear'. injection Eclear' as <-.
  apply tag_set_clear_Some in Eclear as (Hts1 & _ & _).
  (* the tags of the names *)
  apply get_or_create_all in Eall as (Hgrown & Hall & Hback).
  destruct (grown_counts _ _ _ _ Hgrown Hwf1 Hcm1) as [Hwf2 Hcm2].
  destruct Hgrown as (_ & Hts2 & _ & _).
  assert (∀ t, t ∈ pks →
            ∃ row, d2.(tags) !! t = Some row ∧ row.(tag_name) ∈ get_tag_names p)
    as Hpks.
  { intros t Ht. apply list_elem_of_lookup in Ht as [i Hi].
    destruct (Forall2_lookup_r _ _ _ _ _ Hall Hi) as (n & Hn & row & Hrow & <-).
    exists row. split; [done|]. by eapply list_elem_of_lookup_2. }
  (* adding them *)
  destruct (tag_set_add_counts p.(post_id) pks d2 Hwf2 Hcm2) as (d3' & Eadd' & Hwf3 & Hcm3).
  { intros t Ht. destruct (Hpks _ Ht) as (row & -> & _). eauto. }
  rewrite Eadd in Eadd'. injection Eadd' as <-.
  apply tag_set_add_Some in Eadd as (Hts3 & Hnames3 & _).
  (* the save *)
  pose proof (Post_save_tags _ _ _ _ Esave) as Ht4.
  pose proof (Post_save_tag_set _ _ _ _ Esave) as Hts4.
  unfold same in Ht4, Hts4.
  assert (∀ t, (p.(post_id), t) ∉ d2.(tag_set)) as Hcleared.
  { intros t. rewrite Hts2, Hts1. intros [Hne _]%list_elem_of_filter. done. }
  assert (∀ q t, (q, t) ∈ d4.(tag_set) ↔
                 (q ≠ p.(post_id) ∧ (q, t) ∈ d.(tag_set))
                 ∨ (q = p.(post_id) ∧ t ∈ pks)) as Hassoc.
  { intros q t. rewrite Hts4, Hts3, elem_of_app, list_elem_of_fmap.
    rewrite Hts2, Hts1, list_elem_of_filter. simpl. split.
    - intros [?|(x & [= -> ->] & Hx)]; [by left|]. right. split; [done|].
      rewrite elem_of_remove_dups in Hx. by apply list_elem_of_filter in Hx as [_ ?].
    - intros [?|[-> Ht]]; [by left|]. right. exists t. split; [done|].
      rewrite elem_of_remove_dups. apply list_elem_of_filter. split; [|done].
      rewrite <- Hts1, <- Hts2. apply Hcleared. }
  split_and!.
  - destruct Hwf3 as [Hnd Hfk]. split; [by rewrite Hts4|].
    intros r. rewrite Hts4, Ht4. apply Hfk.
  - intros t row. unfold posts_tagged. rewrite Ht4, Hts4. apply Hcm3.
  - intros t. rewrite Hassoc. split.
    + intros [[? _]|[_ Ht]]; [done|]. destruct (Hpks _ Ht) as (row & Hrow & Hn).
      pose proof (Hnames3 t) as Hn3. rewrite Hrow, <- Ht4 in Hn3.
      destruct (d4.(tags) !! t) as [row4|]; [|done]. injection Hn3 as Hn3.
      exists row4. split; [done|]. by rewrite Hn3.
    + intros (row & Hrow & Hn). right. split; [done|].
      pose proof (Hnames3 t) as Hn3. rewrite <- Ht4, Hrow in Hn3.
      destruct (d2.(tags) !! t) as [row2|] eqn:Hrow2; [|done]. injection Hn3 as Hn3.
      apply (Hback _ _ Hrow2). by rewrite <- Hn3.
  - intros q t Hq. rewrite Hassoc. split.
    + intros [[_ ?]|[? _]]; done.
    + intros ?. by left.
Qed.

End TagExtras.

(** * Awards *)

Section Awards.
Context `{Const} `{Collab}.

Lemma Award_apply_Some a dir d d' :
  Award_apply a dir d = Some (tt, d') →
  ∃ b pr, d.(badges) !! a.(award_badge) = Some b
    ∧ d.(profiles) !! a.(award_user) = Some pr
    ∧ d' = with_badges <[a.(award_badge) := set_badge_count (b.(badge_count) + dir) b]>
             (with_profiles <[a.(award_user) := update_profile (tallied b.(badge_type) dir pr)]>
                (with_applied (λ l, l ++ [(EAward a.(award_id), dir)]) d)).
Proof.
  unfold Award_apply, log_apply, get_badge, get_profile, profile_save.
  intros Hr.
  apply bind_Some in Hr as (u & d1 & E & Hr). unfold modify in E. injection E as _ <-.
  apply bind_Some in Hr as (b & d1 & E & Hr). apply lift_opt_Some in E as [Hb ->].
  apply bind_Some in Hr as (pr & d1 & E & Hr). apply lift_opt_Some in E as [Hpr ->].
  apply bind_Some in Hr as (u1 & d1 & E & Hr). unfold modify in E. injection E as _ <-.
  unfold modify in Hr. injection Hr as <-.
  exists b, pr. split_and!; done.
Qed.

Lemma Award_apply_total a dir d b pr :
  d.(badges) !! a.(award_badge) = Some b →
  d.(profiles) !! a.(award_user) = Some pr →
  Award_apply a dir d
  = Some (tt, with_badges <[a.(award_badge) := set_badge_count (b.(badge_count) + dir) b]>
             (with_profiles <[a.(award_user) := update_profile (tallied b.(badge_type) dir pr)]>
                (with_applied (λ l, l ++ [(EAward a.(award_id), dir)]) d))).
Proof.
  intros Hb Hpr.
  unfold Award_apply, log_apply, get_badge, get_profile, profile_save, bind, modify,
    lift_opt.
  simpl. rewrite Hb. simpl. rewrite Hpr. done.
Qed.

Lemma new_award_pk_fresh d a : a ∈ d.(awards) → a.(award_id) ≠ new_award_pk d.
Proof.
  unfold new_award_pk. intros Ha.
  assert (a.(award_id) ≤ foldr Nat.max 0 (award_id <$> d.(awards)))%nat; [|lia].
  induction (awards d) as [|x l IH]; [by apply not_elem_of_nil in Ha|].
  rewrite fmap_cons. simpl. apply elem_of_cons in Ha as [->|Ha]; [lia|].
  specialize (IH Ha). lia.
Qed.

Lemma Award_create_Some badge user date d a d' :
  Award_create false badge user date d = Some (a, d') →
  ∃ b pr,
    d.(badges) !! badge = Some b ∧ d.(profiles) !! user = Some pr
    ∧ a = mkAward (new_award_pk d) badge user (Some (default now date))
    ∧ d'.(awards) = d.(awards) ++ [a]
    ∧ d'.(badges) = <[badge := set_badge_count (b.(badge_count) + 1) b]> d.(badges)
    ∧ d'.(profiles)
      = <[user := update_profile (tallied b.(badge_type) 1 pr)]> d.(profiles).
Proof.
  unfold Award_create, create_award, apply_instance. simpl. intros Hr.
  apply bind_Some in Hr as (d0 & d1 & E & Hr). unfold get_db in E. injection E as <- <-.
  apply bind_Some in Hr as (u & d1 & E & Hr). unfold modify in E. injection E as _ <-.
  apply bind_Some in Hr as ([] & d1 & E & Hr).
  unfold ret in Hr. injection Hr as <- <-.
  apply Award_apply_Some in E as (b & pr & Hb & Hpr & ->).
  exists b, pr. split_and!; done.
Qed.

Lemma tallied_tier ty dir pr :
  let pr' := update_profile (tallied ty dir pr) in
  (ty = BADGE_BRONZE →
     pr'.(bronze_badges) = pr.(bronze_badges) + dir
     ∧ pr'.(silver_badges) = pr.(silver_badges)
     ∧ pr'.(gold_badges) = pr.(gold_badges))
  ∧ (ty = BADGE_SILVER →
     pr'.(bronze_badges) = pr.(bronze_badges)
     ∧ pr'.(silver_badges) = pr.(silver_badges) + dir
     ∧ pr'.(gold_badges) = pr.(gold_badges))
  ∧ (ty = BADGE_GOLD →
     pr'.(bronze_badges) = pr.(bronze_badges)
     ∧ pr'.(silver_badges) = pr.(silver_badges)
     ∧ pr'.(gold_badges) = pr.(gold_badges) + dir)
  ∧ (ty ∉ [BADGE_BRONZE; BADGE_SILVER; BADGE_GOLD] →
     pr'.(bronze_badges) = pr.(bronze_badges)
     ∧ pr'.(silver_badges) = pr.(silver_badges)
     ∧ pr'.(gold_badges) = pr.(gold_badges)).
Proof.
  pose proof badge_types_distinct as Hd.
  apply NoDup_cons in Hd as [Hbs Hd]. apply NoDup_cons in Hd as [Hsg _].
  rewrite !not_elem_of_cons in Hbs. rewrite !not_elem_of_cons in Hsg.
  destruct Hbs as (Hbs & Hbg & _). destruct Hsg as (Hsg & _).
  simpl. split_and!.
  - intros ->. repeat case_bool_decide; try congruence. done.
  - intros ->. repeat case_bool_decide; try congruence. done.
  - intros ->. repeat case_bool_decide; try congruence. done.
  - rewrite !not_elem_of_cons. intros (? & ? & ? & _).
    rewrite !bool_decide_false by done. done.
Qed.

(** X5.  When an award is created (not raw), its date is the one given or
    else the present time, the badge and the profile of the user are
    stored, the count of the badge goes up by one, and of the three tallies
    of the profile the one of the badge's type goes up by one and the
    others stay; none moves for a badge of another type. *)
Theorem award_effect badge user date d a d' :
  Award_create false badge user date d = Some (a, d') →
  a.(award_date) = Some (default now date)
  ∧ a ∈ d'.(awards)
  ∧ ∃ b pr pr',
      d.(badges) !! badge = Some b
      ∧ d.(profiles) !! user = Some pr
      ∧ d'.(profiles) !! user = Some pr'
      ∧ badge_count <$> d'.(badges) !! badge = Some (b.(badge_count) + 1)
      ∧ (b.(badge_type) = BADGE_BRONZE →
           pr'.(bronze_badges) = pr.(bronze_badges) + 1
           ∧ pr'.(silver_badges) = pr.(silver_badges)
           ∧ pr'.(gold_badges) = pr.(gold_badges))
      ∧ (b.(badge_type) = BADGE_SILVER →
           pr'.(bronze_badges) = pr.(bronze_badges)
           ∧ pr'.(silver_badges) = pr.(silver_badges) + 1
           ∧ pr'.(gold_badges) = pr.(gold_badges))
      ∧ (b.(badge_type) = BADGE_GOLD →
           pr'.(bronze_badges) = pr.(bronze_badges)
           ∧ pr'.(silver_badges) = pr.(silver_badges)
           ∧ pr'.(gold_badges) = pr.(gold_badges) + 1)
      ∧ (b.(badge_type) ∉ [BADGE_BRONZE; BADGE_SILVER; BADGE_GOLD] →
           pr'.(bronze_badges) = pr.(bronze_badges)
           ∧ pr'.(silver_badges) = pr.(silver_badges)
           ∧ pr'.(gold_badges) = pr.(gold_badges)).
Proof.
  intros Hc. apply Award_create_Some in Hc as (b & pr & Hb & Hpr & Ha & Haw & Hbd & Hpf).
  split_and!.
  - by rewrite Ha.
  - rewrite Haw. apply elem_of_app. right. left.
  - exists b, pr. eexists. split; [done|]. split; [done|].
    split; [rewrite Hpf; apply lookup_insert_eq|].
    split; [by rewrite Hbd, lookup_insert_eq|].
    apply tallied_tier.
Qed.

Lemma tallied_back ty pr :
  let pr' := update_profile (tallied ty (-1) (update_profile (tallied ty 1 pr))) in
  pr'.(bronze_badges) = pr.(bronze_badges)
  ∧ pr'.(silver_badges) = pr.(silver_badges)
  ∧ pr'.(gold_badges) = pr.(gold_badges)
  ∧ pr'.(prof_score) = pr.(prof_score)
  ∧ pr'.(new_messages) = pr.(new_messages)
  ∧ pr'.(prof_status) = pr.(prof_status).
Proof.
  simpl. repeat case_bool_decide; split_and!; try done; lia.
Qed.

(** X6.  Deleting an award that has just been created succeeds and brings
    back the badges, the awards and, for every user, the tallies, the
    reputation and the unread counter of the profile. *)
Theorem award_round_trip badge user date d a d1 :
  Award_create false badge user date d = Some (a, d1) →
  ∃ d2, Award_delete a d1 = Some (tt, d2)
    ∧ d2.(badges) = d.(badges)
    ∧ d2.(awards) = d.(awards)
    ∧ (∀ u, u ≠ user → d2.(profiles) !! u = d.(profiles) !! u)
    ∧ ∃ pr pr', d.(profiles) !! user = Some pr ∧ d2.(profiles) !! user = Some pr'
        ∧ pr'.(bronze_badges) = pr.(bronze_badges)
        ∧ pr'.(silver_badges) = pr.(silver_badges)
        ∧ pr'.(gold_badges) = pr.(gold_badges)
        ∧ pr'.(prof_score) = pr.(prof_score)
        ∧ pr'.(new_messages) = pr.(new_messages).
Proof.
  intros Hc. apply Award_create_Some in Hc as (b & pr & Hb & Hpr & Ha & Haw & Hbd & Hpf).
  assert (d1.(badges) !! a.(award_badge)
          = Some (set_badge_count (b.(badge_count) + 1) b)) as Hb1.
  { rewrite Hbd, Ha. simpl. apply lookup_insert_eq. }
  assert (d1.(profiles) !! a.(award_user)
          = Some (update_profile (tallied b.(badge_type) 1 pr))) as Hpr1.
  { rewrite Hpf, Ha. simpl. apply lookup_insert_eq. }
  eexists. split.
  { unfold Award_delete, unapply_instance, bind, modify.
    erewrite Award_apply_total; [reflexivity | exact Hb1 | exact Hpr1]. }
  cbn [badges profiles awards with_badges with_profiles with_applied with_awards].
  rewrite Ha. cbn [award_badge award_user award_id].
  split_and!.
  - rewrite Hbd, insert_insert_eq. apply insert_id. rewrite Hb. f_equal.
    destruct b. unfold set_badge_count. simpl. f_equal. lia.
  - rewrite Haw, filter_app, filter_cons_False by (rewrite Ha; simpl; by intros ?).
    rewrite filter_nil, app_nil_r. apply filter_all.
    intros x Hx. by apply new_award_pk_fresh.
  - intros u Hu. rewrite Hpf, !lookup_insert_ne by done. done.
  - eexists _, _. split; [exact Hpr|]. split; [apply lookup_insert_eq|].
    destruct (tallied_back b.(badge_type) pr) as (? & ? & ? & ? & ? & ?).
    done.
Qed.
End Awards.

(** * Creating posts: replies and thread links *)

Section Replies.
Context `{Const} `{Collab}.

Lemma verified_idemp p : verified (verified p) = verified p.
Proof.
  unfold verified. destruct p as [? ? ? ? ? ? ? ? ? ? cd ld eu ? ? ? ? ? ? ? ? ? rk].
  simpl. destruct eu, cd, ld; simpl; repeat case_bool_decide;
    unfold set_verified; simpl; congruence.
Qed.

Lemma verified_links p : links (verified p) = links p.
Proof. done. Qed.

Lemma settled_verified p : settled (links p) (verified p).
Proof. split; [done | apply verified_idemp]. Qed.

Lemma Post_update_other k p :
  k ≠ p.(post_id) → preserves (same (λ d, d.(posts) !! k)) (Post_update p).
Proof.
  intros Hk d a d' Hr. apply Post_update_Some in Hr as [_ ->].
  unfold same. simpl. by rewrite lookup_insert_ne.
Qed.

Lemma Post_update_keeps pk P p :
  (p.(post_id) = pk → P (verified p)) → preserves (keeps pk P) (Post_update p).
Proof.
  intros HP d a d' Hr. apply Post_update_Some in Hr as [_ ->].
  intros (row & Hrow & Hrow'). simpl. destruct (decide (p.(post_id) = pk)) as [E|E].
  - rewrite E, lookup_insert_eq. eauto.
  - rewrite lookup_insert_ne by done. eauto.
Qed.

Lemma send_note_row {X} (f : gmap nat Post → X) s t x ty un dt b u :
  preserves (same (λ d, f d.(posts))) (send_note s t x ty un dt b u).
Proof. unfold send_note. frame. Qed.

Lemma send_note_keeps pk P s t x ty un dt b u :
  preserves (keeps pk P) (send_note s t x ty un dt b u).
Proof.
  intros d a d' Hr. destruct a. apply send_note_inv in Hr as [Hp _].
  unfold keeps. by rewrite Hp.
Qed.

Ltac frame_posts :=
  repeat first
    [ apply Post_update_other; done
    | apply Post_update_keeps; intros _; split; [done | apply verified_idemp]
    | match goal with |- keeps _ _ _ _ => by intros ? end
    | apply send_note_row
    | apply send_note_keeps
    | apply get_absolute_url_preserves; apply _
    | match goal with
      | |- preserves _ (related_post _) => unfold related_post
      | |- preserves _ (get_post _) => unfold get_post
      | |- preserves _ (λ d, lift_opt _ d) => apply preserves_reader; apply _
      end
    | preserves_step; simpl ].

Lemma announced_other k inst raw :
  k ≠ inst.(post_id) →
  preserves (same (λ d, d.(posts) !! k)) (announced inst raw).
Proof.
  intros Hk. unfold announced, post_create_notification, create_revision_with.
  frame_posts.
Qed.

Lemma announced_keeps inst raw :
  preserves (keeps inst.(post_id) (settled (links inst))) (announced inst raw).
Proof.
  unfold announced, post_create_notification, create_revision_with.
  frame_posts.
Qed.
Lemma first_char_nonempty s c : first_char s = Some c → c ≠ "".
Proof. destruct s; [done|]. by intros [= <-]. Qed.

Lemma append_nonempty (a b : string) : a ≠ "" → a +:+ b ≠ "".
Proof. by destruct a. Qed.

(** [finalize_post] on a created post: the defaults, then the notes and the
    revision. *)
Lemma finalize_post_created inst raw d d' :
  finalize_post inst true raw d = Some (tt, d') →
  ∃ inst1 d1,
    announced inst1 raw d1 = Some (tt, d')
    ∧ ((inst1 = inst ∧ d1 = d ∧ is_Some inst.(root) ∧ is_Some inst.(parent)
        ∧ inst.(title) ≠ "")
       ∨ (∃ ti, ti ≠ "" ∧ (inst.(title) ≠ "" → ti = inst.(title))
            ∧ inst1 = verified
                (set_defaults (Some (default inst.(post_id) inst.(root)))
                   (Some (default inst.(post_id) inst.(parent))) ti (slugify ti) inst)
            ∧ d1 = with_posts <[inst.(post_id) := inst1]> d)).
Proof.
  unfold finalize_post. intros Hr.
  apply bind_Some in Hr as (r & d1 & Er & Hr).
  apply related_post_Some in Er as [-> Er].
  apply bind_Some in Hr as (pa & d1 & Epa & Hr).
  apply related_post_Some in Epa as [-> Epa].
  apply bind_Some in Hr as (inst1 & d1 & E & Hr).
  exists inst1, d1. split; [exact Hr|]. clear Hr.
  destruct (bool_decide (is_Some r) && bool_decide (is_Some pa)
            && negb (bool_decide (inst.(title) = ""))) eqn:Hc.
  - unfold ret in E. injection E as <- <-. left.
    apply andb_prop in Hc as [Hc Ht]. apply andb_prop in Hc as [Hr Hp].
    apply bool_decide_eq_true_1 in Hr, Hp. apply negb_true_iff in Ht.
    apply bool_decide_eq_false_1 in Ht.
    split_and!; [done | done | | | done].
    + destruct (root inst); [eauto|]. subst r. by destruct Hr.
    + destruct (parent inst); [eauto|]. subst pa. by destruct Hp.
  - right. apply bind_Some in E as (ti & d2 & Eti & E).
    apply Post_update_Some in E as [-> ->]. simpl.
    case_bool_decide as Ht.
    + apply bind_Some in Eti as (c & d3 & Ec & Eti).
      apply lift_opt_Some in Ec as [Ec ->]. unfold ret in Eti.
      injection Eti as <- <-. eexists. split_and!; [| | reflexivity | reflexivity].
      * apply append_nonempty. by eapply first_char_nonempty.
      * intros ?. done.
    + unfold ret in Eti. injection Eti as <- <-. eexists.
      split_and!; [exact Ht | done | reflexivity | reflexivity].
Qed.

(** The insertion of a post: the row, [Post.apply] unless [raw], and
    [finalize_post]. *)
Lemma Post_insert_Some pk raw p d r d' :
  Post_insert pk raw p d = Some (r, d') →
  ∃ d1, r = pk
    ∧ apply_instance (Post_apply (verified (set_post_id pk p))) true raw
        (with_posts <[pk := verified (set_post_id pk p)]> d) = Some (tt, d1)
    ∧ finalize_post (verified (set_post_id pk p)) true raw d1 = Some (tt, d').
Proof.
  unfold Post_insert. intros Hr.
  apply bind_Some in Hr as (p' & d1 & E & Hr).
  apply verify_post_Some in E as [-> ->].
  apply bind_Some in Hr as (u & d1 & E & Hr). unfold modify in E. injection E as _ <-.
  apply bind_Some in Hr as ([] & d1 & E & Hr).
  apply bind_Some in Hr as ([] & d2 & E2 & Hr).
  unfold ret in Hr. injection Hr as <- <-. eauto.
Qed.

(** [Post.apply]: the row of the parent, for an answer or a comment. *)
Lemma Post_apply_Some p dir d d' :
  Post_apply p dir d = Some (tt, d') →
  if bool_decide (p.(type) = POST_ANSWER ∨ p.(type) = POST_COMMENT) then
    ∃ k pa, p.(parent) = Some k ∧ post_row k d = Some pa
      ∧ d'.(posts) = <[k := counted p.(type) dir pa]> d.(posts)
  else d'.(posts) = d.(posts).
Proof.
  unfold Post_apply, log_apply. intros Hr.
  apply bind_Some in Hr as (u & d1 & E & Hr). unfold modify in E. injection E as _ <-.
  apply bind_Some in Hr as ([] & d1 & E1 & E2).
  pose proof post_types_distinct as Hd. unfold counted.
  destruct (decide (p.(type) = POST_ANSWER)) as [Ha|Ha].
  - rewrite bool_decide_true by (by left).
    rewrite (bool_decide_true _ Ha) in *.
    rewrite (bool_decide_false (type p = POST_COMMENT)) in * by congruence.
    simpl in E1, E2. unfold ret in E2. injection E2 as <-.
    apply bind_Some in E1 as (pa & d2 & E & E1).
    apply related_post_Some in E as [-> E].
    apply bind_Some in E1 as (pa' & d2 & E' & E1).
    apply lift_opt_Some in E' as [-> ->].
    destruct (parent p) as [k|]; [|done]. destruct E as (q & [= <-] & Hq).
    apply bind_Some in E1 as (x & d2 & E & E1). unfold ret in E1. injection E1 as <-.
    apply Post_update_Some in E as [_ ->].
    exists k, pa'. split_and!; [done | done |]. simpl.
    by rewrite (post_row_id _ _ _ Hq).
  - rewrite (bool_decide_false _ Ha) in *. simpl in E1.
    unfold ret in E1. injection E1 as <-.
    destruct (decide (p.(type) = POST_COMMENT)) as [Hc|Hc].
    + rewrite bool_decide_true by (by right).
      rewrite (bool_decide_true _ Hc) in *. simpl in E2.
      apply bind_Some in E2 as (pa & d2 & E & E1).
      apply related_post_Some in E as [-> E].
      apply bind_Some in E1 as (pa' & d2 & E' & E1).
      apply lift_opt_Some in E' as [-> ->].
      destruct (parent p) as [k|]; [|done]. destruct E as (q & [= <-] & Hq).
      apply bind_Some in E1 as (x & d2 & E & E1). unfold ret in E1. injection E1 as <-.
      apply Post_update_Some in E as [_ ->].
      exists k, pa'. split_and!; [done | done |]. simpl.
      by rewrite (post_row_id _ _ _ Hq).
    + rewrite bool_decide_false by (by intros [?|?]).
      rewrite (bool_decide_false _ Hc) in *. simpl in E2.
      unfold ret in E2. by injection E2 as <-.
Qed.

Lemma counted_fields ty dir pa :
  (counted ty dir pa).(answer_count)
  = pa.(answer_count) + (if bool_decide (ty = POST_ANSWER) then dir else 0)
  ∧ (counted ty dir pa).(comment_count)
    = pa.(comment_count) + (if bool_decide (ty = POST_COMMENT) then dir else 0)
  ∧ links (counted ty dir pa) = links pa
  ∧ (counted ty dir pa).(post_id) = pa.(post_id).
Proof.
  unfold counted. repeat case_bool_decide; simpl; split_and!; try done; lia.
Qed.

Lemma new_post_pk_fresh d : d.(posts) !! new_post_pk d = None.
Proof. apply not_elem_of_dom. apply (is_fresh (dom d.(posts))). Qed.

Lemma Post_create_Some raw p d pk d' :
  Post_create raw p d = Some (pk, d') →
  pk = new_post_pk d ∧ Post_insert pk raw p d = Some (pk, d').
Proof.
  unfold Post_create. intros Hr.
  apply bind_Some in Hr as (d0 & d1 & E & Hr). unfold get_db in E.
  injection E as <- <-.
  pose proof Hr as Hr'. apply Post_insert_Some in Hr' as (d1 & -> & _). done.
Qed.

(** X7.  When a post is created whose parent is a stored post, the
    [answer_count] of the parent goes up by one if the post is an answer,
    its [comment_count] goes up by one if the post is a comment, and
    otherwise, or when the post is loaded raw, both are as they were. *)
Theorem reply_counted raw p k pa d pk d' :
  p.(parent) = Some k →
  d.(posts) !! k = Some pa →
  Post_create raw p d = Some (pk, d') →
  ∃ row, d'.(posts) !! k = Some row
    ∧ row.(answer_count)
      = pa.(answer_count)
        + (if negb raw && bool_decide (p.(type) = POST_ANSWER) then 1 else 0)
    ∧ row.(comment_count)
      = pa.(comment_count)
        + (if negb raw && bool_decide (p.(type) = POST_COMMENT) then 1 else 0).
Proof.
  intros Hpa Hk Hc. apply Post_create_Some in Hc as [Hpk Hc].
  assert (k ≠ pk) as Hne.
  { intros ->. rewrite Hpk, new_post_pk_fresh in Hk. done. }
  apply Post_insert_Some in Hc as (d1 & _ & Eapply & Efin).
  set (p' := verified (set_post_id pk p)) in *.
  assert (∃ row, d1.(posts) !! k = Some row
    ∧ row.(answer_count)
      = pa.(answer_count)
        + (if negb raw && bool_decide (p.(type) = POST_ANSWER) then 1 else 0)
    ∧ row.(comment_count)
      = pa.(comment_count)
        + (if negb raw && bool_decide (p.(type) = POST_COMMENT) then 1 else 0))
    as (row & Hrow & Hac & Hcc).
  { destruct raw; simpl in Eapply.
    - unfold ret in Eapply. injection Eapply as <-. simpl.
      rewrite lookup_insert_ne by done. exists pa. split_and!; [done | lia | lia].
    - apply Post_apply_Some in Eapply. change (type p') with (type p) in Eapply.
      change (parent p') with (parent p) in Eapply. simpl.
      case_bool_decide as Hty.
      + destruct Eapply as (k' & pa' & Hk' & Hrow' & ->).
        rewrite Hpa in Hk'. injection Hk' as <-.
        unfold post_row in Hrow'. simpl in Hrow'.
        rewrite lookup_insert_ne, Hk in Hrow' by done. injection Hrow' as <-.
        rewrite lookup_insert_eq. eexists. split; [done|].
        destruct (counted_fields p.(type) 1 (set_post_id k pa)) as (-> & -> & _).
        done.
      + rewrite Eapply. simpl. rewrite lookup_insert_ne by done.
        exists pa. rewrite !bool_decide_false by (intros ?; apply Hty; auto).
        split_and!; [done | lia | lia]. }
  apply finalize_post_created in Efin as (inst1 & d2 & Ean & Hdef).
  assert (inst1.(post_id) = pk ∧ d2.(posts) !! k = d1.(posts) !! k) as [Hid Hsame].
  { destruct Hdef as [(-> & -> & _)|(ti & _ & _ & -> & ->)]; [done|].
    simpl. by rewrite lookup_insert_ne. }
  apply (announced_other k) in Ean; [|by rewrite Hid].
  unfold same in Ean. exists row. by rewrite Ean, Hsame.
Qed.

(** The row of a created post: a row as a save leaves it, with the links
    of the post as [finalize_post] has completed them. *)
Lemma Post_create_settled raw p d pk d' :
  Post_create raw p d = Some (pk, d') →
  ∃ inst1 row,
    d'.(posts) !! pk = Some row ∧ settled (links inst1) row
    ∧ inst1.(root) = Some (default pk p.(root))
    ∧ inst1.(parent) = Some (default pk p.(parent))
    ∧ inst1.(title) ≠ ""
    ∧ (p.(title) ≠ "" → inst1.(title) = p.(title))
    ∧ inst1.(type) = p.(type) ∧ inst1.(author) = p.(author)
    ∧ inst1.(content) = p.(content).
Proof.
  intros Hc. apply Post_create_Some in Hc as [Hpk Hc].
  apply Post_insert_Some in Hc as (d1 & _ & Eapply & Efin).
  set (p' := verified (set_post_id pk p)) in *.
  assert (∃ row, d1.(posts) !! pk = Some row ∧ settled (links p') row) as Hrow1.
  { destruct raw; simpl in Eapply.
    - unfold ret in Eapply. injection Eapply as <-. simpl.
      rewrite lookup_insert_eq. eexists. split; [done|].
      apply (settled_verified (set_post_id pk p)).
    - apply Post_apply_Some in Eapply. case_bool_decide as Hty.
      + destruct Eapply as (k & pa & Hk & Hrow & ->). simpl.
        destruct (decide (k = pk)) as [->|Hne].
        * rewrite lookup_insert_eq. eexists. split; [done|].
          unfold post_row in Hrow. simpl in Hrow. rewrite lookup_insert_eq in Hrow.
          injection Hrow as <-.
          assert (set_post_id pk p' = p') as -> by done.
          unfold counted. repeat case_bool_decide;
            first [ split; [done | apply verified_idemp]
                  | apply (settled_verified (set_post_id pk p)) ].
        * rewrite lookup_insert_ne, lookup_insert_eq by done.
          eexists. split; [done|]. apply (settled_verified (set_post_id pk p)).
      + rewrite Eapply. simpl. rewrite lookup_insert_eq.
        eexists. split; [done|]. apply (settled_verified (set_post_id pk p)). }
  apply finalize_post_created in Efin as (inst1 & d2 & Ean & Hdef).
  assert (inst1.(post_id) = pk
          ∧ (∃ row, d2.(posts) !! pk = Some row ∧ settled (links inst1) row)
          ∧ inst1.(root) = Some (default pk p.(root))
          ∧ inst1.(parent) = Some (default pk p.(parent))
          ∧ inst1.(title) ≠ ""
          ∧ (p.(title) ≠ "" → inst1.(title) = p.(title))
          ∧ inst1.(type) = p.(type) ∧ inst1.(author) = p.(author)
          ∧ inst1.(content) = p.(content))
    as (Hid & Hrow2 & Hroot & Hparent & Hti & Hti' & Hty & Hau & Hco).
  { destruct Hdef as [(-> & -> & [r Hr] & [q Hq] & Ht)|(ti & Hti & Hti' & -> & ->)].
    - change (root p') with (root p) in *. change (parent p') with (parent p) in *.
      rewrite Hr, Hq. split_and!; done.
    - split_and!; try done. simpl. rewrite lookup_insert_eq.
      eexists. split; [done|]. split; [done | apply verified_idemp]. }
  apply announced_keeps in Ean. rewrite Hid in Ean.
  destruct (Ean Hrow2) as (row & Hrow & Hset).
  exists inst1, row. split_and!; done.
Qed.

(** The other rows when a post is created: the links of every one of them
    are kept, and a row that is not the parent of the post is kept as it
    is. *)
Lemma Post_create_others raw p d pk d' i :
  Post_create raw p d = Some (pk, d') →
  i ≠ pk →
  links <$> d'.(posts) !! i = links <$> d.(posts) !! i
  ∧ (p.(parent) ≠ Some i → d'.(posts) !! i = d.(posts) !! i).
Proof.
  intros Hc Hi. apply Post_create_Some in Hc as [Hpk Hc].
  apply Post_insert_Some in Hc as (d1 & _ & Eapply & Efin).
  set (p' := verified (set_post_id pk p)) in *.
  assert (links <$> d1.(posts) !! i = links <$> d.(posts) !! i
          ∧ (p.(parent) ≠ Some i → d1.(posts) !! i = d.(posts) !! i)) as [Hl1 Hs1].
  { destruct raw; simpl in Eapply.
    - unfold ret in Eapply. injection Eapply as <-. simpl.
      by rewrite lookup_insert_ne.
    - apply Post_apply_Some in Eapply. change (parent p') with (parent p) in Eapply.
      case_bool_decide as Hty.
      + destruct Eapply as (k & pa & Hk & Hrow & ->). simpl.
        unfold post_row in Hrow. simpl in Hrow.
        destruct (decide (k = i)) as [->|Hne].
        * rewrite lookup_insert_eq. rewrite lookup_insert_ne in Hrow by done.
          split; [|by intros ?].
          destruct (posts d !! i) as [row|]; [|done]. injection Hrow as <-.
          simpl. f_equal.
          destruct (counted_fields p.(type) 1 (set_post_id i row)) as (_ & _ & Hl & _).
          exact Hl.
        * by rewrite !lookup_insert_ne.
      + rewrite Eapply. simpl. by rewrite lookup_insert_ne. }
  apply finalize_post_created in Efin as (inst1 & d2 & Ean & Hdef).
  assert (inst1.(post_id) = pk ∧ d2.(posts) !! i = d1.(posts) !! i) as [Hid Hsame].
  { destruct Hdef as [(-> & -> & _)|(ti & _ & _ & -> & ->)]; [done|].
    simpl. by rewrite lookup_insert_ne. }
  apply (announced_other i) in Ean; [|by rewrite Hid].
  unfold same in Ean. rewrite Ean, Hsame. split; [done|].
  intros Hp. by apply Hs1.
Qed.

(** X8.  A post that has been created is stored under a key that was free,
    with a root and a parent: the ones given, and itself where none was
    given.  Its title is not empty: the one given, or one made from the
    type and the title of the parent.  Type, author and content are as
    given; slug and HTML are derived from title and content; creation
    date, last-edit date and editor are set. *)
Theorem created_post_links raw p d pk d' :
  Post_create raw p d = Some (pk, d') →
  d.(posts) !! pk = None
  ∧ ∃ row, d'.(posts) !! pk = Some row
      ∧ row.(root) = Some (default pk p.(root))
      ∧ row.(parent) = Some (default pk p.(parent))
      ∧ row.(title) ≠ ""
      ∧ (p.(title) ≠ "" → row.(title) = p.(title))
      ∧ row.(type) = p.(type) ∧ row.(author) = p.(author)
      ∧ row.(content) = p.(content)
      ∧ row.(slug) = slugify row.(title)
      ∧ row.(html) = html_generate (py_strip row.(content))
      ∧ is_Some row.(creation_date) ∧ is_Some row.(lastedit_date)
      ∧ is_Some row.(lastedit_user).
Proof.
  intros Hc. split.
  { apply Post_create_Some in Hc as [-> _]. apply new_post_pk_fresh. }
  apply Post_create_settled in Hc
    as (inst1 & row & Hrow & [Hl Hv] & Hroot & Hparent & Hti & Hti' & Hty & Hau & Hco).
  exists row. split; [done|].
  unfold links in Hl. injection Hl as Hl1 Hl2 Hl3 Hl4 Hl5 Hl6.
  split_and!; try congruence.
  - intros Ht. rewrite Hl3. by apply Hti'.
  - rewrite <- Hv at 1. done.
  - rewrite <- Hv at 1. done.
  - rewrite <- Hv. simpl. eauto.
  - rewrite <- Hv. simpl. eauto.
  - rewrite <- Hv. simpl. destruct (lastedit_user row); eauto.
Qed.

(** X25.  Creating a post changes the thread links, title, type, author and
    content of no other post, and leaves every other post but its parent
    exactly as it was. *)
Theorem created_post_leaves_others raw p d pk d' :
  Post_create raw p d = Some (pk, d') →
  ∀ i, i ≠ pk →
    links <$> d'.(posts) !! i = links <$> d.(posts) !! i
    ∧ (p.(parent) ≠ Some i → d'.(posts) !! i = d.(posts) !! i).
Proof.
  intros Hc i Hi. pose proof (Post_create_others _ _ _ _ _ i Hc Hi) as [Hl Hs].
  split; [exact Hl | exact Hs].
Qed.

(** X26.  When a comment on a stored post has been created, [comments] of
    that post lists it besides the comments listed before, and no other
    post: the listed keys are the new key and the old ones. *)
Theorem new_comment_listed raw p k par d pk d' :
  p.(type) = POST_COMMENT →
  p.(parent) = Some k →
  par.(post_id) = k →
  Post_create raw p d = Some (pk, d') →
  ∀ i, i ∈ post_id <$> comments par d' ↔
       i = pk ∨ i ∈ post_id <$> comments par d.
Proof.
  intros Hty Hpa Hk Hc i.
  assert (∀ e j, j ∈ post_id <$> comments par e ↔
                 ∃ row, e.(posts) !! j = Some row
                        ∧ row.(parent) = Some k ∧ row.(type) = POST_COMMENT)
    as Hlisted.
  { intros e j. unfold comments. rewrite list_elem_of_fmap, Hk. split.
    - intros (q & -> & Hq). apply list_elem_of_filter in Hq as [[Hp Ht] Hq].
      apply elem_of_all_posts in Hq. unfold post_row in Hq.
      destruct (posts e !! post_id q) as [row|]; [|done]. injection Hq as Hq.
      exists row. rewrite <- Hq in Hp, Ht. done.
    - intros (row & Hrow & Hp & Ht). exists (set_post_id j row).
      split; [done|]. apply list_elem_of_filter. split; [done|].
      apply elem_of_all_posts. unfold post_row. simpl. by rewrite Hrow. }
  rewrite !Hlisted.
  pose proof (Post_create_settled _ _ _ _ _ Hc)
    as (inst1 & row & Hrow & [Hl _] & _ & Hparent & _ & _ & Hty1 & _).
  unfold links in Hl. injection Hl as _ Hl2 _ Hl4 _ _.
  assert (d.(posts) !! pk = None) as Hfresh.
  { apply Post_create_Some in Hc as [-> _]. apply new_post_pk_fresh. }
  split.
  - intros (r & Hr & Hp & Ht). destruct (decide (i = pk)) as [|Hne]; [by left|].
    right. destruct (Post_create_others _ _ _ _ _ i Hc Hne) as [Hlinks _].
    rewrite Hr in Hlinks. destruct (posts d !! i) as [r0|]; [|done].
    simpl in Hlinks. unfold links in Hlinks.
    assert (parent r = parent r0 ∧ type r = type r0) as [Hp0 Ht0]
      by (split; congruence).
    exists r0. split; [done|]. split; congruence.
  - intros [->|(r0 & Hr0 & Hp & Ht)].
    + exists row. split; [done|]. rewrite Hl2, Hparent, Hpa, Hl4, Hty1. done.
    + assert (i ≠ pk) as Hne by congruence.
      destruct (Post_create_others _ _ _ _ _ i Hc Hne) as [Hlinks _].
      rewrite Hr0 in Hlinks. destruct (posts d' !! i) as [r|]; [|done].
      simpl in Hlinks. unfold links in Hlinks.
      assert (parent r = parent r0 ∧ type r = type r0) as [Hp1 Ht1]
        by (split; congruence).
      exists r. split; [done|]. split; congruence.
Qed.

End Replies.

(** * Saving posts *)

Section Saving.
Context `{Const} `{Collab}.

Lemma verify_post_inv p d p' d' :
  verify_post p d = Some (p', d') → saveable p d.
Proof.
  unfold verify_post, saveable. intros Hr.
  apply bind_Some in Hr as ([] & d1 & E & _).
  destruct (top_level p); [by left|]. right.
  apply bind_Some in E as (r & d2 & Er & E).
  apply related_post_Some in Er as [-> Er].
  apply bind_Some in E as (pa & d2 & Epa & E).
  apply related_post_Some in Epa as [-> Epa].
  case_bool_decide as Hc; [|done]. destruct Hc as [[r' ->] [pa' ->]].
  unfold fk_stored. split.
  - destruct (root p) as [k|]; [|done]. destruct Er as (q & _ & Hq).
    exists k. split; [done|]. by eapply post_row_stored.
  - destruct (parent p) as [k|]; [|done]. destruct Epa as (q & _ & Hq).
    exists k. split; [done|]. by eapply post_row_stored.
Qed.

Lemma verify_post_None p d : ¬ saveable p d → verify_post p d = None.
Proof.
  intros Hn. destruct (verify_post p d) as [[p' d']|] eqn:E; [|done].
  exfalso. apply Hn. by eapply verify_post_inv.
Qed.

(** X9.  A post that is not top-level and whose root or parent is missing,
    or is not stored, cannot be saved or created: [verify_post] raises, and
    [save] and [create] with it. *)
Theorem unsaveable_post_rejected raw p d :
  ¬ saveable p d →
  Post_update p d = None ∧ Post_save p d = None ∧ Post_create raw p d = None.
Proof.
  intros Hn.
  assert (Post_update p d = None) as Hu.
  { unfold Post_update, bind. by rewrite verify_post_None. }
  assert (∀ pk, Post_insert pk raw p d = None) as Hi.
  { intros pk. unfold Post_insert, bind. rewrite verify_post_None; [done|].
    intros Hs. apply Hn. eapply saveable_ext; [..|exact Hs]; done. }
  split_and!; [done | |].
  - unfold Post_save. destruct (posts d !! post_id p); [done|].
    unfold Post_insert, bind. rewrite verify_post_None; [done|].
    intros Hs. apply Hn. eapply saveable_ext; [..|exact Hs]; done.
  - unfold Post_create, bind, get_db. apply Hi.
Qed.

(** X10.  A save of a stored post writes the post as [verify_post] leaves
    it: slug and HTML derived from title and content, dates and editor set,
    the rank kept when it is not 0 and set to the creation time when it is.
    Saving the result again changes nothing. *)
Theorem save_twice p d p' d' :
  Post_update p d = Some (p', d') →
  Post_update p' d' = Some (p', d')
  ∧ d'.(posts) !! p.(post_id) = Some p'
  ∧ p'.(slug) = slugify p.(title)
  ∧ p'.(html) = html_generate (py_strip p.(content))
  ∧ is_Some p'.(creation_date) ∧ is_Some p'.(lastedit_date)
  ∧ is_Some p'.(lastedit_user)
  ∧ (p.(rank) ≠ 0 → p'.(rank) = p.(rank))
  ∧ (p.(rank) = 0 → p'.(rank) = mktime (default now p.(creation_date))).
Proof.
  intros Hr. pose proof Hr as Hs.
  unfold Post_update in Hs. apply bind_Some in Hs as (q & d1 & Hs & _).
  apply verify_post_inv in Hs.
  apply Post_update_Some in Hr as [-> ->]. split_and!.
  - rewrite Post_update_saveable.
    + rewrite verified_idemp. f_equal. f_equal. unfold with_posts. simpl.
      f_equal. apply insert_insert_eq.
    + destruct Hs as [Ht|[Hr Hp]]; [by left|]. right.
      assert (∀ fk, fk_stored fk d →
                fk_stored fk (with_posts <[p.(post_id) := verified p]> d)) as Hst.
      { intros fk (k & -> & Hk). exists k. split; [done|]. simpl.
        destruct (decide (p.(post_id) = k)) as [->|Hne].
        - rewrite lookup_insert_eq. eauto.
        - by rewrite lookup_insert_ne. }
      split; by apply Hst.
  - simpl. apply lookup_insert_eq.
  - done.
  - done.
  - simpl. eauto.
  - simpl. eauto.
  - simpl. destruct (lastedit_user p); eauto.
  - intros Hrk. simpl. by rewrite bool_decide_false.
  - intros Hrk. simpl. by rewrite bool_decide_true.
Qed.
End Saving.

(** * Votes by type, and casting a vote *)

Section Votes.
Context `{Const} `{Collab}.

Lemma vote_bookmark_other :
  VOTE_BOOKMARK ≠ VOTE_UP ∧ VOTE_BOOKMARK ≠ VOTE_DOWN ∧ VOTE_BOOKMARK ≠ VOTE_ACCEPT.
Proof.
  pose proof vote_types_distinct as Hd.
  apply NoDup_cons in Hd as [Hu Hd]. apply NoDup_cons in Hd as [Hdn Hd].
  apply NoDup_cons in Hd as [Ha _].
  rewrite !not_elem_of_cons in Hu. rewrite !not_elem_of_cons in Hdn.
  rewrite !not_elem_of_cons in Ha.
  destruct Hu as (_ & _ & ? & _), Hdn as (_ & ? & _), Ha as (? & _).
  split_and!; congruence.
Qed.

(** [Vote.apply], by the type of the vote. *)
Lemma Vote_apply_cases v post dir d post' d' :
  Vote_apply v post dir d = Some (post', d') →
  ∃ rt, let d0 := with_applied (λ l, l ++ [(EVote v.(vote_id), dir)]) d in
    related_post post.(root) d = Some (rt, d)
    ∧ if bool_decide (v.(vote_type) = VOTE_UP) then
        ∃ rt' d1, post_score_change_cached post rt dir 1 d0 = Some ((post', rt'), d1)
          ∧ user_score_change post.(author) dir d1 = Some (tt, d')
      else if bool_decide (v.(vote_type) = VOTE_DOWN) then
        ∃ rt', post_score_change_cached post rt (- dir) 1 d0 = Some ((post', rt'), d')
      else if bool_decide (v.(vote_type) = VOTE_ACCEPT) then
        ∃ r d1, rt = Some r
          ∧ Post_update (set_accepted (bool_decide (dir = 1)) post) d0 = Some (post', d1)
          ∧ d' = with_posts <[r.(post_id) := verified (set_accepted (bool_decide (dir = 1)) r)]> d1
      else post' = post ∧ d' = d0.
Proof.
  unfold Vote_apply, log_apply. intros Hr.
  apply bind_Some in Hr as (u & d1 & E & Hr). unfold modify in E. injection E as _ <-.
  apply bind_Some in Hr as (rt & d1 & E & Hr).
  pose proof E as E'. apply related_post_Some in E' as [-> E'].
  exists rt. split.
  { clear Hr E. destruct (root post) as [k|]; [|by subst rt].
    destruct E' as (p & -> & Hp).
    change (post_row k d = Some p) in Hp.
    unfold related_post, bind, get_post, lift_opt. by rewrite Hp. }
  clear E E'. simpl.
  pose proof vote_up_not_down. pose proof vote_up_not_accept.
  pose proof vote_down_not_accept.
  destruct (decide (v.(vote_type) = VOTE_UP)) as [Hu|Hu].
  - rewrite (bool_decide_true _ Hu) in *.
    rewrite (bool_decide_false (vote_type v = VOTE_DOWN)) in Hr by congruence.
    rewrite (bool_decide_false (vote_type v = VOTE_ACCEPT)) in Hr by congruence.
    apply bind_Some in Hr as ([p1 rt1] & d1 & E & Hr).
    apply bind_Some in E as ([p2 rt2] & d2 & E & E2).
    apply bind_Some in E2 as ([] & d3 & E2 & E3). unfold ret in E3.
    injection E3 as <- <- <-.
    apply bind_Some in Hr as ([p3 rt3] & d4 & E3 & Hr). unfold ret in E3, Hr.
    injection E3 as <- <- <-. injection Hr as <- <-. eauto.
  - rewrite (bool_decide_false _ Hu) in *.
    apply bind_Some in Hr as ([p1 rt1] & d1 & E & Hr). unfold ret in E.
    injection E as <- <- <-.
    destruct (decide (v.(vote_type) = VOTE_DOWN)) as [Hd|Hd].
    + rewrite (bool_decide_true _ Hd) in *.
      rewrite (bool_decide_false (vote_type v = VOTE_ACCEPT)) in Hr by congruence.
      apply bind_Some in Hr as ([p3 rt3] & d3 & E3 & Hr). unfold ret in Hr.
      injection Hr as <- <-. eauto.
    + rewrite (bool_decide_false _ Hd) in *.
      apply bind_Some in Hr as ([p3 rt3] & d3 & E3 & Hr). unfold ret in E3.
      injection E3 as <- <- <-.
      case_bool_decide as Ha.
      * apply bind_Some in Hr as (r & d1 & E & Hr).
        apply lift_opt_Some in E as [-> ->].
        apply bind_Some in Hr as (p4 & d1 & E & Hr).
        apply bind_Some in Hr as (p5 & d2 & E5 & Hr). unfold ret in Hr.
        injection Hr as <- <-.
        apply Post_update_Some in E5 as [_ ->]. eauto.
      * unfold ret in Hr. by injection Hr as <- <-.
Qed.




(** X12.  Applying a bookmark vote changes nothing that is stored: no
    post, no profile.  Only the record of the call is added. *)
Theorem bookmark_vote_no_effect v post dir d post' d' :
  v.(vote_type) = VOTE_BOOKMARK →
  Vote_apply v post dir d = Some (post', d') →
  post' = post
  ∧ d' = with_applied (λ l, l ++ [(EVote v.(vote_id), dir)]) d.
Proof.
  intros Hty Hr. destruct vote_bookmark_other as (Hu & Hd & Ha).
  apply Vote_apply_cases in Hr as (rt & _ & Hr). simpl in Hr.
  rewrite !bool_decide_false in Hr by congruence. done.
Qed.

(** X13.  Applying an accept vote to a stored post sets [accepted] on the
    post and on the root of its thread to whether the direction is [1];
    the scores of both and all profiles are as they were.  The post has a
    root, or the call raises. *)
Theorem accept_vote_effect v post dir d post' d' :
  v.(vote_type) = VOTE_ACCEPT →
  post_row v.(vote_post) d = Some post →
  Vote_apply v post dir d = Some (post', d') →
  ∃ rid r0 row rrow,
    post.(root) = Some rid
    ∧ d.(posts) !! rid = Some r0
    ∧ d'.(posts) !! v.(vote_post) = Some row
    ∧ d'.(posts) !! rid = Some rrow
    ∧ row.(accepted) = bool_decide (dir = 1)
    ∧ rrow.(accepted) = bool_decide (dir = 1)
    ∧ row.(score) = post.(score) ∧ row.(full_score) = post.(full_score)
    ∧ rrow.(score) = r0.(score) ∧ rrow.(full_score) = r0.(full_score)
    ∧ d'.(profiles) = d.(profiles).
Proof.
  intros Hty Hrow Hr. pose proof (post_row_id _ _ _ Hrow) as Hid.
  apply Vote_apply_cases in Hr as (rt & Hrt & Hr). simpl in Hr.
  rewrite (bool_decide_false (vote_type v = VOTE_UP)) in Hr
    by (rewrite Hty; intros E; by apply vote_up_not_accept).
  rewrite (bool_decide_false (vote_type v = VOTE_DOWN)) in Hr
    by (rewrite Hty; intros E; by apply vote_down_not_accept).
  rewrite (bool_decide_true _ Hty) in Hr.
  destruct Hr as (r & d1 & -> & Hup & ->).
  apply Post_update_Some in Hup as [-> ->].
  apply related_post_Some in Hrt as [_ Hrt].
  destruct (root post) as [rid|]; [|done]. destruct Hrt as (q & [= <-] & Hq).
  pose proof (post_row_id _ _ _ Hq) as Hqid.
  unfold post_row in Hq, Hrow.
  destruct (posts d !! rid) as [r0|] eqn:Hr0; [|done]. injection Hq as <-.
  destruct (posts d !! vote_post v) as [p0|] eqn:Hp0; [|done]. injection Hrow as <-.
  simpl in *. exists rid, r0.
  destruct (decide (rid = v.(vote_post))) as [->|Hne].
  - rewrite Hp0 in Hr0. injection Hr0 as ->.
    eexists _, _. split_and!; [done | done | apply lookup_insert_eq
                              | apply lookup_insert_eq | done..].
  - eexists _, _. split; [done|]. split; [done|].
    split; [rewrite lookup_insert_ne, lookup_insert_eq; done|].
    split; [apply lookup_insert_eq|]. done.
Qed.

Lemma Vote_apply_id v post dir d post' d' :
  Vote_apply v post dir d = Some (post', d') → post'.(post_id) = post.(post_id).
Proof.
  intros Hr. apply Vote_apply_cases in Hr as (rt & _ & Hr). simpl in Hr.
  destruct (bool_decide (vote_type v = VOTE_UP));
    [|destruct (bool_decide (vote_type v = VOTE_DOWN));
      [|destruct (bool_decide (vote_type v = VOTE_ACCEPT))]].
  - destruct Hr as (rt' & d1 & Hsc & _).
    apply post_score_change_cached_Some in Hsc as [-> _]. apply scored_fields.
  - destruct Hr as (rt' & Hsc).
    apply post_score_change_cached_Some in Hsc as [-> _]. apply scored_fields.
  - destruct Hr as (r & d1 & _ & Hup & _).
    by apply Post_update_Some in Hup as [-> _].
  - by destruct Hr as [-> _].
Qed.

(** [vote.delete()]: the rows with the key of the vote go, the vote is
    unapplied, and [vote.post] is the post the vote was on. *)
Lemma Vote_delete_inv w d p d' :
  Vote_delete w d = Some (p, d') →
  d'.(votes) = filter (λ x, x.(vote_id) ≠ w.(vote_id)) d.(votes)
  ∧ p.(post_id) = w.(vote_post)
  ∧ d'.(applied) = d.(applied) ++ [(EVote w.(vote_id), -1)].
Proof.
  intros Hr. apply Vote_delete_Some in Hr as (post & Hrow & Hr).
  split_and!.
  - by apply Vote_apply_votes in Hr.
  - rewrite (Vote_apply_id _ _ _ _ _ _ Hr). by eapply post_row_id.
  - by apply Vote_apply_applied in Hr.
Qed.

Lemma filter_votes_cons (w : Vote) (ws : list Vote) (l : list Vote) :
  filter (λ x, x.(vote_id) ∉ vote_id <$> ws)
    (filter (λ x, x.(vote_id) ≠ w.(vote_id)) l)
  = filter (λ x, x.(vote_id) ∉ vote_id <$> (w :: ws)) l.
Proof.
  rewrite list_filter_filter. apply list_filter_iff. intros x.
  rewrite fmap_cons, not_elem_of_cons. tauto.
Qed.

(** The loop of [insert_vote] over the votes of the type cast. *)
Lemma delete_votes_loop vs d d' :
  for_each vs (λ w, do _ <- Vote_delete w; ret tt) d = Some (tt, d') →
  d'.(votes) = filter (λ x, x.(vote_id) ∉ vote_id <$> vs) d.(votes)
  ∧ d'.(applied) = d.(applied) ++ ((λ w, (EVote w.(vote_id), -1)) <$> vs).
Proof.
  revert d. induction vs as [|w ws IH]; intros d Hr; simpl in Hr.
  - unfold ret in Hr. injection Hr as <-. rewrite app_nil_r. split; [|done].
    symmetry. apply filter_all. intros x _. apply not_elem_of_nil.
  - apply bind_Some in Hr as ([] & d1 & E & Hr).
    apply bind_Some in E as (p & d2 & E & E'). unfold ret in E'. injection E' as <-.
    apply Vote_delete_inv in E as (Hv & _ & Ha).
    apply IH in Hr as [-> ->]. rewrite Hv, Ha, filter_votes_cons.
    by rewrite fmap_cons, <- app_assoc.
Qed.

(** The loop over the opposing votes. *)
Lemma delete_opposing_loop vs post d post' d' :
  delete_opposing vs post d = Some (post', d') →
  (∀ w, w ∈ vs → w.(vote_post) = post.(post_id)) →
  d'.(votes) = filter (λ x, x.(vote_id) ∉ vote_id <$> vs) d.(votes)
  ∧ post'.(post_id) = post.(post_id)
  ∧ d'.(applied) = d.(applied) ++ ((λ w, (EVote w.(vote_id), -1)) <$> vs).
Proof.
  revert d post. induction vs as [|w ws IH]; intros d post Hr Hvs; simpl in Hr.
  - unfold ret in Hr. injection Hr as <- <-. rewrite app_nil_r.
    split_and!; [|done..]. symmetry. apply filter_all. intros x _. apply not_elem_of_nil.
  - apply bind_Some in Hr as (p & d1 & E & Hr).
    apply Vote_delete_inv in E as (Hv & Hp & Ha).
    assert (p.(post_id) = post.(post_id)) as Hid
      by (rewrite Hp; apply Hvs; left).
    apply IH in Hr as (-> & -> & ->).
    + rewrite Hv, Ha, filter_votes_cons.
      by rewrite fmap_cons, <- app_assoc.
    + intros x Hx. rewrite Hid. apply Hvs. by right.
Qed.

Lemma elem_of_votes_of w pk user ty d :
  w ∈ votes_of pk user ty d ↔
  w ∈ d.(votes) ∧ w.(vote_post) = pk ∧ w.(vote_author) = user ∧ w.(vote_type) = ty.
Proof. unfold votes_of. rewrite list_elem_of_filter. tauto. Qed.

(** X14.  When the user has votes of the type cast on the post, however
    many, [insert_vote] deletes them all and stores none: it returns one of
    them with the message that the vote was removed, no vote of that type
    by the user on the post is left, and each deleted vote has been
    unapplied once. *)
Theorem insert_vote_removes_all post user ty d r d' :
  votes_of post.(post_id) user ty d ≠ [] →
  insert_vote post user ty d = Some (r, d') →
  r.1 ∈ votes_of post.(post_id) user ty d
  ∧ r.2 = get_vote_type_display ty +:+ " removed"
  ∧ votes_of post.(post_id) user ty d' = []
  ∧ d'.(votes) = filter (λ x, x.(vote_id) ∉
                              vote_id <$> votes_of post.(post_id) user ty d) d.(votes)
  ∧ d'.(applied) = d.(applied) ++
      ((λ w, (EVote w.(vote_id), -1)) <$> votes_of post.(post_id) user ty d).
Proof.
  intros Hne. unfold insert_vote. intros Hr.
  apply bind_Some in Hr as (d0 & d1 & E & Hr). unfold get_db in E.
  injection E as <- <-.
  destruct (last (votes_of post.(post_id) user ty d)) as [v|] eqn:Hlast;
    [|by apply last_None in Hlast].
  apply last_Some_elem_of in Hlast.
  apply bind_Some in Hr as ([] & d1 & E & Hr). unfold ret in Hr.
  injection Hr as <- <-. simpl.
  apply delete_votes_loop in E as [Hv Ha].
  split_and!; [done | | | done | done].
  - by apply elem_of_votes_of in Hlast as (_ & _ & _ & ->).
  - apply filter_none. intros x. rewrite Hv, list_elem_of_filter.
    intros [Hnin Hx] (Hp & Hu & Ht). apply Hnin.
    apply list_elem_of_fmap. exists x. split; [done|].
    by apply elem_of_votes_of.
Qed.

Lemma new_vote_pk_fresh d w : w ∈ d.(votes) → w.(vote_id) ≠ new_vote_pk d.
Proof.
  unfold new_vote_pk. intros Hw.
  assert (w.(vote_id) ≤ foldr Nat.max 0 (vote_id <$> d.(votes)))%nat; [|lia].
  induction (votes d) as [|x l IH]; [by apply not_elem_of_nil in Hw|].
  rewrite fmap_cons. simpl. apply elem_of_cons in Hw as [->|Hw]; [lia|].
  specialize (IH Hw). lia.
Qed.

(** X15.  When the user has no vote of the type cast on the post,
    [insert_vote] stores one, applies it once and reports it as added.
    Before that it deletes and unapplies the votes of the opposing type,
    when the type has one and its code is not 0: then no opposing vote by
    the user on the post is left.  An opposing type of code 0 fails the
    test [if opposing:], and its votes stay. *)
Theorem insert_vote_clears_opposing post user ty d r d' :
  votes_of post.(post_id) user ty d = [] →
  insert_vote post user ty d = Some (r, d') →
  r.2 = get_vote_type_display ty +:+ " added"
  ∧ r.1.(vote_post) = post.(post_id) ∧ r.1.(vote_author) = user
  ∧ r.1.(vote_type) = ty
  ∧ d'.(votes)
    = filter (λ x, x.(vote_id) ∉ vote_id <$> opposing_votes post user ty d) d.(votes)
      ++ [r.1]
  ∧ (∀ w, w ∈ d'.(votes) → w.(vote_id) = r.1.(vote_id) → w = r.1)
  ∧ votes_of post.(post_id) user ty d' = [r.1]
  ∧ d'.(applied) = d.(applied)
      ++ ((λ w, (EVote w.(vote_id), -1)) <$> opposing_votes post user ty d)
      ++ [(EVote r.1.(vote_id), 1)]
  ∧ (∀ opp, OPPOSING_VOTES ty = Some opp → opp ≠ ty →
       if bool_decide (opp ≠ 0) then votes_of post.(post_id) user opp d' = []
       else votes_of post.(post_id) user opp d' = votes_of post.(post_id) user opp d).
Proof.
  intros Hnone. unfold insert_vote. intros Hr.
  apply bind_Some in Hr as (d0 & d1 & E & Hr). unfold get_db in E.
  injection E as <- <-. rewrite Hnone in Hr. simpl in Hr.
  apply bind_Some in Hr as (post1 & d1 & Eopp & Hr).
  assert (d1.(votes) = filter (λ x, x.(vote_id) ∉
                                    vote_id <$> opposing_votes post user ty d) d.(votes)
          ∧ post1.(post_id) = post.(post_id)
          ∧ d1.(applied) = d.(applied)
              ++ ((λ w, (EVote w.(vote_id), -1)) <$> opposing_votes post user ty d))
    as (Hv1 & Hid1 & Ha1).
  { unfold opposing_votes.
    assert (votes d = filter (λ x, x.(vote_id) ∉ vote_id <$> @nil Vote) d.(votes)) as Hnil.
    { symmetry. apply filter_all. intros x _. apply not_elem_of_nil. }
    destruct (OPPOSING_VOTES ty) as [opp|].
    - case_bool_decide.
      + apply delete_opposing_loop in Eopp; [done|].
        intros w Hw. by apply elem_of_votes_of in Hw as (_ & ? & _).
      + unfold ret in Eopp. injection Eopp as <- <-. by rewrite app_nil_r.
    - unfold ret in Eopp. injection Eopp as <- <-. by rewrite app_nil_r. }
  apply bind_Some in Hr as (v & d2 & Ec & Hr). unfold ret in Hr.
  injection Hr as <- <-. simpl.
  unfold Vote_create, apply_instance in Ec. simpl in Ec.
  apply bind_Some in Ec as (p0 & d3 & E & Ec). apply get_post_Some in E as [_ ->].
  apply bind_Some in Ec as (d0 & d3 & E & Ec). unfold get_db in E.
  injection E as <- <-.
  apply bind_Some in Ec as (u & d3 & E & Ec). unfold modify in E. injection E as _ <-.
  apply bind_Some in Ec as ([] & d3 & E & Ec). unfold ret in Ec.
  injection Ec as <- <-.
  apply bind_Some in E as (p2 & d4 & E & E'). unfold ret in E'. injection E' as <-.
  pose proof (Vote_apply_votes _ _ _ _ _ _ E) as Hv2.
  pose proof (Vote_apply_applied _ _ _ _ _ _ E) as Ha2.
  unfold same in Hv2. simpl in Hv2, Ha2.
  set (v := mkVote (new_vote_pk d1) user post1.(post_id) ty) in *.
  split_and!; [done | done | done | done | by rewrite Hv2, Hv1 | | | |].
  - intros w. rewrite Hv2. intros [Hw|Hw%list_elem_of_singleton]%elem_of_app; [|done].
    intros Heq. by apply new_vote_pk_fresh in Hw.
  - unfold votes_of. rewrite Hv2, filter_app, Hv1.
    rewrite filter_none.
    + rewrite filter_cons_True by (by rewrite <- Hid1). done.
    + intros x [_ Hx]%list_elem_of_filter Hp.
      assert (x ∈ votes_of post.(post_id) user ty d) as Hin
        by (by apply elem_of_votes_of).
      rewrite Hnone in Hin. by apply not_elem_of_nil in Hin.
  - rewrite Ha2, Ha1. by rewrite <- app_assoc.
  - intros opp Hopp Hne. unfold votes_of at 1 2. rewrite Hv2, filter_app, Hv1.
    rewrite (filter_cons_False _ v) by (simpl; intros (_ & _ & ?); congruence).
    rewrite filter_nil, app_nil_r. unfold opposing_votes. rewrite Hopp.
    case_bool_decide as Hz.
    + apply filter_none. intros x [Hnin Hx]%list_elem_of_filter Hp.
      apply Hnin. apply list_elem_of_fmap. exists x. split; [done|].
      by apply elem_of_votes_of.
    + unfold votes_of. f_equal. apply filter_all. intros x _. apply not_elem_of_nil.
Qed.

End Votes.

(** * Notes and the unread counters *)

Section NotesMore.
Context `{Const} `{Collab}.

Lemma sync_kept_frame d d' :
  d'.(profiles) = d.(profiles) → d'.(notes) = d.(notes) → sync_kept d d'.
Proof.
  intros Hp Hn Hs u pr. rewrite Hp. intros Hpr%Hs. rewrite Hpr.
  unfold unread_for, note_count. simpl. by rewrite Hn.
Qed.

Lemma unread_for_snoc uid d n d' :
  d'.(notes) = d.(notes) ++ [n] →
  unread_for uid d'
  = unread_for uid d
    + (if bool_decide (n.(note_target) = uid ∧ n.(note_unread) = true) then 1 else 0).
Proof.
  intros Hn. unfold unread_for, note_count. simpl. rewrite Hn, filter_app, length_app.
  case_bool_decide as Hc.
  - rewrite filter_cons_True by done. simpl. lia.
  - rewrite filter_cons_False by done. simpl. lia.
Qed.

(** What [Note_create] does to the profiles. *)
Lemma Note_create_profiles sender target text ty unread date u d d' :
  Note_create sender target text ty unread date u d = Some (tt, d') →
  if unread then
    ∃ pr, d.(profiles) !! target = Some pr
      ∧ d'.(profiles)
        = <[target := update_profile (set_new_messages (pr.(new_messages) + 1) pr)]>
            d.(profiles)
  else d'.(profiles) = d.(profiles).
Proof.
  unfold Note_create, finalize_note, verify_note, profile_save. intros Hr.
  apply bind_Some in Hr as (x & d1 & E & Hr). unfold modify in E. injection E as _ <-.
  destruct unread; simpl in Hr.
  - apply bind_Some in Hr as (pr & d1 & E & Hr).
    apply get_profile_Some in E as [E ->]. unfold modify in Hr. injection Hr as <-.
    eauto.
  - unfold ret in Hr. by injection Hr as <-.
Qed.

Lemma Note_create_sync sender target text ty unread date u :
  preserves sync_kept (Note_create sender target text ty unread date u).
Proof.
  intros d [] d' Hr Hs.
  pose proof (Note_create_profiles _ _ _ _ _ _ _ _ _ Hr) as Hp.
  apply Note_create_inv in Hr as (Hn & _ & _).
  intros k pr' Hpr'. rewrite (unread_for_snoc _ _ _ _ Hn). simpl.
  destruct unread.
  - destruct Hp as (pr & Hpr & Hp). rewrite Hp in Hpr'.
    destruct (decide (target = k)) as [->|Hne].
    + rewrite lookup_insert_eq in Hpr'. injection Hpr' as <-.
      rewrite bool_decide_true by done. simpl. by rewrite (Hs _ _ Hpr).
    + rewrite lookup_insert_ne in Hpr' by done.
      rewrite bool_decide_false by (by intros [? _]). rewrite (Hs _ _ Hpr'). lia.
  - rewrite Hp in Hpr'. rewrite bool_decide_false by (by intros [_ ?]).
    rewrite (Hs _ _ Hpr'). lia.
Qed.

Lemma send_note_sync s t x ty un dt b u :
  preserves sync_kept (send_note s t x ty un dt b u).
Proof.
  unfold send_note.
  apply preserves_bind; [apply _ | apply Note_create_sync | intros _].
  apply preserves_when; [apply _|]. apply Note_create_sync.
Qed.

Lemma Post_update_sync p : preserves sync_kept (Post_update p).
Proof.
  intros d a d' Hr. apply Post_update_Some in Hr as [_ ->].
  by apply sync_kept_frame.
Qed.

Ltac frame_sync :=
  repeat first
    [ apply Post_update_sync
    | apply send_note_sync
    | apply get_absolute_url_preserves; apply _
    | match goal with
      | |- preserves _ (related_post _) => unfold related_post
      | |- preserves _ (get_post _) => unfold get_post
      | |- preserves _ (get_profile _) => unfold get_profile
      | |- preserves _ (λ d, lift_opt _ d) => apply preserves_reader; apply _
      | |- sync_kept _ _ => by apply sync_kept_frame
      end
    | preserves_step; simpl ].

Lemma post_create_notification_sync post :
  preserves sync_kept (post_create_notification post).
Proof. unfold post_create_notification. frame_sync. Qed.

Lemma Post_apply_sync p dir : preserves sync_kept (Post_apply p dir).
Proof. unfold Post_apply, log_apply. frame_sync. Qed.

Lemma create_revision_sync p :
  preserves sync_kept (create_revision_with Post_update p).
Proof. unfold create_revision_with. frame_sync. Qed.

Lemma finalize_post_sync inst created raw :
  preserves sync_kept (finalize_post inst created raw).
Proof.
  unfold finalize_post.
  repeat first [ apply post_create_notification_sync | apply create_revision_sync
               | progress frame_sync ].
Qed.

Lemma Post_insert_sync pk raw p : preserves sync_kept (Post_insert pk raw p).
Proof.
  unfold Post_insert, apply_instance.
  apply preserves_bind; [apply _ | apply verify_post_preserves; apply _ | intros p'].
  apply preserves_bind; [apply _ | | intros _].
  { apply preserves_modify. intros d. by apply sync_kept_frame. }
  apply preserves_bind; [apply _ | | intros _].
  { destruct raw; simpl; [apply preserves_ret; apply _ | apply Post_apply_sync]. }
  apply preserves_bind; [apply _ | apply finalize_post_sync | intros _].
  apply preserves_ret. apply _.
Qed.

(** X16.  In a state where the unread counter of every profile is the number
    of unread notes for its user, [send_note], the creation of a post (which
    notifies the thread) and [user_moderate] leave, when they return, a
    state where that is so again. *)
Theorem unread_counter_in_sync :
  (∀ s t x ty un dt b u d d',
     inbox_in_sync d → send_note s t x ty un dt b u d = Some (tt, d') →
     inbox_in_sync d')
  ∧ (∀ raw p d pk d',
       inbox_in_sync d → Post_create raw p d = Some (pk, d') → inbox_in_sync d')
  ∧ (∀ user target st d r d',
       inbox_in_sync d → user_moderate user target st d = Some (r, d') →
       inbox_in_sync d').
Proof.
  split_and!.
  - intros s t x ty un dt b u d d' Hs Hr. by eapply send_note_sync.
  - intros raw p d pk d' Hs Hr. unfold Post_create in Hr.
    apply bind_Some in Hr as (d0 & d1 & E & Hr). unfold get_db in E.
    injection E as <- <-. by eapply Post_insert_sync.
  - intros user target st d r d' Hs Hr. unfold user_moderate in Hr.
    destruct (negb (user_can_moderate user));
      [unfold ret in Hr; by injection Hr as _ <-|].
    apply bind_Some in Hr as (d0 & d1 & E & Hr). unfold get_db in E.
    injection E as <- <-.
    destruct (negb (authorize_user_edit user target d));
      [unfold ret in Hr; by injection Hr as _ <-|].
    apply bind_Some in Hr as (pr & d1 & E & Hr).
    apply get_profile_Some in E as [Hpr ->].
    apply bind_Some in Hr as (u & d1 & E & Hr).
    unfold profile_save, modify in E. injection E as _ <-.
    apply bind_Some in Hr as ([] & d2 & E & Hr). unfold ret in Hr.
    injection Hr as _ <-.
    eapply send_note_sync; [exact E|].
    intros k pr'. simpl. destruct (decide (target.(user_id) = k)) as [<-|Hne].
    + rewrite lookup_insert_eq. intros [= <-]. simpl. by apply Hs.
    + rewrite lookup_insert_ne by done. apply Hs.
Qed.
Lemma length_substring_le n s : (String.length (String.substring 0 n s) ≤ n)%nat.
Proof.
  revert s. induction n as [|n IH]; intros s; destruct s; simpl; try lia.
  specialize (IH s). lia.
Qed.

Lemma substring_all n s :
  (String.length s ≤ n)%nat → String.substring 0 n s = s.
Proof.
  revert s. induction n as [|n IH]; intros s Hs; destruct s; simpl in *;
    try done; try lia.
  f_equal. apply IH. lia.
Qed.

Lemma send_note_total s t x ty un dt both u d :
  (un = true → is_Some (d.(profiles) !! t)) →
  ∃ d', send_note s t x ty un dt both u d = Some (tt, d').
Proof.
  intros Hp. unfold send_note.
  destruct (Note_create_Some s t x NOTE_USER un (Some (default now dt))
              (String.substring 0 200 u) d Hp) as (d1 & E1 & _).
  unfold bind. rewrite E1. destruct both; simpl; [|eauto].
  destruct (Note_create_Some s s x ty false (Some (default now dt))
              (String.substring 0 200 u) d1) as (d2 & E2 & _); [done|]. eauto.
Qed.

(** What [send_note] does to the profiles. *)
Lemma send_note_profiles s t x ty un dt both u d d' :
  send_note s t x ty un dt both u d = Some (tt, d') →
  if un then
    ∃ pr, d.(profiles) !! t = Some pr
      ∧ d'.(profiles)
        = <[t := update_profile (set_new_messages (pr.(new_messages) + 1) pr)]>
            d.(profiles)
  else d'.(profiles) = d.(profiles).
Proof.
  unfold send_note. intros Hr. apply bind_Some in Hr as ([] & d1 & E1 & E2).
  pose proof (Note_create_profiles _ _ _ _ _ _ _ _ _ E1) as Hp1.
  assert (d'.(profiles) = d1.(profiles)) as Hp2.
  { destruct both; simpl in E2.
    - by apply Note_create_profiles in E2.
    - unfold ret in E2. by injection E2 as <-. }
  destruct un; [|congruence].
  destruct Hp1 as (pr & Hpr & Hp1). exists pr. by rewrite Hp2, Hp1.
Qed.

(** X17.  [send_note] raises the unread counter of the target by one when
    the note is unread and changes no profile otherwise; the copy for the
    sender never counts.  The number of unread notes of the target moves
    the same way.  The notes written carry the first 200 characters of the
    URL, the whole URL when it is no longer than that, and the given date
    or else the present time. *)
Theorem send_note_counters s t x ty un dt both u d d' :
  send_note s t x ty un dt both u d = Some (tt, d') →
  (if un then
     ∃ pr, d.(profiles) !! t = Some pr
       ∧ new_messages <$> d'.(profiles) !! t = Some (pr.(new_messages) + 1)
       ∧ ∀ k, k ≠ t → d'.(profiles) !! k = d.(profiles) !! k
   else d'.(profiles) = d.(profiles))
  ∧ (∀ k, unread_for k d'
          = unread_for k d + (if bool_decide (t = k ∧ un = true) then 1 else 0))
  ∧ (∀ n, n ∈ d'.(notes) → n ∈ d.(notes)
          ∨ (n.(note_url) = String.substring 0 200 u
             ∧ (String.length n.(note_url) ≤ 200)%nat
             ∧ ((String.length u ≤ 200)%nat → n.(note_url) = u)
             ∧ n.(note_date) = default now dt)).
Proof.
  intros Hr. pose proof (send_note_inv _ _ _ _ _ _ _ _ _ _ Hr) as [_ Hn].
  pose proof (send_note_profiles _ _ _ _ _ _ _ _ _ _ Hr) as Hp.
  split_and!.
  - destruct un; [|done].
    destruct Hp as (pr & Hpr & Hp). exists pr. rewrite Hp.
    split_and!; [done | by rewrite lookup_insert_eq |].
    intros k Hk. by rewrite lookup_insert_ne.
  - intros k. unfold unread_for, note_count. simpl. rewrite Hn.
    rewrite filter_app, length_app.
    set (P := λ n : Note, note_target n = k ∧ note_unread n = true).
    assert (∀ n l, length (filter P (n :: l))
                   = ((if bool_decide (P n) then 1 else 0) + length (filter P l))%nat)
      as Hcons.
    { intros n l. case_bool_decide;
        [rewrite filter_cons_True | rewrite filter_cons_False]; done. }
    rewrite Hcons. unfold P at 1. simpl.
    assert (length (filter P (if both
                              then [mkNote s s x (html_generate x) (default now dt)
                                      false ty (String.substring 0 200 u)]
                              else [])) = 0%nat) as ->.
    { destruct both; [|done]. rewrite Hcons. unfold P at 1. simpl.
      by rewrite bool_decide_false by (by intros [_ ?]). }
    subst P. cbv beta. cbn [note_target note_unread].
    repeat case_bool_decide; try lia; tauto.
  - intros n. rewrite Hn. intros [?|Hin]%elem_of_app; [by left|]. right.
    assert (n.(note_url) = String.substring 0 200 u
            ∧ n.(note_date) = default now dt) as [Hu Hd].
    { apply elem_of_cons in Hin as [->|Hin]; [done|].
      destruct both; [|by apply not_elem_of_nil in Hin].
      by apply list_elem_of_singleton in Hin as ->. }
    rewrite Hu. split_and!; [done | apply length_substring_le | | done].
    apply substring_all.
Qed.

(** X18.  A call of [user_moderate] by a user who can moderate and is
    authorized, on a target with a profile, returns [True] with the message
    of the new status.  The profile of the target has the new status and
    one unread message more; its reputation and type, the other profiles
    and the posts are as they were; a note for the target and a read copy
    of type [NOTE_MODERATOR] for the actor are written. *)
Theorem user_moderate_effect user target st d pr :
  user.(user_can_moderate) = true →
  authorize_user_edit user target d = true →
  d.(profiles) !! target.(user_id) = Some pr →
  ∃ d' pr',
    user_moderate user target st d
    = Some (PyPair true ("User status set to " +:+ get_profile_status_display st), d')
    ∧ d'.(profiles) !! target.(user_id) = Some pr'
    ∧ pr'.(prof_status) = st
    ∧ pr'.(new_messages) = pr.(new_messages) + 1
    ∧ pr'.(prof_score) = pr.(prof_score)
    ∧ pr'.(prof_type) = pr.(prof_type)
    ∧ (∀ k, k ≠ target.(user_id) → d'.(profiles) !! k = d.(profiles) !! k)
    ∧ d'.(posts) = d.(posts)
    ∧ d'.(notes) = d.(notes) ++
        [mkNote user.(user_id) target.(user_id) (user_moderator_action user target)
           (html_generate (user_moderator_action user target)) now true NOTE_USER
           (String.substring 0 200 user.(user_url));
         mkNote user.(user_id) user.(user_id) (user_moderator_action user target)
           (html_generate (user_moderator_action user target)) now false
           NOTE_MODERATOR (String.substring 0 200 user.(user_url))].
Proof.
  intros Hcm Hauth Hpr. unfold user_moderate. rewrite Hcm. simpl.
  unfold bind, get_db. rewrite Hauth. simpl.
  unfold get_profile, lift_opt. rewrite Hpr.
  unfold profile_save, modify.
  set (d1 := with_profiles
               <[target.(user_id) := update_profile (set_prof_status st pr)]> d).
  destruct (send_note_total user.(user_id) target.(user_id)
              (user_moderator_action user target) NOTE_MODERATOR true None true
              user.(user_url) d1) as (d' & Esend).
  { intros _. simpl. rewrite lookup_insert_eq. eauto. }
  rewrite Esend. simpl.
  pose proof (send_note_profiles _ _ _ _ _ _ _ _ _ _ Esend) as (pr1 & Hpr1 & Hp).
  apply send_note_inv in Esend as (Hposts & Hnotes).
  simpl in Hpr1. rewrite lookup_insert_eq in Hpr1. injection Hpr1 as <-.
  eexists _, _. split; [reflexivity|]. split_and!.
  - rewrite Hp. apply lookup_insert_eq.
  - done.
  - done.
  - done.
  - done.
  - intros k Hk. rewrite Hp. simpl. by rewrite !lookup_insert_ne.
  - by rewrite Hposts.
  - by rewrite Hnotes.
Qed.


End NotesMore.

(** * Views *)

Section Views.
Context `{Const} `{Collab}.


End Views.

(** * Revisions, again *)

Section RevisionsMore.
Context `{Const} `{Collab}.

Lemma Post_update_revisions p : preserves (same revisions) (Post_update p).
Proof. frame. Qed.

(** X20.  After [create_revision] on a stored post, all of whose earlier
    revisions are older than the present time, the content of the latest
    revision is the combined form of the post, and a further call for a
    post with the same combined form writes nothing. *)
Theorem create_revision_idempotent post again d d1 :
  is_Some (d.(posts) !! post.(post_id)) →
  (∀ r, r ∈ d.(revisions) → r.(rev_post) = post.(post_id) → r.(rev_date) < now) →
  create_revision post d = Some (tt, d1) →
  again.(post_id) = post.(post_id) →
  combine again = combine post →
  is_Some again.(lastedit_user) →
  create_revision again d1 = Some (tt, d1)
  ∧ prior_content post.(post_id) d1 = combine post.
Proof.
  intros Hstored Hdates Hr Hid Hcomb [ed2 Hed2].
  assert (prior_content post.(post_id) d1 = combine post) as Hprior.
  { unfold create_revision, create_revision_with in Hr.
    apply bind_Some in Hr as (d0 & d2 & E & Hr). unfold get_db in E.
    injection E as <- <-.
    apply bind_Some in Hr as (ed & d2 & E & Hr). apply lift_opt_Some in E as [Hed ->].
    fold (prior_content post.(post_id) d) in Hr.
    case_bool_decide as Hne.
    - apply bind_Some in Hr as (u & d2 & E & Hr). unfold modify in E.
      injection E as _ <-.
      apply bind_Some in Hr as (p' & d2 & E & Hr). unfold ret in Hr.
      injection Hr as <-.
      rewrite Post_save_stored in E by done.
      apply Post_update_revisions in E. unfold same in E. simpl in E.
      unfold prior_content.
      pose proof (latest_revision_spec post.(post_id) d2) as Hspec.
      destruct (latest_revision post.(post_id) d2) as [r|].
      + destruct Hspec as (Hin & Hpk & Hmax). rewrite E in Hin.
        apply elem_of_app in Hin as [Hin|Hin%list_elem_of_singleton].
        * exfalso. specialize (Hdates _ Hin Hpk).
          specialize (Hmax (mkRevision post.(post_id)
            (String.concat "" (unified_diff
               (splitlines (prior_content post.(post_id) d))
               (splitlines (combine post)))) (combine post) ed now)).
          simpl in Hmax. rewrite E in Hmax.
          assert (now ≤ r.(rev_date)); [|lia].
          apply Hmax; [|done]. apply elem_of_app. right. left.
        * by subst r.
      + exfalso. eapply Hspec; [rewrite E; apply elem_of_app; right; left|]. done.
    - unfold ret in Hr. injection Hr as <-.
      destruct (decide (combine post = prior_content (post_id post) d)); [done|].
      by exfalso. }
  split; [|done].
  unfold create_revision, create_revision_with, bind, get_db.
  rewrite Hed2. simpl. fold (prior_content again.(post_id) d1).
  rewrite Hid, Hprior, Hcomb. by rewrite bool_decide_false by (by intros ?).
Qed.
End RevisionsMore.

(** * Queries by tag *)

Section Query.
Context `{Const} `{Collab}.

Lemma append_cons x (a b : string) : String x a +:+ b = String x (a +:+ b).
Proof. done. Qed.

Lemma append_assoc_char (a : string) c (b : string) :
  (a +:+ String c EmptyString) +:+ b = a +:+ String c b.
Proof. induction a as [|x a IH]; [done|]. by rewrite !append_cons, IH. Qed.

Lemma append_empty_r (a : string) : a +:+ "" = a.
Proof. induction a as [|x a IH]; [done|]. by rewrite append_cons, IH. Qed.

Lemma re_split_word cur w :
  no_sign w = true → re_split cur w = [cur +:+ w].
Proof.
  revert cur. induction w as [|c w IH]; intros cur Hw; simpl in *.
  - by rewrite append_empty_r.
  - apply andb_prop in Hw as [Hc Hw]. apply negb_true_iff in Hc. rewrite Hc.
    rewrite IH by done. by rewrite append_assoc_char.
Qed.

Lemma re_split_sign cur w c rest :
  no_sign w = true → is_sign c = true →
  re_split cur (w +:+ String c rest)
  = (cur +:+ w) :: String c EmptyString :: re_split "" rest.
Proof.
  revert cur. induction w as [|x w IH]; intros cur Hw Hc.
  - change ("" +:+ String c rest) with (String c rest). simpl.
    by rewrite Hc, append_empty_r.
  - rewrite append_cons. simpl in *.
    apply andb_prop in Hw as [Hx Hw]. apply negb_true_iff in Hx. rewrite Hx.
    rewrite IH by done. by rewrite append_assoc_char.
Qed.

Lemma no_sign_not_sign w : no_sign w = true → w ≠ "-" ∧ w ≠ "+".
Proof.
  intros Hw. split; intros ->; simpl in Hw; unfold is_sign in Hw; simpl in Hw;
    by rewrite ?bool_decide_true in Hw by done.
Qed.

(** The loop adds to the lists it is given. *)
Lemma collect_tags_app pieces ex inc exc :
  collect_tags pieces ex inc exc
  = (inc ++ (collect_tags pieces ex [] []).1, exc ++ (collect_tags pieces ex [] []).2).
Proof.
  revert ex inc exc. induction pieces as [|t ts IH]; intros ex inc exc; simpl.
  - by rewrite !app_nil_r.
  - repeat case_bool_decide; try apply IH. destruct ex.
    + rewrite (IH true inc (exc ++ [t])), (IH true [] [t]). simpl.
      by rewrite <- app_assoc.
    + rewrite (IH false (inc ++ [t]) exc), (IH false [t] []). simpl.
      by rewrite <- app_assoc.
Qed.

Lemma collect_tags_word w ex rest :
  no_sign w = true →
  collect_tags (w :: rest) ex [] [] = filed ex w (collect_tags rest ex [] []).
Proof.
  intros [Hm Hp]%no_sign_not_sign. simpl.
  rewrite (bool_decide_false _ Hm), (bool_decide_false _ Hp). unfold filed.
  destruct (decide (w = "")) as [->|Hne].
  - rewrite bool_decide_false by (by intros ?). by rewrite bool_decide_true.
  - rewrite (bool_decide_true _ Hne), (bool_decide_false _ Hne).
    destruct ex.
    + rewrite (collect_tags_app rest true [] [w]). simpl. done.
    + rewrite (collect_tags_app rest false [w] []). simpl. done.
Qed.

(** X21.  The tag text of [query_by_tags] is read from left to right: a
    word with no sign in it joins the list that the last sign before it
    selected ([include] at the start and after [+], [exclude] after [-]),
    unless it is empty, and the rest of the text is read in the mode of the
    sign that follows the word. *)
Theorem parse_tags_reads_left_to_right w rest ex :
  no_sign w = true →
  collect_tags (re_split "" w) ex [] [] = filed ex w ([], [])
  ∧ collect_tags (re_split "" (w +:+ "+" +:+ rest)) ex [] []
    = filed ex w (collect_tags (re_split "" rest) false [] [])
  ∧ collect_tags (re_split "" (w +:+ "-" +:+ rest)) ex [] []
    = filed ex w (collect_tags (re_split "" rest) true [] []).
Proof.
  intros Hw. split_and!.
  - rewrite re_split_word by done. change ("" +:+ w) with w.
    by rewrite collect_tags_word.
  - change ("+" +:+ rest) with (String (Ascii.ascii_of_nat 43) rest).
    rewrite re_split_sign by done. rewrite collect_tags_word by done. done.
  - change ("-" +:+ rest) with (String (Ascii.ascii_of_nat 45) rest).
    rewrite re_split_sign by done. rewrite collect_tags_word by done. done.
Qed.
Lemma all_posts_NoDup d : NoDup (all_posts d).
Proof.
  unfold all_posts. apply NoDup_fmap_2_strong; [|apply NoDup_map_to_list].
  intros [k1 r1] [k2 r2] H1 H2 Heq. simpl in Heq.
  apply elem_of_map_to_list in H1, H2.
  assert (k1 = k2) as -> by (by apply (f_equal post_id) in Heq).
  congruence.
Qed.

Lemma get_post_manager_Some user d posts d' :
  get_post_manager user d = Some (posts, d') →
  d' = d ∧ posts = if sees_all user d then all_posts d else open_posts d.
Proof.
  unfold get_post_manager, sees_all. destruct user as [uid|]; intros Hr.
  - apply bind_Some in Hr as (pr & d1 & E & Hr).
    apply get_profile_Some in E as [-> ->]. unfold bind, get_db, ret in Hr.
    by injection Hr as <- <-.
  - unfold bind, get_db, ret in Hr. by injection Hr as <- <-.
Qed.

(** X22.  [query_by_tags] changes nothing.  Its result has no post twice
    and is ordered by rank, the greatest first.  It holds exactly the
    stored posts that are top-level, that are open or closed unless the
    user can moderate, that carry a tag named in [include] when [include]
    is not empty, and that carry no tag named in [exclude]. *)
Theorem query_by_tags_result user text d res d' :
  query_by_tags user text d = Some (res, d') →
  d' = d
  ∧ StronglySorted by_rank res
  ∧ NoDup res
  ∧ ∀ p, p ∈ res ↔
      post_row p.(post_id) d = Some p
      ∧ top_level p = true
      ∧ (sees_all user d = true
         ∨ p.(status) = POST_OPEN ∨ p.(status) = POST_CLOSED)
      ∧ ((parse_tags text).1 = [] ∨ tagged_in (parse_tags text).1 d p)
      ∧ ¬ tagged_in (parse_tags text).2 d p.
Proof.
  unfold query_by_tags. intros Hr.
  apply bind_Some in Hr as (posts & d1 & E & Hr).
  apply get_post_manager_Some in E as [-> Hposts].
  apply bind_Some in Hr as (d0 & d1 & E & Hr). unfold get_db in E.
  injection E as <- <-.
  destruct (parse_tags text) as [include exclude]. unfold ret in Hr.
  injection Hr as <- <-. simpl.
  assert (NoDup posts) as Hnd.
  { rewrite Hposts. destruct (sees_all user d); [apply all_posts_NoDup|].
    apply NoDup_filter, all_posts_NoDup. }
  assert (∀ p, p ∈ posts ↔
               post_row p.(post_id) d = Some p
               ∧ (sees_all user d = true
                  ∨ p.(status) = POST_OPEN ∨ p.(status) = POST_CLOSED)) as Hin.
  { intros p. rewrite Hposts. destruct (sees_all user d).
    - rewrite elem_of_all_posts. split; [intros ?; split; [done | by left]|].
      by intros [? _].
    - unfold open_posts. rewrite list_elem_of_filter, elem_of_all_posts.
      split; [intros [? ?]; split; [done | by right]|].
      intros [? [?|?]]; done. }
  split_and!; [done | apply StronglySorted_merge_sort; apply _ | |].
  - rewrite merge_sort_Permutation. apply NoDup_filter.
    case_bool_decide; by apply NoDup_filter.
  - intros p. rewrite merge_sort_Permutation, list_elem_of_filter.
    case_bool_decide as Hinc.
    + rewrite list_elem_of_filter, Hin. split.
      * intros (? & [? ?] & ? & ?). split_and!; try done. by right.
      * intros (? & ? & ? & [?|?] & ?); [done|]. done.
    + rewrite list_elem_of_filter, Hin.
      subst include.
      split.
      * intros (? & ? & ? & ?). split_and!; try done. by left.
      * intros (? & ? & ? & _ & ?). done.
Qed.

End Query.

(** * Labels *)

Section Labels.
Context `{Const} `{Collab}.

(** X23.  [get_label] is never ["open"]: a post with no answer is
    ["unanswered"], one with answers is ["accepted"] or ["answered"]
    according to its flag, and the last branch cannot be reached. *)
Theorem get_label_never_open p :
  get_label p ≠ "open"
  ∧ (get_label p = "unanswered" ↔ p.(answer_count) = 0)
  ∧ (get_label p = "accepted" ↔ p.(answer_count) ≠ 0 ∧ p.(accepted) = true)
  ∧ (get_label p = "answered" ↔ p.(answer_count) ≠ 0 ∧ p.(accepted) = false).
Proof.
  unfold get_label.
  case_bool_decide as Hc; [|destruct (accepted p); [|rewrite bool_decide_true by done]];
    split_and!; try done; split; try done; try (intros [? ?]; done).
Qed.

End Labels.

(** * Decorating posts *)

Section Decorate.
Context `{Const} `{Collab}.

Lemma decorated_flag (posts : list Post) (u : User) (d : DB) (ty : Z) (p : Post) :
  p ∈ posts →
  p.(post_id) ∈ vote_post <$> filter (λ v, v.(vote_type) = ty)
                    (filter (λ v, v.(vote_author) = u.(user_id)
                                  ∧ v.(vote_post) ∈ post_id <$> posts) d.(votes))
  ↔ ∃ v, v ∈ d.(votes) ∧ v.(vote_author) = u.(user_id)
       ∧ v.(vote_post) = p.(post_id) ∧ v.(vote_type) = ty.
Proof.
  intros Hp. rewrite list_elem_of_fmap. split.
  - intros (v & Hid & Hv). apply list_elem_of_filter in Hv as [Hty Hv].
    apply list_elem_of_filter in Hv as [[Hau _] Hv]. eauto.
  - intros (v & Hv & Hau & Hpost & Hty). exists v. split; [done|].
    apply list_elem_of_filter. split; [done|].
    apply list_elem_of_filter. split; [|done]. split; [done|].
    rewrite Hpost. apply list_elem_of_fmap. eauto.
Qed.

(** X24.  [decorate_posts] leaves the posts as they are for a user who is
    not authenticated.  For another user it returns the same posts in the
    same order, each marked writeable as [authorize_post_edit] says, and
    marked up-voted, down-voted or bookmarked exactly when that user has a
    vote of that type on the post. *)
Theorem decorate_posts_flags posts u d :
  decorate_posts posts None d = Some ((λ p, (p, None)) <$> posts, d)
  ∧ ∃ res, decorate_posts posts (Some u) d = Some (res, d)
      ∧ res.*1 = posts
      ∧ ∀ p o, (p, o) ∈ res →
          ∃ dec, o = Some dec
            ∧ dec.(writeable) = authorize_post_edit u p d
            ∧ (dec.(upvoted) = true ↔
                 ∃ v, v ∈ d.(votes) ∧ v.(vote_author) = u.(user_id)
                      ∧ v.(vote_post) = p.(post_id) ∧ v.(vote_type) = VOTE_UP)
            ∧ (dec.(downvoted) = true ↔
                 ∃ v, v ∈ d.(votes) ∧ v.(vote_author) = u.(user_id)
                      ∧ v.(vote_post) = p.(post_id) ∧ v.(vote_type) = VOTE_DOWN)
            ∧ (dec.(bookmarked) = true ↔
                 ∃ v, v ∈ d.(votes) ∧ v.(vote_author) = u.(user_id)
                      ∧ v.(vote_post) = p.(post_id) ∧ v.(vote_type) = VOTE_BOOKMARK).
Proof.
  split; [done|]. eexists. split; [unfold decorate_posts, bind, get_db, ret; reflexivity|].
  split.
  - rewrite <- list_fmap_compose. apply list_fmap_id.
  - intros p o Hin. apply list_elem_of_fmap in Hin as (q & [= -> ->] & Hq).
    eexists. split; [reflexivity|]. simpl. split; [done|].
    rewrite !bool_decide_eq_true. split_and!; by apply decorated_flag.
Qed.
End Decorate.

(** * Examples for the rest of the module *)

Lemma tag_set_wf_list d :
  NoDup d.(tag_set) →
  Forall (λ r : nat * nat, is_Some (d.(tags) !! r.2)) d.(tag_set) →
  tag_set_wf d.
Proof. intros Hnd Hall. split; [done|]. by apply Forall_forall. Qed.

Lemma counts_match_map d :
  map_Forall (λ t row, row.(tag_count) = posts_tagged t d) d.(tags) →
  counts_match d.
Proof. done. Qed.

Lemma inbox_in_sync_map d :
  map_Forall (λ u pr, pr.(new_messages) = unread_for u d) d.(profiles) →
  inbox_in_sync d.
Proof. done. Qed.

(** Settles a decidable statement about the small forum by evaluation. *)
Ltac by_evaluation := apply (bool_decide_unpack _); vm_compute; exact I.

Section MoreExamples.
#[local] Existing Instance demo_const.
#[local] Existing Instance demo_collab.
#[local] Existing Instance demo_tagtext.

Lemma demo_tagged_wf : tag_set_wf demo_tagged ∧ counts_match demo_tagged.
Proof.
  split; [apply tag_set_wf_list; by_evaluation|].
  apply counts_match_map. by_evaluation.
Qed.

Lemma demo_tag_created_wf : tag_set_wf demo_tag_created ∧ counts_match demo_tag_created.
Proof.
  split; [apply tag_set_wf_list; by_evaluation|].
  apply counts_match_map. by_evaluation.
Qed.

Lemma tag_set_add_keeps_counts_witness :
  ∃ d', tag_set_add 0 [0%nat] demo_tag_created = Some (tt, d')
    ∧ tag_set_wf d' ∧ counts_match d'
    ∧ ∀ q t, (q, t) ∈ d'.(tag_set) ↔
             (q, t) ∈ demo_tag_created.(tag_set) ∨ (q = 0%nat ∧ t ∈ [0%nat]).
Proof.
  apply tag_set_add_keeps_counts.
  - exact (proj1 demo_tag_created_wf).
  - exact (proj2 demo_tag_created_wf).
  - intros t Ht. apply list_elem_of_singleton in Ht as ->. vm_compute. eauto.
Defined.

Lemma tag_set_clear_keeps_counts_witness :
  ∃ d', tag_set_clear 0 demo_tagged = Some (tt, d')
    ∧ tag_set_wf d' ∧ counts_match d'
    ∧ d'.(tag_set) = filter (λ r, r.1 ≠ 0%nat) demo_tagged.(tag_set).
Proof.
  apply tag_set_clear_keeps_counts.
  - exact (proj1 demo_tagged_wf).
  - exact (proj2 demo_tagged_wf).
Defined.

Lemma set_tags_counts_witness :
  tag_set_wf demo_retagged ∧ counts_match demo_retagged
  ∧ (∀ t, (demo_q_tags.(post_id), t) ∈ demo_retagged.(tag_set) ↔
          ∃ row, demo_retagged.(tags) !! t = Some row
                 ∧ row.(tag_name) ∈ get_tag_names demo_q_tags)
  ∧ (∀ q t, q ≠ demo_q_tags.(post_id) →
            (q, t) ∈ demo_retagged.(tag_set) ↔ (q, t) ∈ demo_tagged.(tag_set)).
Proof.
  apply (set_tags_counts demo_q_tags demo_tagged demo_retagged).
  - exact (proj1 demo_tagged_wf).
  - exact (proj2 demo_tagged_wf).
  - by_evaluation.
  - vm_compute. reflexivity.
Defined.

Lemma award_effect_witness :
  demo_award.(award_date) = Some (default now None)
  ∧ demo_award ∈ demo_awarded.(awards)
  ∧ ∃ b pr pr',
      demo_users.(badges) !! 0%nat = Some b
      ∧ demo_users.(profiles) !! 1%nat = Some pr
      ∧ demo_awarded.(profiles) !! 1%nat = Some pr'
      ∧ badge_count <$> demo_awarded.(badges) !! 0%nat = Some (b.(badge_count) + 1)
      ∧ (b.(badge_type) = BADGE_BRONZE →
           pr'.(bronze_badges) = pr.(bronze_badges) + 1
           ∧ pr'.(silver_badges) = pr.(silver_badges)
           ∧ pr'.(gold_badges) = pr.(gold_badges))
      ∧ (b.(badge_type) = BADGE_SILVER →
           pr'.(bronze_badges) = pr.(bronze_badges)
           ∧ pr'.(silver_badges) = pr.(silver_badges) + 1
           ∧ pr'.(gold_badges) = pr.(gold_badges))
      ∧ (b.(badge_type) = BADGE_GOLD →
           pr'.(bronze_badges) = pr.(bronze_badges)
           ∧ pr'.(silver_badges) = pr.(silver_badges)
           ∧ pr'.(gold_badges) = pr.(gold_badges) + 1)
      ∧ (b.(badge_type) ∉ [BADGE_BRONZE; BADGE_SILVER; BADGE_GOLD] →
           pr'.(bronze_badges) = pr.(bronze_badges)
           ∧ pr'.(silver_badges) = pr.(silver_badges)
           ∧ pr'.(gold_badges) = pr.(gold_badges)).
Proof.
  apply (award_effect 0 1 None demo_users demo_award demo_awarded).
  vm_compute. reflexivity.
Defined.

Lemma award_round_trip_witness :
  ∃ d2, Award_delete demo_award demo_awarded = Some (tt, d2)
    ∧ d2.(badges) = demo_users.(badges)
    ∧ d2.(awards) = demo_users.(awards)
    ∧ (∀ u, u ≠ 1%nat → d2.(profiles) !! u = demo_users.(profiles) !! u)
    ∧ ∃ pr pr', demo_users.(profiles) !! 1%nat = Some pr
        ∧ d2.(profiles) !! 1%nat = Some pr'
        ∧ pr'.(bronze_badges) = pr.(bronze_badges)
        ∧ pr'.(silver_badges) = pr.(silver_badges)
        ∧ pr'.(gold_badges) = pr.(gold_badges)
        ∧ pr'.(prof_score) = pr.(prof_score)
        ∧ pr'.(new_messages) = pr.(new_messages).
Proof.
  apply (award_round_trip 0 1 None demo_users demo_award demo_awarded).
  vm_compute. reflexivity.
Defined.

Lemma reply_counted_witness :
  ∃ row, demo_commented.(posts) !! 1%nat = Some row
    ∧ row.(answer_count)
      = demo_a.(answer_count)
        + (if negb false && bool_decide (demo_comment.(type) = POST_ANSWER)
           then 1 else 0)
    ∧ row.(comment_count)
      = demo_a.(comment_count)
        + (if negb false && bool_decide (demo_comment.(type) = POST_COMMENT)
           then 1 else 0).
Proof.
  apply (reply_counted false demo_comment 1 demo_a demo_answered 2 demo_commented).
  - reflexivity.
  - vm_compute. reflexivity.
  - vm_compute. reflexivity.
Defined.

Lemma created_post_links_witness :
  demo_answered.(posts) !! 2%nat = None
  ∧ ∃ row, demo_commented.(posts) !! 2%nat = Some row
      ∧ row.(root) = Some (default 2%nat demo_comment.(root))
      ∧ row.(parent) = Some (default 2%nat demo_comment.(parent))
      ∧ row.(title) ≠ ""
      ∧ (demo_comment.(title) ≠ "" → row.(title) = demo_comment.(title))
      ∧ row.(type) = demo_comment.(type) ∧ row.(author) = demo_comment.(author)
      ∧ row.(content) = demo_comment.(content)
      ∧ row.(slug) = slugify row.(title)
      ∧ row.(html) = html_generate (py_strip row.(content))
      ∧ is_Some row.(creation_date) ∧ is_Some row.(lastedit_date)
      ∧ is_Some row.(lastedit_user).
Proof.
  apply (created_post_links false demo_comment demo_answered 2 demo_commented).
  vm_compute. reflexivity.
Defined.

Lemma unsaveable_post_rejected_witness :
  Post_update demo_orphan demo_answered = None
  ∧ Post_save demo_orphan demo_answered = None
  ∧ Post_create false demo_orphan demo_answered = None.
Proof.
  apply unsaveable_post_rejected.
  intros [Ht|[_ (k & Hk & _)]]; [vm_compute in Ht|]; discriminate.
Defined.

Lemma save_twice_witness :
  Post_update (verified demo_q_edited)
    (committed (Post_update demo_q_edited) demo_answered)
  = Some (verified demo_q_edited,
          committed (Post_update demo_q_edited) demo_answered)
  ∧ (committed (Post_update demo_q_edited) demo_answered).(posts)
      !! demo_q_edited.(post_id) = Some (verified demo_q_edited)
  ∧ (verified demo_q_edited).(slug) = slugify demo_q_edited.(title)
  ∧ (verified demo_q_edited).(html)
    = html_generate (py_strip demo_q_edited.(content))
  ∧ is_Some (verified demo_q_edited).(creation_date)
  ∧ is_Some (verified demo_q_edited).(lastedit_date)
  ∧ is_Some (verified demo_q_edited).(lastedit_user)
  ∧ (demo_q_edited.(rank) ≠ 0
     → (verified demo_q_edited).(rank) = demo_q_edited.(rank))
  ∧ (demo_q_edited.(rank) = 0
     → (verified demo_q_edited).(rank)
       = mktime (default now demo_q_edited.(creation_date))).
Proof.
  apply (save_twice demo_q_edited demo_answered).
  vm_compute. reflexivity.
Defined.


Lemma bookmark_vote_no_effect_witness :
  demo_a = demo_a
  ∧ committed (Vote_apply demo_bookmark demo_a 1) demo_answered
    = with_applied (λ l, l ++ [(EVote demo_bookmark.(vote_id), 1)]) demo_answered.
Proof.
  apply (bookmark_vote_no_effect demo_bookmark demo_a 1 demo_answered).
  - reflexivity.
  - vm_compute. reflexivity.
Defined.

Lemma accept_vote_effect_witness :
  ∃ rid r0 row rrow,
    demo_a.(root) = Some rid
    ∧ demo_answered.(posts) !! rid = Some r0
    ∧ (committed (Vote_apply demo_accept demo_a 1) demo_answered).(posts)
        !! demo_accept.(vote_post) = Some row
    ∧ (committed (Vote_apply demo_accept demo_a 1) demo_answered).(posts) !! rid
      = Some rrow
    ∧ row.(accepted) = bool_decide (1 = 1)
    ∧ rrow.(accepted) = bool_decide (1 = 1)
    ∧ row.(score) = demo_a.(score) ∧ row.(full_score) = demo_a.(full_score)
    ∧ rrow.(score) = r0.(score) ∧ rrow.(full_score) = r0.(full_score)
    ∧ (committed (Vote_apply demo_accept demo_a 1) demo_answered).(profiles)
      = demo_answered.(profiles).
Proof.
  apply (accept_vote_effect demo_accept demo_a 1 demo_answered
           (verified (set_accepted true demo_a))).
  - reflexivity.
  - vm_compute. reflexivity.
  - vm_compute. reflexivity.
Defined.

Lemma insert_vote_removes_all_witness :
  demo_taken_back.1 ∈ votes_of demo_a_voted.(post_id) 3 VOTE_UP demo_voted
  ∧ demo_taken_back.2
    = get_vote_type_display VOTE_UP +:+ " removed"
  ∧ votes_of demo_a_voted.(post_id) 3 VOTE_UP
      (committed (insert_vote demo_a_voted 3 VOTE_UP) demo_voted) = []
  ∧ (committed (insert_vote demo_a_voted 3 VOTE_UP) demo_voted).(votes)
    = filter (λ x, x.(vote_id) ∉
                   vote_id <$> votes_of demo_a_voted.(post_id) 3 VOTE_UP demo_voted)
        demo_voted.(votes)
  ∧ (committed (insert_vote demo_a_voted 3 VOTE_UP) demo_voted).(applied)
    = demo_voted.(applied) ++
      ((λ w, (EVote w.(vote_id), -1))
         <$> votes_of demo_a_voted.(post_id) 3 VOTE_UP demo_voted).
Proof.
  apply (insert_vote_removes_all demo_a_voted 3 VOTE_UP demo_voted demo_taken_back).
  - vm_compute. discriminate.
  - vm_compute. reflexivity.
Defined.

Lemma insert_vote_clears_opposing_witness :
  demo_cast_down.2
  = get_vote_type_display VOTE_DOWN +:+ " added"
  ∧ demo_cast_down.1.(vote_post) = demo_a_voted.(post_id)
  ∧ demo_cast_down.1.(vote_author) = 3%nat
  ∧ demo_cast_down.1.(vote_type) = VOTE_DOWN
  ∧ demo_revoted.(votes)
    = filter (λ x, x.(vote_id) ∉
                   vote_id <$> opposing_votes demo_a_voted 3 VOTE_DOWN demo_voted)
        demo_voted.(votes)
      ++ [demo_cast_down.1]
  ∧ (∀ w, w ∈ demo_revoted.(votes) →
          w.(vote_id) = demo_cast_down.1.(vote_id) →
          w = demo_cast_down.1)
  ∧ votes_of demo_a_voted.(post_id) 3 VOTE_DOWN demo_revoted
    = [demo_cast_down.1]
  ∧ demo_revoted.(applied)
    = demo_voted.(applied)
      ++ ((λ w, (EVote w.(vote_id), -1))
            <$> opposing_votes demo_a_voted 3 VOTE_DOWN demo_voted)
      ++ [(EVote demo_cast_down.1.(vote_id), 1)]
  ∧ (∀ opp, OPPOSING_VOTES VOTE_DOWN = Some opp → opp ≠ VOTE_DOWN →
       if bool_decide (opp ≠ 0)
       then votes_of demo_a_voted.(post_id) 3 opp demo_revoted = []
       else votes_of demo_a_voted.(post_id) 3 opp demo_revoted
            = votes_of demo_a_voted.(post_id) 3 opp demo_voted).
Proof.
  apply (insert_vote_clears_opposing demo_a_voted 3 VOTE_DOWN demo_voted
           demo_cast_down).
  - vm_compute. reflexivity.
  - vm_compute. reflexivity.
Defined.

Lemma unread_counter_in_sync_witness : inbox_in_sync demo_commented.
Proof.
  apply (proj1 (proj2 unread_counter_in_sync) false demo_comment demo_answered 2%nat).
  - apply inbox_in_sync_map. by_evaluation.
  - vm_compute. reflexivity.
Defined.

Lemma send_note_counters_witness :
  (∃ pr, demo_answered.(profiles) !! 2%nat = Some pr
     ∧ new_messages <$> demo_noted.(profiles) !! 2%nat
       = Some (pr.(new_messages) + 1)
     ∧ ∀ k, k ≠ 2%nat →
         demo_noted.(profiles) !! k = demo_answered.(profiles) !! k)
  ∧ (∀ k, unread_for k demo_noted
          = unread_for k demo_answered
            + (if bool_decide (2%nat = k ∧ true = true) then 1 else 0))
  ∧ (∀ n, n ∈ demo_noted.(notes) → n ∈ demo_answered.(notes)
          ∨ (n.(note_url) = String.substring 0 200 "/user/9/"
             ∧ (String.length n.(note_url) ≤ 200)%nat
             ∧ ((String.length "/user/9/" ≤ 200)%nat → n.(note_url) = "/user/9/")
             ∧ n.(note_date) = default now None)).
Proof.
  apply (send_note_counters 9 2 "hello" NOTE_MODERATOR true None true "/user/9/"
           demo_answered demo_noted).
  vm_compute. reflexivity.
Defined.

Lemma user_moderate_effect_witness :
  ∃ d' pr',
    user_moderate demo_moderator demo_author 1 demo_answered
    = Some (PyPair true ("User status set to " +:+ get_profile_status_display 1), d')
    ∧ d'.(profiles) !! demo_author.(user_id) = Some pr'
    ∧ pr'.(prof_status) = 1
    ∧ pr'.(new_messages) = (demo_profile 2 0).(new_messages) + 1
    ∧ pr'.(prof_score) = (demo_profile 2 0).(prof_score)
    ∧ pr'.(prof_type) = (demo_profile 2 0).(prof_type)
    ∧ (∀ k, k ≠ demo_author.(user_id) →
         d'.(profiles) !! k = demo_answered.(profiles) !! k)
    ∧ d'.(posts) = demo_answered.(posts)
    ∧ d'.(notes) = demo_answered.(notes) ++
        [mkNote demo_moderator.(user_id) demo_author.(user_id)
           (user_moderator_action demo_moderator demo_author)
           (html_generate (user_moderator_action demo_moderator demo_author)) now
           true NOTE_USER (String.substring 0 200 demo_moderator.(user_url));
         mkNote demo_moderator.(user_id) demo_moderator.(user_id)
           (user_moderator_action demo_moderator demo_author)
           (html_generate (user_moderator_action demo_moderator demo_author)) now
           false NOTE_MODERATOR (String.substring 0 200 demo_moderator.(user_url))].
Proof.
  apply (user_moderate_effect demo_moderator demo_author 1 demo_answered
           (demo_profile 2 0)).
  - reflexivity.
  - reflexivity.
  - vm_compute. reflexivity.
Defined.


Lemma parse_tags_reads_left_to_right_witness :
  collect_tags (re_split "" "rocq") false [] [] = filed false "rocq" ([], [])
  ∧ collect_tags (re_split "" ("rocq" +:+ "+" +:+ "coq")) false [] []
    = filed false "rocq" (collect_tags (re_split "" "coq") false [] [])
  ∧ collect_tags (re_split "" ("rocq" +:+ "-" +:+ "coq")) false [] []
    = filed false "rocq" (collect_tags (re_split "" "coq") true [] []).
Proof.
  apply (parse_tags_reads_left_to_right "rocq" "coq" false). reflexivity.
Defined.

Lemma query_by_tags_result_witness :
  demo_tagged = demo_tagged
  ∧ StronglySorted by_rank demo_listing
  ∧ NoDup demo_listing
  ∧ ∀ p, p ∈ demo_listing ↔
      post_row p.(post_id) demo_tagged = Some p
      ∧ top_level p = true
      ∧ (sees_all (Some 3%nat) demo_tagged = true
         ∨ p.(status) = POST_OPEN ∨ p.(status) = POST_CLOSED)
      ∧ ((parse_tags "rocq-coq").1 = []
         ∨ tagged_in (parse_tags "rocq-coq").1 demo_tagged p)
      ∧ ¬ tagged_in (parse_tags "rocq-coq").2 demo_tagged p.
Proof.
  apply (query_by_tags_result (Some 3%nat) "rocq-coq" demo_tagged demo_listing).
  vm_compute. reflexivity.
Defined.

Lemma created_post_leaves_others_witness :
  Post_create false demo_comment demo_answered = Some (2%nat, demo_commented)
  ∧ ∀ i, i ≠ 2%nat →
      links <$> demo_commented.(posts) !! i = links <$> demo_answered.(posts) !! i
      ∧ (demo_comment.(parent) ≠ Some i →
         demo_commented.(posts) !! i = demo_answered.(posts) !! i).
Proof.
  split; [vm_compute; reflexivity|].
  apply (created_post_leaves_others false demo_comment demo_answered 2 demo_commented).
  vm_compute. reflexivity.
Defined.

Lemma new_comment_listed_witness :
  Post_create false demo_comment demo_answered = Some (2%nat, demo_commented)
  ∧ ∀ i, i ∈ post_id <$> comments demo_a demo_commented ↔
         i = 2%nat ∨ i ∈ post_id <$> comments demo_a demo_answered.
Proof.
  split; [vm_compute; reflexivity|].
  apply (new_comment_listed false demo_comment 1 demo_a demo_answered 2 demo_commented).
  - vm_compute. reflexivity.
  - vm_compute. reflexivity.
  - vm_compute. reflexivity.
  - vm_compute. reflexivity.
Defined.

End MoreExamples.

Section LaterExamples.
#[local] Existing Instance demo_const.
#[local] Existing Instance demo_later.

Lemma create_revision_idempotent_witness :
  Exists (λ r, r.(rev_post) = demo_q_edited.(post_id) ∧ r.(rev_date) < now)
    demo_answered.(revisions)
  ∧ length demo_revised_later.(revisions) = S (length demo_answered.(revisions))
  ∧ create_revision demo_q_edited demo_revised_later
    = Some (tt, demo_revised_later)
  ∧ prior_content demo_q_edited.(post_id) demo_revised_later
    = combine demo_q_edited.
Proof.
  split; [by_evaluation|]. split; [vm_compute; reflexivity|].
  apply (create_revision_idempotent demo_q_edited demo_q_edited demo_answered).
  - vm_compute. eauto.
  - assert (Forall (λ r, r.(rev_post) = demo_q_edited.(post_id) → r.(rev_date) < now)
              demo_answered.(revisions)) as HF by by_evaluation.
    intros r Hr. exact (proj1 (Forall_forall _ _) HF r Hr).
  - vm_compute. reflexivity.
  - reflexivity.
  - reflexivity.
  - vm_compute. eauto.
Defined.

End LaterExamples.
